(** * MFSR case study: identifier assignment and page extraction

    A shallow embedding of [create_unique_ids.py] (the identifier
    assigner) and of [complete_mfsr_scraper.py] / [fixed_mfsr_scraper.py]
    (type classifier, size pattern, page walk), with the properties the
    specification states about them.

    What the source computes is written out as functions. What it leaves
    to a library is a variable of a section: [datetime.strptime], the
    [argsort] behind [sort_values], [str.lower], [urljoin] and the
    character classes of [re]. The theorems hold for all of them, under
    the contract stated where one is needed. What the source takes from
    its surroundings is an argument: the state of the global random
    generator, the answer to the page request, and what each node of the
    page yields when it is read. Printing is the list of printed lines,
    and a call that may raise returns [Ok] or [Raise]. *)

From Stdlib Require Import ZArith Lia List Ascii String Decimal DecimalString DecimalNat.
From stdpp Require Import base tactics option numbers list gmap sorting.

Open Scope nat_scope.
Open Scope list_scope.

(** ** Python values *)

(** A Python [str] is a sequence of Unicode code points; [len] and slicing
    count code points, so the embedding keeps one list element per code
    point. *)
Abbreviation str := (list N).

(** An ASCII literal of the source, as a [str]. *)
Definition u (s : string) : str := map N_of_ascii (list_ascii_of_string s).

Arguments u : simpl never.

(** [needle in haystack] on [str]: substring test. *)
Fixpoint starts_with (needle hay : str) : bool :=
  match needle, hay with
  | [], _ => true
  | _ :: _, [] => false
  | a :: needle', b :: hay' => (a =? b)%N && starts_with needle' hay'
  end.

Fixpoint contains (needle hay : str) : bool :=
  starts_with needle hay ||
  match hay with
  | [] => false
  | _ :: hay' => contains needle hay'
  end.

(** [str(n)] for a non-negative integer, and the format [{n:03d}]. *)
Definition dec (n : nat) : str := u (NilEmpty.string_of_uint (Nat.to_uint n)).

Definition zero : N := 48%N.

Definition fmt_03d (n : nat) : str :=
  let s := dec n in replicate (3 - length s) zero ++ s.

(** Back to a Rocq string, and reading a decimal back. *)
Definition unu (s : str) : string := string_of_list_ascii (map ascii_of_N s).

Definition read_dec (s : str) : option nat :=
  Nat.of_uint <$> NilEmpty.uint_of_string (unu s).

Definition dot : str := u ".".

(** A cell of a frame read with [pd.read_csv]: an empty cell is [NaN]. *)
Inductive cell := NaN | Str (s : str).

#[global] Instance cell_eq_dec : EqDecision cell.
Proof. solve_decision. Defined.

(** [datetime] values produced by [strptime] with a day.month.year format:
    the time of day is midnight, so a value is its calendar date. *)
Record datetime := mkdate { year : nat; month : nat; day : nat }.

#[global] Instance datetime_eq_dec : EqDecision datetime.
Proof. solve_decision. Defined.

(** Chronological order. *)
Definition date_lt (a b : datetime) : Prop :=
  year a < year b \/
  (year a = year b /\ (month a < month b \/ (month a = month b /\ day a < day b))).

Definition date_le (a b : datetime) : Prop := date_lt a b \/ a = b.

#[global] Instance date_lt_dec a b : Decision (date_lt a b).
Proof. unfold date_lt. apply _. Defined.

#[global] Instance date_le_dec a b : Decision (date_le a b).
Proof. unfold date_le. apply _. Defined.

(** ** The process-wide random generator

    [random.shuffle] draws from the interpreter's global generator. Its state
    is modelled by the values its next draws will deliver: [randbelow n]
    consumes one of them and reduces it into [0, n). An exhausted tape
    delivers 0. *)
Abbreviation rng := (list nat).

Definition randbelow (n : nat) (g : rng) : nat * rng :=
  match g with
  | [] => (0, [])
  | r :: g' => (r mod n, g')
  end.

(** [x[i], x[j] = x[j], x[i]]. Both reads come first; an index out of range
    raises in Python, which the shuffle below never triggers. *)
Definition swap {A} (x : list A) (i j : nat) : list A :=
  match x !! i, x !! j with
  | Some xi, Some xj => <[j := xi]> (<[i := xj]> x)
  | _, _ => x
  end.

(** [random.shuffle(x)]:
    [for i in reversed(range(1, len(x))): j = randbelow(i + 1); swap]. *)
Fixpoint shuffle_from {A} (i : nat) (x : list A) (g : rng) : list A * rng :=
  match i with
  | 0 => (x, g)
  | S i' =>
      let '(j, g') := randbelow (i + 1) g in
      shuffle_from i' (swap x i j) g'
  end.

Definition shuffle {A} (x : list A) (g : rng) : list A * rng :=
  shuffle_from (length x - 1) x g.

(** ** create_unique_ids.py *)

(** The six columns the docstring of [create_unique_ids] names. *)
Record row := mkrow {
  Sector : cell; Project_Name : cell; Type_ : cell;
  URL : cell; Date : cell; File_Size : cell }.

(** A row of the working copy: the input columns, [Date_parsed] and
    [Document_ID]. *)
Record wrow := mkwrow {
  w_doc : row; w_Date_parsed : option datetime; w_Document_ID : str }.

(** A row of the returned frame, after [drop('Date_parsed', axis=1)]. *)
Record orow := mkorow { doc : row; Document_ID : str }.

(** Rows with their index label. *)
Abbreviation frame := (list (nat * wrow)).

(** What one call leaves behind: the returned frame, the lines it printed
    and the state of the global generator. *)
Record outcome := mkoutcome {
  returned : list orow; printed : list str; gen_after : rng }.

Record state := mkstate {
  df_with_ids : frame; stdout : list str; gen : rng }.

Definition print (line : str) (st : state) : state :=
  mkstate (df_with_ids st) (stdout st ++ [line]) (gen st).

(** [df_with_ids.loc[idx, 'Document_ID'] = doc_id]: every row labelled
    [idx] is written. *)
Definition loc_set_Document_ID (idx : nat) (doc_id : str) (f : frame) : frame :=
  (λ lr, if decide (lr.1 = idx)
         then (lr.1, mkwrow (w_doc lr.2) (w_Date_parsed lr.2) doc_id)
         else lr) <$> f.

Definition set_loc (idx : nat) (doc_id : str) (st : state) : state :=
  mkstate (loc_set_Document_ID idx doc_id (df_with_ids st)) (stdout st) (gen st).

Definition sector_mapping : list (str * nat) :=
  [ (u "Doprava", 1); (u "Informatizacia", 2); (u "Budovy", 3);
    (u "Obrana", 4); (u "Ostatne", 5) ].

(** [f"{sector_id}.{i:03d}"] *)
Definition doc_id_of (sector_id i : nat) : str := dec sector_id ++ dot ++ fmt_03d i.

Arguments dec : simpl never.
Arguments fmt_03d : simpl never.
Arguments doc_id_of : simpl never.

Definition notna (lr : nat * wrow) : Prop := is_Some (w_Date_parsed lr.2).
Definition isna (lr : nat * wrow) : Prop := w_Date_parsed lr.2 = None.

#[global] Instance notna_dec lr : Decision (notna lr).
Proof. unfold notna. apply _. Defined.
#[global] Instance isna_dec lr : Decision (isna lr).
Proof. unfold isna. apply _. Defined.

(** Positional selection [rows.take(indexer)]; the indexers below are
    permutations of the positions, so no position is out of range. *)
Definition take_rows {A} (rows : list A) (indexer : list nat) : list A :=
  omap (λ i, rows !! i) indexer.

Section Assigner.

(** [datetime.strptime(s, '%d.%m.%Y')]; [None] stands for the
    [ValueError] that [parse_date] catches. *)
Variable strptime : str -> option datetime.

(** [values.argsort(kind='quicksort')] of numpy on the non-missing keys:
    the positions of the keys in ascending order. *)
Variable argsort : list datetime -> list nat.

Definition parse_date (date_str : cell) : option datetime :=
  match date_str with
  | NaN => None
  | Str s => if decide (s = []) then None else strptime s
  end.

(** [sort_values('Date_parsed', na_position='last')]: pandas sorts the
    rows whose key is present and appends the others in their order. *)
Definition sort_values (f : frame) : frame :=
  let non_nans := omap (λ lr, w_Date_parsed lr.2) f in
  take_rows (filter notna f) (argsort non_nans) ++ filter isna f.

(** [for i, (idx, row) in enumerate(date_documents.iterrows(), 1)] *)
Fixpoint assign_dated (sector_id i : nat) (date_documents : frame) (st : state) : state :=
  match date_documents with
  | [] => st
  | (idx, _) :: rest =>
      let doc_id := doc_id_of sector_id i in
      let st := set_loc idx doc_id st in
      let st := print (u "    Assigned " ++ doc_id ++
                       u " to document with date at index " ++ dec idx) st in
      assign_dated sector_id (S i) rest st
  end.

(** [for i, idx in enumerate(no_date_indices)] *)
Fixpoint assign_undated (sector_id max_id i : nat) (no_date_indices : list nat)
    (st : state) : state :=
  match no_date_indices with
  | [] => st
  | idx :: rest =>
      let doc_num := max_id + i + 1 in
      let doc_id := doc_id_of sector_id doc_num in
      let st := set_loc idx doc_id st in
      let st := print (u "    Assigned " ++ doc_id ++
                       u " to document without date at index " ++ dec idx) st in
      assign_undated sector_id max_id (S i) rest st
  end.

(** The body of [for sector, sector_id in sector_mapping.items()]. *)
Definition process_sector (st : state) (entry : str * nat) : state :=
  let '(sector, sector_id) := entry in
  let st := print (u "Processing sector: " ++ sector ++ u " (SectorID: " ++
                   dec sector_id ++ u ")") st in
  let sector_df := filter (λ lr, Sector (w_doc lr.2) = Str sector) (df_with_ids st) in
  if decide (length sector_df = 0) then
    print (u "  No documents found for " ++ sector) st
  else
    let st := print (u "  Found " ++ dec (length sector_df) ++
                     u " documents for " ++ sector) st in
    let sector_df := sort_values sector_df in
    let date_documents := filter notna sector_df in
    let no_date_documents := filter isna sector_df in
    let st := assign_dated sector_id 1 date_documents st in
    if decide (0 < length no_date_documents) then
      let max_id := length date_documents in
      let '(no_date_indices, g) := shuffle no_date_documents.*1 (gen st) in
      let st := mkstate (df_with_ids st) (stdout st) g in
      assign_undated sector_id max_id 0 no_date_indices st
    else st.

(** The frame [main] passes comes from [pd.read_csv]: its index is the
    default range index, a row's label is its position. *)
Definition working_copy (df : list row) : frame :=
  imap (λ i r, (i, mkwrow r (parse_date (Date r)) [])) df.

Definition drop_Date_parsed (f : frame) : list orow :=
  (λ lr, mkorow (w_doc lr.2) (w_Document_ID lr.2)) <$> f.

Definition run (g : rng) (df : list row) : state :=
  foldl process_sector (mkstate (working_copy df) [] g) sector_mapping.

(** [create_unique_ids(df)], with the state [g] of the global generator at
    the call. The final [astype(str)] leaves the identifiers, which are
    strings, as they are. The call also adds [Date_parsed] to the frame of
    the caller; the outcome keeps what is returned and printed. *)
Definition create_unique_ids (g : rng) (df : list row) : outcome :=
  let st := run g df in
  mkoutcome (drop_Date_parsed (df_with_ids st)) (stdout st) (gen st).

End Assigner.

(** ** Library behaviours used to run the model

    The section above takes [strptime] and [argsort] as given. The
    definitions here are concrete ones to evaluate it with: a parser for
    ASCII day.month.year text and an insertion sort that keeps equal keys
    in input order. The sort that [sort_values] really calls, numpy's
    quicksort, follows below. *)

Definition digit (c : N) : option nat :=
  if ((48 <=? c) && (c <=? 57))%N then Some (N.to_nat (c - 48)) else None.

Definition days_in_month (y m : nat) : nat :=
  match m with
  | 2 => if decide ((y mod 4 = 0 /\ y mod 100 <> 0) \/ y mod 400 = 0) then 29 else 28
  | 4 | 6 | 9 | 11 => 30
  | _ => 31
  end.

(** The text after the day and month: four digits and nothing else. *)
Definition parse_year (s : str) : option nat :=
  match s with
  | [a; b; c; d] =>
      a ← digit a; b ← digit b; c ← digit c; d ← digit d;
      Some (1000 * a + 100 * b + 10 * c + d)
  | _ => None
  end.

(** One or two digits followed by a dot; the value must lie in [1, hi]. *)
Definition parse_field (hi : nat) (s : str) : option (nat * str) :=
  match s with
  | a :: 46%N :: rest =>
      a ← digit a;
      if decide (1 <= a) then Some (a, rest) else None
  | a :: b :: 46%N :: rest =>
      a ← digit a; b ← digit b;
      let v := 10 * a + b in
      if decide (1 <= v <= hi) then Some (v, rest) else None
  | _ => None
  end.

(** The day field also admits a space in place of a leading zero. *)
Definition parse_day (s : str) : option (nat * str) :=
  match s with
  | 32%N :: b :: 46%N :: rest =>
      b ← digit b;
      if decide (1 <= b) then Some (b, rest) else None
  | _ => parse_field 31 s
  end.

Definition strptime_dmY (s : str) : option datetime :=
  '(d, s) ← parse_day s;
  '(m, s) ← parse_field 12 s;
  y ← parse_year s;
  if decide (1 <= y /\ d <= days_in_month y m) then Some (mkdate y m d) else None.

(** Insertion of a keyed position in front of the first entry [before]
    allows it to precede. *)
Fixpoint insert_by (before : datetime -> datetime -> bool)
    (x : nat * datetime) (l : list (nat * datetime)) : list (nat * datetime) :=
  match l with
  | [] => [x]
  | y :: l' => if before x.2 y.2 then x :: l else y :: insert_by before x l'
  end.

Definition argsort_by (before : datetime -> datetime -> bool) (ks : list datetime) : list nat :=
  (foldr (insert_by before) [] (imap pair ks)).*1.

(** Equal keys stay in input order. *)
Definition argsort_stable : list datetime -> list nat :=
  argsort_by (λ a b, bool_decide (date_le a b)).


(** ** The sort behind [sort_values]

    [sort_values] is called without [kind], so pandas asks numpy for an
    argsort of kind [quicksort]: the introsort of npysort/quicksort.cpp
    ([aquicksort]), which partitions around the median of three while a
    run has more than [SMALL_QUICKSORT] + 1 elements, sorts shorter runs
    by insertion, and falls back on [aheapsort] for a run taken from the
    stack below the depth limit. The array [tosort] of positions is
    modelled with the key [v[*p]] beside each position. *)

Module npysort.

Abbreviation keyed := (nat * datetime)%type.




(** [INTP_SWAP] of two places *)
Definition swap (i j : nat) (a : list keyed) : list keyed :=
  match a !! i, a !! j with
  | Some x, Some y => <[j := x]> (<[i := y]> a)
  | _, _ => a
  end.















End npysort.



(** ** Regular expressions, as [re] runs them

    The fragment the two patterns of the scrapers use, matched the way
    Python's backtracking matcher does: alternatives in order, repetition
    and option greedy, the first start position that matches wins. *)
Inductive regex :=
| Class (p : N -> bool)          (* one character of a class *)
| Seq (r1 r2 : regex)
| Alt (r1 r2 : regex)            (* [r1|r2], [r1] tried first *)
| Opt (r : regex)                (* [(?:r)?] *)
| Star (p : N -> bool)           (* a class repeated, as in [\s*] *)
| WordBoundary.                  (* [\b] *)

Section Matcher.

(** [\w], which decides [\b]. *)
Variable is_word : N -> bool.

Definition word_at (c : option N) : bool :=
  match c with Some c => is_word c | None => false end.

Definition at_boundary (prev : option N) (s : str) : bool :=
  xorb (word_at prev) (word_at (head s)).

(** The continuation [k] receives the character before the position
    reached and the rest of the text; a failing continuation makes the
    matcher back up. *)
Fixpoint star {X} (p : N -> bool) (k : option N -> str -> option X)
    (prev : option N) (s : str) : option X :=
  match s with
  | c :: s' =>
      if p c then
        match star p k (Some c) s' with
        | Some x => Some x
        | None => k prev s
        end
      else k prev s
  | [] => k prev s
  end.

Fixpoint backtrack {X} (r : regex) (k : option N -> str -> option X)
    (prev : option N) (s : str) : option X :=
  match r with
  | Class p =>
      match s with
      | c :: s' => if p c then k (Some c) s' else None
      | [] => None
      end
  | Seq r1 r2 => backtrack r1 (backtrack r2 k) prev s
  | Alt r1 r2 =>
      match backtrack r1 k prev s with
      | Some x => Some x
      | None => backtrack r2 k prev s
      end
  | Opt r =>
      match backtrack r k prev s with
      | Some x => Some x
      | None => k prev s
      end
  | Star p => star p k prev s
  | WordBoundary => if at_boundary prev s then k prev s else None
  end.

(** The match that starts here, if any: [m.group(0)]. *)
Definition match_here (r : regex) (prev : option N) (s : str) : option str :=
  rest ← backtrack r (λ _ rest, Some rest) prev s;
  Some (take (length s - length rest) s).

(** [pattern.search(s)]: the start positions from left to right. *)
Fixpoint search_from (r : regex) (prev : option N) (s : str) : option str :=
  match match_here r prev s with
  | Some m => Some m
  | None =>
      match s with
      | [] => None
      | c :: s' => search_from r (Some c) s'
      end
  end.

Definition search (r : regex) (s : str) : option str := search_from r None s.

End Matcher.

(** A literal of a pattern. *)
Definition chr (c : N) : regex := Class (N.eqb c).

Fixpoint lit (s : str) : regex :=
  match s with
  | [] => Opt (Class (λ _, false))
  | [c] => chr c
  | c :: s' => Seq (chr c) (lit s')
  end.

(** ** The scrapers: complete_mfsr_scraper.py and fixed_mfsr_scraper.py *)

(** A call that may raise: [Raise] is any [Exception]. *)
Inductive res (A : Type) := Ok (a : A) | Raise.
Arguments Ok {A} a.
Arguments Raise {A}.

Definition res_bind {A B} (m : res A) (f : A -> res B) : res B :=
  match m with Ok a => f a | Raise => Raise end.

Notation "x <- m ;; k" := (res_bind m (λ x, k))
  (at level 100, m at next level, right associativity).

(** What the walk reads of a sibling: a node with [get_text], whose call
    may raise, or one without, read as [str(sib).strip()]. *)
Inductive sibling := SibNode (get_text : res str) | SibText (text : str).

Inductive tag := h4 | h5 | a_tag.

(** An element found by [soup.find_all(["h4", "h5", "a"])], by what the
    scraper reads of it: [elem.name], [elem.get_text(" ", strip=True)],
    [elem.get("href")], [elem.parent] with the text of the parent, and
    the siblings before and after it. *)
Record element := mkelement {
  name : tag;
  get_text : res str;
  href : option str;
  parent : option (res str);
  previous_siblings : list sibling;
  next_siblings : list sibling }.

(** A tuple appended to [rows]. *)
Record document := mkdocument {
  d_sector : str; d_project : str; d_type : str;
  d_url : str; d_date : str; d_size : str }.

#[global] Instance document_eq_dec : EqDecision document.
Proof. solve_decision. Defined.

(** The answer to [session.get(page_url, timeout=20)] with the parsed page. *)
Record response := mkresponse { status_code : nat; find_all : list element }.

Definition BASE : str := u "https://www.mfsr.sk".

(** The literals of [determine_document_type], by code point. *)
Definition hodnotenie : str := u "hodnotenie".
(* analýza *)
Definition analyza_acute : str := [97; 110; 97; 108; 253; 122; 97]%N.
Definition analyza : str := u "analyza".
(* štúdia uskutočniteľnosti *)
Definition studia_uskutocnitelnosti : str :=
  [353; 116; 250; 100; 105; 97; 32; 117; 115; 107; 117; 116; 111; 269;
   110; 105; 116; 101; 318; 110; 111; 115; 116; 105]%N.
(* aktualizácia *)
Definition aktualizacia : str := [97; 107; 116; 117; 97; 108; 105; 122; 225; 99; 105; 97]%N.
Definition stanovisko : str := u "stanovisko".
(* správa *)
Definition sprava : str := [115; 112; 114; 225; 118; 97]%N.
Definition metodika : str := u "metodika".
Definition zmluva : str := u "zmluva".
Definition dohoda : str := u "dohoda".
(* investičný zámer *)
Definition investicny_zamer : str :=
  [105; 110; 118; 101; 115; 116; 105; 269; 110; 253; 32; 122; 225; 109; 101; 114]%N.

Definition space : str := u " ".
Definition ellipsis : str := u "...".

(** [sep.join(parts)] *)
Fixpoint join (sep : str) (parts : list str) : str :=
  match parts with
  | [] => []
  | [p] => p
  | p :: rest => p ++ sep ++ join sep rest
  end.

(** [x or ""] for an optional string. *)
Definition or_empty (x : option str) : str := default [] x.

Section Scraper.

(** [str.lower] *)
Variable lower : str -> str.

(** [urllib.parse.urljoin], which raises [ValueError] on some inputs. *)
Variable urljoin : str -> str -> res str.

(** The classes [\d], [\s] and [\w] of a [str] pattern. *)
Variable is_digit : N -> bool.
Variable is_space : N -> bool.
Variable is_word : N -> bool.

Definition digit_re : regex := Class is_digit.
Definition digits_re : regex := Seq digit_re (Star is_digit).

(** [\b\d{1,2}\.\d{1,2}\.\d{4}\b] *)
Definition date_re : regex :=
  Seq WordBoundary
  (Seq (Seq digit_re (Opt digit_re))
  (Seq (chr 46)
  (Seq (Seq digit_re (Opt digit_re))
  (Seq (chr 46)
  (Seq (Seq digit_re (Seq digit_re (Seq digit_re digit_re)))
       WordBoundary))))).

(** The unit spellings of [size_re], in the order of the pattern. *)
Definition units : list str :=
  [u "kB"; u "KB"; u "MB"; u "GB"; u "B"; u "kb"; u "mb"; u "gb"].

Definition unit_re : regex :=
  Alt (lit (u "kB")) (Alt (lit (u "KB")) (Alt (lit (u "MB")) (Alt (lit (u "GB"))
  (Alt (lit (u "B")) (Alt (lit (u "kb")) (Alt (lit (u "mb")) (lit (u "gb")))))))).

Definition separator (c : N) : bool := ((c =? 46) || (c =? 44))%N.

(** [\b\d+(?:[.,]\d+)?\s*(?:kB|KB|MB|GB|B|kb|mb|gb)\b] *)
Definition size_re : regex :=
  Seq WordBoundary
  (Seq digits_re
  (Seq (Opt (Seq (Class separator) digits_re))
  (Seq (Star is_space)
  (Seq unit_re WordBoundary)))).

Definition read_sibling (sib : sibling) : res str :=
  match sib with
  | SibNode get_text => get_text
  | SibText text => Ok text
  end.

(** The body of [for sib in ...: search_texts.append(...)]: the first
    read that raises ends the loop and the function. *)
Fixpoint read_siblings (sibs : list sibling) : res (list str) :=
  match sibs with
  | [] => Ok []
  | sib :: rest =>
      t <- read_sibling sib ;;
      ts <- read_siblings rest ;;
      Ok (t :: ts)
  end.

Definition extract_date_and_size (anchor : element) : res (option str * option str) :=
  (* try: search_texts.append(anchor.get_text(...)) except Exception: pass *)
  let own := match get_text anchor with Ok t => [t] | Raise => [] end in
  (* if anchor.parent: try: ... except Exception: pass *)
  let par := match parent anchor with Some (Ok t) => [t] | _ => [] end in
  prev <- read_siblings (take 12 (previous_siblings anchor)) ;;
  next <- read_siblings (take 6 (next_siblings anchor)) ;;
  let search_texts := own ++ par ++ prev ++ next in
  let combined := join space (filter (λ t, t <> []) search_texts) in
  Ok (search is_word date_re combined, search is_word size_re combined).

Definition is_pdf_link (href : option str) (link_text : str) : bool :=
  match href with
  | None => false
  | Some [] => false
  | Some href =>
      contains (u ".pdf") (lower href) || contains (u "pdf") (lower link_text)
  end.

(** [link_text[:50] + "..." if len(link_text) > 50 else link_text] *)
Definition truncated (link_text : str) : str :=
  if decide (50 < length link_text) then take 50 link_text ++ ellipsis else link_text.

Definition determine_document_type (link_text parent_text : str) : str :=
  let text_to_search := lower (link_text ++ space ++ parent_text) in
  if contains hodnotenie text_to_search then hodnotenie
  else if contains analyza_acute text_to_search || contains analyza text_to_search
       then analyza_acute
  else if contains studia_uskutocnitelnosti text_to_search then studia_uskutocnitelnosti
  else if contains aktualizacia text_to_search then aktualizacia
  else if contains stanovisko text_to_search then stanovisko
  else if contains sprava text_to_search then sprava
  else if contains metodika text_to_search then metodika
  else if contains zmluva text_to_search then zmluva
  else if contains dohoda text_to_search then dohoda
  else if contains investicny_zamer text_to_search then investicny_zamer
  else truncated link_text.

(** The state of the page walk. *)
Record walk := mkwalk {
  rows : list document;
  seen : gset (str * str * str);
  last_project_name : str }.

(** One turn of [for elem in soup.find_all(["h4", "h5", "a"])]. *)
Definition visit (sector_name : str) (w : walk) (elem : element) : res walk :=
  match name elem with
  | h4 => Ok w
  | h5 =>
      t <- get_text elem ;;
      Ok (mkwalk (rows w) (seen w) t)
  | a_tag =>
      t <- get_text elem ;;
      if is_pdf_link (href elem) t then
        link_text <- get_text elem ;;
        parent_text <- match parent elem with Some p => p | None => Ok [] end ;;
        let dtype := determine_document_type link_text parent_text in
        url <- urljoin BASE (default [] (href elem)) ;;
        ds <- extract_date_and_size elem ;;
        let key := (sector_name, last_project_name w, url) in
        if decide (key ∉ seen w) then
          Ok (mkwalk
                (rows w ++ [mkdocument sector_name (last_project_name w) dtype url
                              (or_empty ds.1) (or_empty ds.2)])
                ({[key]} ∪ seen w)
                (last_project_name w))
        else Ok w
      else Ok w
  end.

Fixpoint visit_all (sector_name : str) (w : walk) (elems : list element) : res walk :=
  match elems with
  | [] => Ok w
  | elem :: rest =>
      w' <- visit sector_name w elem ;;
      visit_all sector_name w' rest
  end.

(** [scrape_sector_page(sector_name, page_url, session)]; [page] is the
    outcome of the request. Whatever raises inside the [try] is caught at
    its end, and the function returns the empty list. *)
Definition scrape_sector_page (sector_name : str) (page : res response) : list document :=
  let body :=
    resp <- page ;;
    if decide (status_code resp <> 200) then Ok []
    else
      w <- visit_all sector_name (mkwalk [] ∅ (u "UNKNOWN_PROJECT")) (find_all resp) ;;
      Ok (rows w) in
  match body with
  | Ok rows => rows
  | Raise => []
  end.

End Scraper.

(** [determine_document_type] of fixed_mfsr_scraper.py: the same chain
    without its last keyword. *)
Module Fixed.
Section Classifier.
Variable lower : str -> str.

Definition determine_document_type (link_text parent_text : str) : str :=
  let text_to_search := lower (link_text ++ space ++ parent_text) in
  if contains hodnotenie text_to_search then hodnotenie
  else if contains analyza_acute text_to_search || contains analyza text_to_search
       then analyza_acute
  else if contains studia_uskutocnitelnosti text_to_search then studia_uskutocnitelnosti
  else if contains aktualizacia text_to_search then aktualizacia
  else if contains stanovisko text_to_search then stanovisko
  else if contains sprava text_to_search then sprava
  else if contains metodika text_to_search then metodika
  else if contains zmluva text_to_search then zmluva
  else if contains dohoda text_to_search then dohoda
  else truncated link_text.

End Classifier.
End Fixed.

(** ** What a pattern matches

    The matches of a pattern, apart from the order in which the matcher
    tries them: [matches r prev s prev' rest] says that [r] matches the
    front of [s] up to [rest], [prev] being the character before [s] and
    [prev'] the one before [rest]. *)
Section Matches.
Variable is_word : N -> bool.

Inductive matches : regex -> option N -> str -> option N -> str -> Prop :=
| matches_class p c s prev :
    p c = true -> matches (Class p) prev (c :: s) (Some c) s
| matches_seq r1 r2 prev s prev1 s1 prev2 s2 :
    matches r1 prev s prev1 s1 -> matches r2 prev1 s1 prev2 s2 ->
    matches (Seq r1 r2) prev s prev2 s2
| matches_alt_l r1 r2 prev s prev' rest :
    matches r1 prev s prev' rest -> matches (Alt r1 r2) prev s prev' rest
| matches_alt_r r1 r2 prev s prev' rest :
    matches r2 prev s prev' rest -> matches (Alt r1 r2) prev s prev' rest
| matches_opt_some r prev s prev' rest :
    matches r prev s prev' rest -> matches (Opt r) prev s prev' rest
| matches_opt_none r prev s : matches (Opt r) prev s prev s
| matches_star_nil p prev s : matches (Star p) prev s prev s
| matches_star_cons p c prev s prev' rest :
    p c = true -> matches (Star p) (Some c) s prev' rest ->
    matches (Star p) prev (c :: s) prev' rest
| matches_boundary prev s :
    at_boundary is_word prev s = true -> matches WordBoundary prev s prev s.

End Matches.

(** The character before the end of [m], [prev] being the one before [m]. *)
Definition last_or (prev : option N) (m : str) : option N :=
  match last m with Some c => Some c | None => prev end.
(** ** download_pdfs.py *)

(** [s.endswith(suffix)] *)
Definition ends_with (suffix s : str) : bool := bool_decide (suffix `suffix_of` s).

Definition extensions : list str :=
  [ u ".pdf"; u ".doc"; u ".docx"; u ".xls"; u ".xlsx"; u ".ppt"; u ".pptx";
    u ".txt"; u ".rtf"; u ".odt"; u ".ods"; u ".odp"; u ".csv"; u ".xml";
    u ".zip"; u ".rar"; u ".7z"; u ".tar"; u ".gz" ].

Definition archive_extensions : list str :=
  [ u ".zip"; u ".rar"; u ".7z"; u ".tar"; u ".gz" ].

(** The characters of [invalid_chars], by code point:
    [<], [>], [:], the double quote, [/], the backslash, [|], [?], [*]. *)
Definition invalid_chars : str := [60; 62; 58; 34; 47; 92; 124; 63; 42]%N.

Definition underscore : N := 95%N.

(** [s.replace(char, new)] for one-character strings. *)
Definition replace (char new : N) (s : str) : str :=
  (λ c, if (c =? char)%N then new else c) <$> s.

(** [s.lstrip(chars)], [s.rstrip(chars)] and [s.strip(chars)]. *)
Fixpoint lstrip (chars s : str) : str :=
  match s with
  | [] => []
  | c :: s' => if bool_decide (c ∈ chars) then lstrip chars s' else s
  end.

Definition rstrip (chars s : str) : str := reverse (lstrip chars (reverse s)).

Definition strip (chars s : str) : str := rstrip chars (lstrip chars s).

Definition clean_filename (filename : str) : str :=
  let filename :=
    foldl (λ filename char, replace char underscore filename) filename invalid_chars in
  let filename := strip (u ". ") filename in
  if decide (200 < length filename) then take 200 filename else filename.

Section Download.

(** [str.lower] *)
Variable lower : str -> str.

(** [urlparse(url).path]; [urlparse] raises [ValueError] on some inputs. *)
Variable urlparse_path : str -> res str.

Definition get_file_extension (url : str) : res str :=
  parsed_path <- urlparse_path url ;;
  let path := lower parsed_path in
  Ok (default (u ".pdf") (find (λ ext, ends_with ext path) extensions)).

Definition is_archive_file (url : str) : res bool :=
  parsed_path <- urlparse_path url ;;
  let path := lower parsed_path in
  Ok (existsb (λ ext, ends_with ext path) archive_extensions).

(** The name [main] saves a document under:
    [clean_filename(f"{doc_id}{file_extension}")]. *)
Definition filename (doc_id url : str) : res str :=
  file_extension <- get_file_extension url ;;
  Ok (clean_filename (doc_id ++ file_extension)).

End Download.

(** ** [download_document] and [main] of download_pdfs.py *)

(** The directory [downloaded_documents]: its files by name, with their
    sizes. *)
Abbreviation files := (gmap str nat).

(** The exceptions [download_document] tells apart. *)
Inductive failure :=
| Timeout
| ConnectionError
| HTTPError (code : nat)
| Unexpected (e : str).

(** What one call of [download_document] meets: the request, the status
    check or the opening of the file raises, and nothing is written; the
    body arrives and is written in full; or the transfer or a write raises
    after part of the body has been written. *)
Inductive fetched :=
| Refused (why : failure)
| Delivered (size : nat)
| Interrupted (written : nat) (why : failure).

(** The call got as far as opening the file: there is a file afterwards,
    whole, empty or in part. *)
Definition wrote (answer : fetched) : Prop :=
  match answer with
  | Refused _ => False
  | Delivered _ | Interrupted _ _ => True
  end.

Definition failure_message (why : failure) : str :=
  match why with
  | Timeout => u "Timeout"
  | ConnectionError => u "Connection error"
  | HTTPError code => u "HTTP error: " ++ dec code
  | Unexpected e => u "Unexpected error: " ++ e
  end.

(** [f"{n:,}"]: the digits from the right, a comma after every third one
    that is followed by another. *)
Fixpoint commas (k : nat) (digits_from_right : str) : str :=
  match digits_from_right with
  | [] => []
  | c :: rest =>
      match k, rest with
      | 2, _ :: _ => c :: 44%N :: commas 0 rest
      | _, _ => c :: commas (S k) rest
      end
  end.

Definition thousands (n : nat) : str := reverse (commas 0 (reverse (dec n))).

Definition file_is_empty : str := u "Failed: File is empty".

(** [download_document(url, filepath, session)] where [filepath] is
    [download_dir / filename]: the pair it returns and the directory it
    leaves. *)
Definition download_document (answer : fetched) (filename : str) (fs : files) :
    bool * str * files :=
  match answer with
  | Refused why => (false, failure_message why, fs)
  | Delivered size =>
      let fs := <[filename := size]> fs in
      if decide (0 < size)
      then (true, u "Success: " ++ thousands size ++ u " bytes", fs)
      else (false, file_is_empty, fs)
  | Interrupted written why => (false, failure_message why, <[filename := written]> fs)
  end.

Inductive status := Success | Failed | Skipped.

#[global] Instance status_eq_dec : EqDecision status.
Proof. solve_decision. Defined.

(** An entry of [download_results]: the row it is about, which gives the
    columns [Document_ID], [Sector], [Project_Name], [Type] and [URL], and
    the columns the loop computes. *)
Record download_result := mkresult {
  of_row : orow; Filename : str; Status : status; Message : str; Size : nat }.

Definition allowed_types : list str := [analyza_acute; hodnotenie; stanovisko].

(** [df['URL'].notna() & (df['URL'] != '')] *)
Definition has_url (o : orow) : Prop :=
  match URL (doc o) with Str url => url <> [] | NaN => False end.

(** [df_with_urls['Type'].isin(allowed_types)] *)
Definition allowed (o : orow) : Prop :=
  match Type_ (doc o) with Str t => t ∈ allowed_types | NaN => False end.

#[global] Instance has_url_dec o : Decision (has_url o).
Proof. unfold has_url. destruct (URL (doc o)); apply _. Defined.

#[global] Instance allowed_dec o : Decision (allowed o).
Proof. unfold allowed. destruct (Type_ (doc o)); apply _. Defined.

Definition url_of (o : orow) : str :=
  match URL (doc o) with Str url => url | NaN => [] end.

Definition archive_message : str := u "Skipped: Archive file (.zip, .rar, etc.)".

Section DownloadMain.
Variable lower : str -> str.
Variable urlparse_path : str -> res str.

(** [os.path.getsize(download_dir)] *)
Variable dir_size : nat.

(** What the request for the i-th selected row meets, if one is made. *)
Variable answer : nat -> fetched.

(** [filepath.exists()] and [os.path.getsize(filepath)] for
    [download_dir / filename]; the empty name is the directory itself. *)
Definition path_exists (fs : files) (filename : str) : bool :=
  bool_decide (filename = []) || bool_decide (is_Some (fs !! filename)).

Definition getsize (fs : files) (filename : str) : nat :=
  if decide (filename = []) then dir_size else default 0 (fs !! filename).

(** What a row asks for, apart from the state of the directory: whether
    it is an archive, and the name of its file. *)
Definition target (row : orow) : res (bool * str) :=
  archive <- is_archive_file lower urlparse_path (url_of row) ;;
  if archive then
    file_extension <- get_file_extension lower urlparse_path (url_of row) ;;
    Ok (true, Document_ID row ++ file_extension)
  else
    filename <- filename lower urlparse_path (Document_ID row) (url_of row) ;;
    Ok (false, filename).

(** What a run has done with the row of the entry [r], between the
    directory [fs] it found and the directory [fs'] it left. *)
Definition served (fs fs' : files) (r : download_result) : Prop :=
  exists archive,
    target (of_row r) = Ok (archive, Filename r) /\
    (archive = true -> Status r = Failed /\ Message r = archive_message) /\
    (archive = false -> path_exists fs (Filename r) = true -> Status r = Skipped) /\
    (archive = false -> Status r <> Failed \/ Message r = file_is_empty ->
       path_exists fs' (Filename r) = true).

(** One turn of [for idx, row in df_filtered.iterrows()]. The rows are
    those of the table with identifiers; [Document_ID row] stands for the
    text that [f"{doc_id}"] makes of the cell. *)
Definition download_row (acc : list download_result * files) (ir : nat * orow) :
    res (list download_result * files) :=
  let '(download_results, fs) := acc in
  let '(i, row) := ir in
  let doc_id := Document_ID row in
  let url := url_of row in
  archive <- is_archive_file lower urlparse_path url ;;
  if archive then
    file_extension <- get_file_extension lower urlparse_path url ;;
    Ok (download_results ++
          [mkresult row (doc_id ++ file_extension) Failed archive_message 0], fs)
  else
    filename <- filename lower urlparse_path doc_id url ;;
    if path_exists fs filename then
      Ok (download_results ++
            [mkresult row filename Skipped (u "File already exists") (getsize fs filename)],
          fs)
    else
      let '(success, message, fs) := download_document (answer i) filename fs in
      let file_size :=
        if success && path_exists fs filename then getsize fs filename else 0 in
      Ok (download_results ++
            [mkresult row filename (if success then Success else Failed) message file_size],
          fs).

Fixpoint download_rows (acc : list download_result * files) (rows : list (nat * orow)) :
    res (list download_result * files) :=
  match rows with
  | [] => Ok acc
  | ir :: rest =>
      acc <- download_row acc ir ;;
      download_rows acc rest
  end.

(** The rows [main] selects. *)
Definition df_filtered (df : list orow) : list orow :=
  filter allowed (filter has_url df).

(** [main], from the frame it has read to [download_results] and the
    directory it leaves; [None] when it returns before the downloads
    because no row is selected. *)
Definition download_main (fs : files) (df : list orow) :
    res (option (list download_result) * files) :=
  if decide (length (df_filtered df) = 0) then Ok (None, fs)
  else
    acc <- download_rows ([], fs) (imap pair (df_filtered df)) ;;
    Ok (Some acc.1, acc.2).

End DownloadMain.

(** ** [main] of complete_mfsr_scraper.py *)

Definition SECTOR_URLS : list (str * str) :=
  [ (u "Obrana", u "https://www.mfsr.sk/sk/financie/hodnota-za-peniaze/hodnotenia/obrana.html");
    (u "Budovy", u "https://www.mfsr.sk/sk/financie/hodnota-za-peniaze/hodnotenia/budovy.html");
    (u "Doprava", u "https://www.mfsr.sk/sk/financie/hodnota-za-peniaze/hodnotenia/doprava.html");
    (u "Informatizacia",
     u "https://www.mfsr.sk/sk/financie/hodnota-za-peniaze/hodnotenia/informatizacia.html");
    (u "Ostatne", u "https://www.mfsr.sk/sk/financie/hodnota-za-peniaze/hodnotenia/ostatne.html") ].

Section Main.
Variable lower : str -> str.
Variable urljoin : str -> str -> res str.
Variable is_digit : N -> bool.
Variable is_space : N -> bool.
Variable is_word : N -> bool.

(** [session.get(page_url, timeout=20)]: what the site answers for each of
    the pages, each of which is requested once. *)
Variable session_get : str -> res response.

(** [for sector_name, page_url in SECTOR_URLS.items():
       all_rows.extend(scrape_sector_page(sector_name, page_url, session))] *)
Definition extend_all_rows (sectors : list (str * str)) (all_rows : list document) :
    list document :=
  foldl (λ all_rows entry,
           all_rows ++ scrape_sector_page lower urljoin is_digit is_space is_word
                         entry.1 (session_get entry.2))
        all_rows sectors.

(** The rows [main] builds its frame from. *)
Definition all_rows : list document := extend_all_rows SECTOR_URLS [].

End Main.

(** ** [main] of create_unique_ids.py *)

(** [len(df_with_ids[df_with_ids['Document_ID'] == ''])], printed as
    "Documents without IDs". *)
Definition missing_ids (df_with_ids : list orow) : nat :=
  length (filter (λ o, Document_ID o = []) df_with_ids).

(** Python's order on [str]: by code point, a proper prefix first. *)
Fixpoint str_lt (a b : str) : bool :=
  match a, b with
  | _, [] => false
  | [], _ :: _ => true
  | x :: a', y :: b' => (x <? y)%N || ((x =? y)%N && str_lt a' b')
  end.

(** [Series.min()] and [Series.max()] of a column of strings. *)
Definition series_min (values : list str) : option str :=
  match values with
  | [] => None
  | x :: rest => Some (foldl (λ m y, if str_lt y m then y else m) x rest)
  end.

Definition series_max (values : list str) : option str :=
  match values with
  | [] => None
  | x :: rest => Some (foldl (λ m y, if str_lt m y then y else m) x rest)
  end.

(** The line [main] prints for one sector under "ID ranges by sector":
    [f"{sector}: {sector_data.min()} to {sector_data.max()}
    ({len(sector_data)} documents)"], and nothing when [sector_data] is
    empty. *)
Definition id_range_line (df_with_ids : list orow) (sector : str) : option str :=
  let sector_data :=
    Document_ID <$> filter (λ o, Sector (doc o) = Str sector) df_with_ids in
  lo ← series_min sector_data;
  hi ← series_max sector_data;
  Some (sector ++ u ": " ++ lo ++ u " to " ++ hi ++ u " (" ++
        dec (length sector_data) ++ u " documents)").


(** ** One sector's pass, told by index labels

    The pass over a sector reads the working copy only through the labels
    and parsed dates of that sector's rows, and writes only identifiers.
    The definitions below restate it on those: they are what the proofs
    reason about, and are shown equal to the pass above. *)

(** Labels with their parsed date. *)
Abbreviation view := (list (nat * option datetime)).

Definition frame_view (f : frame) : view :=
  (λ lr, (lr.1, w_Date_parsed lr.2)) <$> f.

(** Everything of a working copy but the identifiers, and the identifiers. *)
Definition core (f : frame) : list (nat * row * option datetime) :=
  (λ lr, (lr.1, w_doc lr.2, w_Date_parsed lr.2)) <$> f.

Definition ids (f : frame) : list str := (λ lr, w_Document_ID lr.2) <$> f.

Definition sector_view (sector : str) (cr : list (nat * row * option datetime)) : view :=
  (λ x, (x.1.1, x.2)) <$> filter (λ x, Sector x.1.2 = Str sector) cr.

Definition dated (x : nat * option datetime) : Prop := is_Some x.2.
Definition undated (x : nat * option datetime) : Prop := x.2 = None.

#[global] Instance dated_dec x : Decision (dated x).
Proof. unfold dated. apply _. Defined.
#[global] Instance undated_dec x : Decision (undated x).
Proof. unfold undated. apply _. Defined.

(** Labels of [date_documents], in sorted order, and of
    [no_date_documents]. *)
Definition dated_labels (argsort : list datetime -> list nat) (v : view) : list nat :=
  take_rows (filter dated v).*1 (argsort (omap snd v)).

Definition undated_labels (v : view) : list nat := (filter undated v).*1.

(** Identifiers [i], [i+1], ... of sector [c] written at the given labels. *)
Fixpoint assign_from (c i : nat) (labels : list nat) (l : list str) : list str :=
  match labels with
  | [] => l
  | idx :: rest => assign_from c (S i) rest (<[idx := doc_id_of c i]> l)
  end.

Fixpoint lines_from (what : str) (c i : nat) (labels : list nat) : list str :=
  match labels with
  | [] => []
  | idx :: rest =>
      (u "    Assigned " ++ doc_id_of c i ++ what ++ dec idx)
        :: lines_from what c (S i) rest
  end.

Definition sector_lines (sector : str) (c n : nat) (dl sh : list nat) : list str :=
  (u "Processing sector: " ++ sector ++ u " (SectorID: " ++ dec c ++ u ")") ::
  if decide (n = 0) then [u "  No documents found for " ++ sector]
  else (u "  Found " ++ dec n ++ u " documents for " ++ sector) ::
       lines_from (u " to document with date at index ") c 1 dl ++
       lines_from (u " to document without date at index ") c (S (length dl)) sh.

Definition sector_pass (argsort : list datetime -> list nat) (v : view)
    (a : list str * list str * rng) (entry : str * nat) : list str * list str * rng :=
  let '(l, out, g) := a in
  let '(sector, c) := entry in
  let dl := dated_labels argsort v in
  let '(sh, g') := shuffle (undated_labels v) g in
  (assign_from c 1 (dl ++ sh) l, out ++ sector_lines sector c (length v) dl sh, g').

(** The rows of one sector of the input, by position. *)
Definition input_view (parse : cell -> option datetime) (sector : str) (df : list row) : view :=
  sector_view sector (imap (λ i r, (i, r, parse (Date r))) df).

(** The whole loop over [sector_mapping], from empty identifiers. *)
Definition account (argsort : list datetime -> list nat) (vs : str -> view)
    (n : nat) (g : rng) : list str * list str * rng :=
  foldl (λ a e, sector_pass argsort (vs e.1) a e) (replicate n [], [], g) sector_mapping.

(** A working copy whose labels are its positions. *)
Definition ranged (f : frame) : Prop := f.*1 = seq 0 (length f).

(** The identifiers [k+1] of sector [c] sit at the labels of [order]. *)
Definition numbered (c : nat) (order : list nat) (l : list str) : Prop :=
  forall k p, order !! k = Some p -> l !! p = Some (doc_id_of c (S k)).

(** The dated entries of a view with their dates. *)
Definition dated_pairs (v : view) : list (nat * datetime) :=
  omap (λ x, pair x.1 <$> x.2) v.

(** Rows of a sector with and without a parsed date. *)
Definition dated_in (parse : cell -> option datetime) (sector : str) (r : row) : Prop :=
  Sector r = Str sector /\ is_Some (parse (Date r)).

Definition undated_in (parse : cell -> option datetime) (sector : str) (r : row) : Prop :=
  Sector r = Str sector /\ parse (Date r) = None.

#[global] Instance dated_in_dec parse sector r : Decision (dated_in parse sector r).
Proof. unfold dated_in. apply _. Defined.
#[global] Instance undated_in_dec parse sector r : Decision (undated_in parse sector r).
Proof. unfold undated_in. apply _. Defined.

(** ** Contracts of the sort *)

(** What [argsort] promises whatever its [kind]: a permutation of the
    positions that lists the keys in ascending order. *)
Definition sorts (argsort : list datetime -> list nat) : Prop :=
  forall ks, argsort ks ≡ₚ seq 0 (length ks) /\
             Sorted date_le (take_rows ks (argsort ks)).

(** What only a stable [kind] promises: equal keys keep their order. *)
Definition stable (argsort : list datetime -> list nat) : Prop :=
  forall ks i j p q,
    i < j -> argsort ks !! i = Some p -> argsort ks !! j = Some q ->
    ks !! p = ks !! q -> p < q.

(** What numpy's quicksort does keep: on at most [n] keys the positions come
    out each once, those of equal keys in ascending order. *)
Definition keeps_ties_upto (n : nat) (argsort : list datetime -> list nat) : Prop :=
  forall ks, length ks <= n ->
    argsort ks ≡ₚ seq 0 (length ks) /\
    forall i j p q,
      i < j -> argsort ks !! i = Some p -> argsort ks !! j = Some q ->
      ks !! p = ks !! q -> p < q.

(** Keys ascending, equal keys by ascending position. *)
Definition key_pos_lt (x y : nat * datetime) : Prop :=
  date_lt x.2 y.2 \/ (x.2 = y.2 /\ x.1 < y.1).

(** ** Vocabulary of the statements about [create_unique_ids] *)

(** The identifier of the returned row at position [p]. *)
Definition id_at (o : outcome) (p : nat) : option str :=
  Document_ID <$> (returned o !! p).

(** A row whose category has no entry in [sector_mapping]. *)
Definition unmapped (r : row) : Prop :=
  forall s c, (s, c) ∈ sector_mapping -> Sector r <> Str s.

(** Two inputs that differ at most in rows of unmapped categories. *)
Definition same_mapped_rows (df df' : list row) : Prop :=
  Forall2 (λ r r', r = r' \/ (unmapped r /\ unmapped r')) df df'.

(** Some printed line names the category together with the count. *)
Definition reports (out : list str) (category : str) (count : nat) : Prop :=
  exists line, line ∈ out /\ contains category line = true /\
               contains (dec count) line = true.

(** Unknown categories are reported: the reading of the specification. *)
Definition unknown_category_reported
    (strptime : str -> option datetime) (argsort : list datetime -> list nat) : Prop :=
  forall g df p r category,
    df !! p = Some r -> Sector r = Str category -> unmapped r ->
    reports (printed (create_unique_ids strptime argsort g df)) category
      (length (filter (λ r', Sector r' = Str category) df)).

(** The identifiers are a function of the arguments of the call alone,
    whatever the state of the generator. *)
Definition ids_fixed_by_arguments
    (strptime : str -> option datetime) (argsort : list datetime -> list nat) : Prop :=
  forall df g g',
    Document_ID <$> returned (create_unique_ids strptime argsort g df) =
    Document_ID <$> returned (create_unique_ids strptime argsort g' df).



(** ** Vocabulary of the statements about the scrapers *)

(** The keyword list of the specification: keywords with their labels, in
    the order of the chain of complete_mfsr_scraper.py. *)
Definition keyword_list : list (str * str) :=
  [ (hodnotenie, hodnotenie); (analyza_acute, analyza_acute); (analyza, analyza_acute);
    (studia_uskutocnitelnosti, studia_uskutocnitelnosti);
    (aktualizacia, aktualizacia); (stanovisko, stanovisko); (sprava, sprava);
    (metodika, metodika); (zmluva, zmluva); (dohoda, dohoda);
    (investicny_zamer, investicny_zamer) ].

(** The list of fixed_mfsr_scraper.py. *)
Definition keyword_list_fixed : list (str * str) :=
  [ (hodnotenie, hodnotenie); (analyza_acute, analyza_acute); (analyza, analyza_acute);
    (studia_uskutocnitelnosti, studia_uskutocnitelnosti);
    (aktualizacia, aktualizacia); (stanovisko, stanovisko); (sprava, sprava);
    (metodika, metodika); (zmluva, zmluva); (dohoda, dohoda) ].

(** The label of the first keyword of the list that occurs in the text,
    or the fallback when none does. *)
Definition first_keyword_label (keywords : list (str * str)) (text fallback : str) : str :=
  match find (λ kl, contains kl.1 text) keywords with
  | Some kl => kl.2
  | None => fallback
  end.

(** The deduplication key of an emitted record. *)
Definition key_of (d : document) : str * str * str := (d_sector d, d_project d, d_url d).

(** What the walk maintains: the keys of the records are distinct and all
    of them are in [seen]. *)
Definition walk_inv (w : walk) : Prop :=
  NoDup (key_of <$> rows w) /\ forall d, d ∈ rows w -> key_of d ∈ seen w.

(** The size texts the pattern of the scrapers is written for: a number,
    possibly a separator and a second number, white space, and one of the
    spellings of [units]. *)
Section SizeToken.
Variable is_digit : N -> bool.
Variable is_space : N -> bool.
Variable is_word : N -> bool.

Definition number (ds : str) : Prop :=
  ds <> [] /\ Forall (λ c, is_digit c = true) ds.

Definition fraction (frac : str) : Prop :=
  frac = [] \/
  exists sep ds, frac = sep :: ds /\ separator sep = true /\ number ds.

Definition size_token_with (unit_ok : str -> Prop) (m : str) : Prop :=
  exists int frac ws unit,
    m = int ++ frac ++ ws ++ unit /\ number int /\ fraction frac /\
    Forall (λ c, is_space c = true) ws /\ unit_ok unit.

Definition size_token : str -> Prop := size_token_with (λ unit, unit ∈ units).

(** [m] stands in [text] after [pre] and before [post], with a word
    boundary at either end. *)
Definition occurs_with (token : str -> Prop) (text pre m post : str) : Prop :=
  text = pre ++ m ++ post /\ token m /\
  at_boundary is_word (last pre) (m ++ post) = true /\
  at_boundary is_word (last m) post = true.

Definition size_occurs : str -> str -> str -> str -> Prop := occurs_with size_token.

(** The reading of the specification: the unit is B, kB, MB or GB in any
    capitalisation. *)
Definition unit_any_case (unit : str) : Prop :=
  exists named, named ∈ [u "B"; u "kB"; u "MB"; u "GB"] /\
    (λ c, if ((65 <=? c) && (c <=? 90))%N then (c + 32)%N else c) <$> unit =
    (λ c, if ((65 <=? c) && (c <=? 90))%N then (c + 32)%N else c) <$> named.

Definition size_token_any_case : str -> Prop := size_token_with unit_any_case.

Definition recognises_any_capitalisation : Prop :=
  forall text pre m post,
    occurs_with size_token_any_case text pre m post ->
    is_Some (search is_word (size_re is_digit is_space) text).

End SizeToken.

(** ** Inputs to evaluate the assigner on *)

(** A row of the scraped table with the given category and date text. *)
Definition a_row (sector date : string) : row :=
  mkrow (Str (u sector)) (Str (u "Bridge Project")) (Str (u "hodnotenie"))
        (Str (u "https://www.mfsr.sk/a.pdf"))
        (if decide (date = ""%string) then NaN else Str (u date)) NaN.

(** The scenario of the specification: two records of category Doprava,
    dated 01.01.2020 and 15.06.2019. *)
Definition two_dates : list row :=
  [a_row "Doprava" "01.01.2020"; a_row "Doprava" "15.06.2019"].


(** ** Library behaviours to evaluate the scrapers with

    ASCII tables for the character classes and for [str.lower], and a
    [urljoin] for absolute paths. On ASCII text they are what Python
    computes. *)
Definition ascii_digit (c : N) : bool := ((48 <=? c) && (c <=? 57))%N.

Definition ascii_space (c : N) : bool :=
  (((9 <=? c) && (c <=? 13)) || ((28 <=? c) && (c <=? 32)))%N.

Definition ascii_word (c : N) : bool :=
  (ascii_digit c || ((65 <=? c) && (c <=? 90)) || ((97 <=? c) && (c <=? 122)) ||
   (c =? 95))%N.

Definition lower_ascii (s : str) : str :=
  (λ c, if ((65 <=? c) && (c <=? 90))%N then (c + 32)%N else c) <$> s.

Definition urljoin_path (base href : str) : res str := Ok (base ++ href).

(** A link to a document, with the text of its parent and its siblings. *)
Definition a_link (text target : string) (parent_text : string)
    (before after : list sibling) : element :=
  mkelement a_tag (Ok (u text)) (Some (u target)) (Some (Ok (u parent_text)))
            before after.

Definition a_heading (text : string) : element :=
  mkelement h5 (Ok (u text)) None (Some (Ok (u text))) [] [].

(** A page of two document links under one project heading; in the first
    version the node before the second link fails to give its text. *)
Definition page_with_failing_sibling : res response :=
  Ok (mkresponse 200
        [ a_heading "Bridge Project";
          a_link "hodnotenie 2023" "/a.pdf" "hodnotenie 2023 (PDF, 2 MB)" [] [];
          a_link "stanovisko" "/b.pdf" "stanovisko" [SibNode Raise] [] ]).

Definition page_all_readable : res response :=
  Ok (mkresponse 200
        [ a_heading "Bridge Project";
          a_link "hodnotenie 2023" "/a.pdf" "hodnotenie 2023 (PDF, 2 MB)" [] [];
          a_link "stanovisko" "/b.pdf" "stanovisko" [SibText []] [] ]).

(** A page that links the same document twice under one heading. *)
Definition page_with_repeated_link : res response :=
  Ok (mkresponse 200
        [ a_heading "Bridge Project";
          a_link "hodnotenie 2023" "/a.pdf" "hodnotenie 2023" [] [];
          a_link "stiahnut" "/a.pdf" "stiahnut" [] [] ]).
(** ** Vocabulary of the further statements *)

(** A row whose category has an entry in [sector_mapping]. *)
Definition mapped (r : row) : Prop :=
  Exists (λ e, Sector r = Str e.1) sector_mapping.

(** The calls of [randbelow] one run makes: a shuffle of [k] labels makes
    [k - 1] of them. *)
Definition draws (parse : cell -> option datetime) (df : list row) : nat :=
  sum_list ((λ e, length (filter (undated_in parse e.1) df) - 1) <$> sector_mapping).

(** The date texts the pattern of the scrapers is written for: one or two
    digits, a dot, one or two digits, a dot, four digits. *)
Section DateToken.
Variable is_digit : N -> bool.
Variable is_word : N -> bool.

Definition digits_between (lo hi : nat) (ds : str) : Prop :=
  lo <= length ds <= hi /\ Forall (λ c, is_digit c = true) ds.

Definition date_token (m : str) : Prop :=
  exists d mo y,
    m = d ++ dot ++ mo ++ dot ++ y /\
    digits_between 1 2 d /\ digits_between 1 2 mo /\ digits_between 4 4 y.

Definition date_occurs : str -> str -> str -> str -> Prop :=
  occurs_with is_word date_token.

End DateToken.

#[global] Instance tag_eq_dec : EqDecision tag.
Proof. solve_decision. Defined.

(** The project a link stands under: the text of the last [h5] among the
    elements before it, [UNKNOWN_PROJECT] when there is none. *)
Definition heading_text (elem : element) : option str :=
  match name elem, get_text elem with
  | h5, Ok t => Some t
  | _, _ => None
  end.

Definition project_at (before : list element) : str :=
  default (u "UNKNOWN_PROJECT") (last (omap heading_text before)).

Section Records.
Variable lower : str -> str.
Variable urljoin : str -> str -> res str.
Variable is_digit : N -> bool.
Variable is_space : N -> bool.
Variable is_word : N -> bool.

(** [elem], found after the elements [before], is a document link whose
    reads all succeed. *)
Definition document_link (before : list element) (elem : element)
    (link_text target parent_text url : str) (ds : option str * option str) : Prop :=
  name elem = a_tag /\ get_text elem = Ok link_text /\
  href elem = Some target /\ target <> [] /\
  is_pdf_link lower (href elem) link_text = true /\
  match parent elem with Some p => p | None => Ok [] end = Ok parent_text /\
  urljoin BASE target = Ok url /\
  extract_date_and_size is_digit is_space is_word elem = Ok ds.

(** The record [d] is the one the walk builds for a document link of
    [elems]. *)
Definition stems_from (sector_name : str) (elems : list element) (d : document) : Prop :=
  exists before elem after link_text target parent_text url ds,
    elems = before ++ elem :: after /\
    document_link before elem link_text target parent_text url ds /\
    d = mkdocument sector_name (project_at before)
          (determine_document_type lower link_text parent_text) url
          (or_empty ds.1) (or_empty ds.2).


(** What the walk has done after the elements [visited]. *)
Definition walked (sector_name : str) (visited : list element) (w : walk) : Prop :=
  last_project_name w = project_at visited /\
  Forall (stems_from sector_name visited) (rows w) /\
  (forall k, k ∈ seen w <-> k ∈ key_of <$> rows w) /\
  (forall before elem after link_text target parent_text url ds,
     visited = before ++ elem :: after ->
     document_link before elem link_text target parent_text url ds ->
     (sector_name, project_at before, url) ∈ seen w).

End Records.

(** A decimal digit, by code point. *)
Definition digit_char (c : N) : Prop := (48 <= c <= 57)%N.

(** A text that [clean_filename] leaves as it is in front of an extension:
    not empty, none of the nine characters that are replaced, no dot or
    space in front: for instance 1.01 or nan, the texts that [f"{doc_id}"]
    gives for a cell read as a number, and the identifiers as
    [create_unique_ids] writes them. *)
Definition plain (doc_id : str) : Prop :=
  doc_id <> [] /\ Forall (λ c, c ∉ invalid_chars) doc_id /\
  forall c, head doc_id = Some c -> c ∉ u ". ".

(** Two inputs that differ at most in rows outside the sector [s]. *)
Definition same_sector_rows (s : str) (df df' : list row) : Prop :=
  Forall2 (λ r r', r = r' \/ (Sector r <> Str s /\ Sector r' <> Str s)) df df'.

Section Reads.
Variable lower : str -> str.
Variable urljoin : str -> str -> res str.
Variable is_digit : N -> bool.
Variable is_space : N -> bool.
Variable is_word : N -> bool.

(** A link the walk takes for a document. *)
Definition is_document_link (elem : element) : Prop :=
  name elem = a_tag /\
  exists link_text, get_text elem = Ok link_text /\
                    is_pdf_link lower (href elem) link_text = true.

(** One of the reads the walk makes at [elem] raises: the text of an [h5]
    or of an [a]; for a document link also the text of its parent, the
    joining of its URL, or the search around it. *)
Definition fails (elem : element) : Prop :=
  match name elem with
  | h4 => False
  | h5 => get_text elem = Raise
  | a_tag =>
      get_text elem = Raise \/
      (is_document_link elem /\
       (match parent elem with Some p => p | None => Ok [] end = Raise \/
        urljoin BASE (default [] (href elem)) = Raise \/
        extract_date_and_size is_digit is_space is_word elem = Raise))
  end.

End Reads.

Section RecordsInOrder.
Variable lower : str -> str.
Variable urljoin : str -> str -> res str.
Variable is_digit : N -> bool.
Variable is_space : N -> bool.
Variable is_word : N -> bool.

(** The record [d] is the one the walk builds for the document link at
    position [p] of [elems]. *)
Definition built_at (sector_name : str) (elems : list element) (p : nat) (d : document) :
    Prop :=
  exists elem link_text target parent_text url ds,
    elems !! p = Some elem /\
    document_link lower urljoin is_digit is_space is_word
      (take p elems) elem link_text target parent_text url ds /\
    d = mkdocument sector_name (project_at (take p elems))
          (determine_document_type lower link_text parent_text) url
          (or_empty ds.1) (or_empty ds.2).

(** The records stand in the order of their links. *)
Definition in_page_order (sector_name : str) (elems : list element) (rows : list document) :
    Prop :=
  exists positions,
    Forall2 (λ d p, built_at sector_name elems p d) rows positions /\
    StronglySorted lt positions /\
    Forall (λ p, p < length elems) positions.

End RecordsInOrder.

(** The line the loop prints when it gives [doc_id] to the row at [idx]. *)
Definition assigned_line (doc_id : str) (with_date : bool) (idx : nat) : str :=
  u "    Assigned " ++ doc_id ++
  (if with_date then u " to document with date at index "
   else u " to document without date at index ") ++ dec idx.

(** ** Further library behaviours and inputs to evaluate with *)

(** [urlparse(url).path] for a URL of the site without query or fragment. *)
Definition urlparse_after_host (url : str) : res str :=
  Ok (drop (length BASE) url).

(** A site where only the page of Doprava answers. *)
Definition only_doprava_answers (page_url : str) : res response :=
  if contains (u "doprava") page_url then page_all_readable else Raise.

(** Two selected rows of the table with identifiers. *)
Definition two_documents : list orow :=
  [ mkorow (a_row "Doprava" "01.01.2020") (doc_id_of 1 1);
    mkorow (a_row "Doprava" "") (doc_id_of 1 2) ].

(** A site that sends an empty body for the first request of a run and
    does not answer the others in time. *)
Definition empty_then_silent (i : nat) : fetched :=
  if decide (i = 0) then Delivered 0 else Refused Timeout.

(** The directory before the first run. *)
Definition no_files : files := ∅.

(** What the first run over [two_documents] records, and the directory it
    leaves: the empty file of the first document. *)
Definition first_run : list download_result :=
  [ mkresult (mkorow (a_row "Doprava" "01.01.2020") (doc_id_of 1 1))
      (u "1.001.pdf") Failed file_is_empty 0;
    mkresult (mkorow (a_row "Doprava" "") (doc_id_of 1 2))
      (u "1.002.pdf") Failed (u "Timeout") 0 ].

Definition after_first_run : files := <[u "1.001.pdf" := 0]> no_files.

(** A site that breaks off the first transfer of a run after five bytes
    and does not answer the other requests in time; what the first run
    over [two_documents] then records, and the directory it leaves: the
    partial file of the first document. *)
Definition cut_then_silent (i : nat) : fetched :=
  if decide (i = 0) then Interrupted 5 ConnectionError else Refused Timeout.

Definition first_run_cut : list download_result :=
  [ mkresult (mkorow (a_row "Doprava" "01.01.2020") (doc_id_of 1 1))
      (u "1.001.pdf") Failed (u "Connection error") 0;
    mkresult (mkorow (a_row "Doprava" "") (doc_id_of 1 2))
      (u "1.002.pdf") Failed (u "Timeout") 0 ].

Definition after_first_run_cut : files := <[u "1.001.pdf" := 5]> no_files.
(** * Properties *)

(** ** Decimal formatting *)

Lemma unu_u s : unu (u s) = s.
Proof.
  unfold unu, u. rewrite map_map.
  rewrite (map_ext _ id); [|intros a; apply ascii_N_embedding].
  rewrite map_id. apply string_of_list_ascii_of_string.
Qed.

Lemma u_inj s t : u s = u t -> s = t.
Proof. intros H. rewrite <- (unu_u s), <- (unu_u t). by rewrite H. Qed.

Lemma unu_app s t : unu (s ++ t) = (unu s ++ unu t)%string.
Proof.
  unfold unu. rewrite map_app.
  induction (map ascii_of_N s) as [|a l IH]; simpl; [done|]. by rewrite IH.
Qed.

Lemma read_dec_dec n : read_dec (dec n) = Some n.
Proof.
  unfold read_dec, dec. rewrite unu_u, NilEmpty.usu. simpl.
  f_equal. apply DecimalNat.Unsigned.of_to.
Qed.

Lemma dec_inj n m : dec n = dec m -> n = m.
Proof.
  intros H. apply (f_equal read_dec) in H.
  rewrite !read_dec_dec in H. congruence.
Qed.

Lemma read_dec_zero s n : read_dec s = Some n -> read_dec (zero :: s) = Some n.
Proof.
  unfold read_dec.
  change (unu (zero :: s)) with (String "0"%char (unu s)).
  generalize (unu s). intros x.
  cbn [NilEmpty.uint_of_string].
  destruct (NilEmpty.uint_of_string x) as [d|]; [|done].
  simpl. by intros [= <-].
Qed.

Lemma read_dec_fmt_03d n : read_dec (fmt_03d n) = Some n.
Proof.
  unfold fmt_03d. generalize (3 - length (dec n)). intros k.
  induction k as [|k IH]; simpl.
  - apply read_dec_dec.
  - by apply read_dec_zero.
Qed.

Lemma fmt_03d_inj n m : fmt_03d n = fmt_03d m -> n = m.
Proof.
  intros H. apply (f_equal read_dec) in H.
  rewrite !read_dec_fmt_03d in H. congruence.
Qed.

Lemma length_fmt_03d n : length (fmt_03d n) = 3 `max` length (dec n).
Proof. unfold fmt_03d. rewrite length_app, length_replicate. lia. Qed.

Lemma doc_id_of_inj c c' i i' :
  1 <= c <= 5 -> 1 <= c' <= 5 ->
  doc_id_of c i = doc_id_of c' i' -> c = c' /\ i = i'.
Proof.
  intros Hc Hc' H.
  assert (Hcs : c = 1 \/ c = 2 \/ c = 3 \/ c = 4 \/ c = 5) by lia.
  assert (Hcs' : c' = 1 \/ c' = 2 \/ c' = 3 \/ c' = 4 \/ c' = 5) by lia.
  unfold doc_id_of in H.
  destruct Hcs as [->|[->|[->|[->| ->]]]];
    destruct Hcs' as [->|[->|[->|[->| ->]]]];
    match type of H with
    | dec ?a ++ _ = dec ?b ++ _ =>
        let va := eval vm_compute in (dec a) in
        let vb := eval vm_compute in (dec b) in
        change (dec a) with va in H; change (dec b) with vb in H
    end;
    simpl in H; try discriminate H.
  all: split; [done|]; apply fmt_03d_inj.
  all: injection H as H; exact H.
Qed.

Lemma doc_id_of_nonempty c i : doc_id_of c i <> [].
Proof.
  unfold doc_id_of, dot. intros H.
  apply (f_equal length) in H. rewrite !length_app in H. simpl in H. lia.
Qed.

(** ** The shuffle permutes its argument *)

Lemma insert_Permutation {A} (l : list A) i a b :
  l !! i = Some a -> <[i := b]> l ≡ₚ b :: delete i l.
Proof.
  revert i. induction l as [|x l IH]; intros [|i] H; simplify_eq/=; [done|].
  rewrite (IH _ H). apply Permutation_swap.
Qed.

Lemma swap_Permutation {A} (x : list A) i j : swap x i j ≡ₚ x.
Proof.
  unfold swap.
  destruct (x !! i) as [a|] eqn:Hi; [|done].
  destruct (x !! j) as [b|] eqn:Hj; [|done].
  destruct (decide (i = j)) as [->|Hne].
  - simplify_eq. rewrite list_insert_insert_eq. by rewrite list_insert_id.
  - assert (Hy : <[i:=b]> x !! j = Some b) by by rewrite list_lookup_insert_ne.
    rewrite (insert_Permutation _ _ _ a Hy).
    pose proof (delete_Permutation _ _ _ Hy) as H1.
    rewrite (insert_Permutation _ _ _ b Hi) in H1 at 1.
    apply (inj (cons b)) in H1. rewrite <- H1.
    symmetry. by apply delete_Permutation.
Qed.

Lemma length_swap {A} (x : list A) i j : length (swap x i j) = length x.
Proof.
  unfold swap. destruct (x !! i), (x !! j); try done.
  by rewrite !length_insert.
Qed.

Lemma shuffle_from_Permutation {A} i (x : list A) g : (shuffle_from i x g).1 ≡ₚ x.
Proof.
  revert x g. induction i as [|i IH]; intros x g; simpl; [done|].
  destruct (randbelow _ g) as [j g'].  
  rewrite IH. apply swap_Permutation.
Qed.

Lemma shuffle_Permutation {A} (x : list A) g : (shuffle x g).1 ≡ₚ x.
Proof. apply shuffle_from_Permutation. Qed.

Lemma shuffle_nil {A} g : shuffle (@nil A) g = ([], g).
Proof. reflexivity. Qed.

(** ** Chronological order *)

Ltac date_order :=
  repeat match goal with d : datetime |- _ => destruct d end;
  unfold date_le, date_lt in *; simpl in *;
  repeat match goal with
         | H : _ \/ _ |- _ => destruct H
         | H : _ /\ _ |- _ => destruct H
         | H : mkdate _ _ _ = mkdate _ _ _ |- _ => injection H as ? ? ?
         end;
  subst; try lia; auto;
  try (right; f_equal; lia).

#[global] Instance date_le_refl : Reflexive date_le.
Proof. intros a. by right. Qed.

#[global] Instance date_lt_trans : Transitive date_lt.
Proof. intros a b c H1 H2. date_order. Qed.

#[global] Instance date_le_trans : Transitive date_le.
Proof.
  intros a b c [H1| ->] [H2| ->]; try (by left); try (by right).
  left. by etrans.
Qed.

Lemma date_lt_irrefl a : ~ date_lt a a.
Proof. intros H. date_order. Qed.

Lemma date_lt_not_le a b : date_lt a b -> ~ date_le b a.
Proof.
  intros H [H'| ->].
  - apply (date_lt_irrefl a). by etrans.
  - by apply (date_lt_irrefl a).
Qed.

Lemma date_le_or_lt a b : date_le a b \/ date_lt b a.
Proof.
  destruct a as [y m d], b as [y' m' d']. unfold date_le, date_lt. simpl.
  destruct (decide (y = y')) as [->|]; [|lia].
  destruct (decide (m = m')) as [->|]; [|lia].
  destruct (decide (d = d')) as [->|]; [|lia].
  left. by right.
Qed.

(** ** The insertion sorts meet the contracts *)



Section InsertionSort.
Variable before : datetime -> datetime -> bool.
Hypothesis before_true : forall a b, before a b = true -> date_le a b.
Hypothesis before_false : forall a b, before a b = false -> date_le b a.

Let key_le : relation (nat * datetime) := λ x y, date_le x.2 y.2.

Lemma insert_by_Permutation x l : insert_by before x l ≡ₚ x :: l.
Proof.
  induction l as [|y l IH]; simpl; [done|].
  destruct (before x.2 y.2); [done|].
  rewrite IH. apply Permutation_swap.
Qed.

Lemma insert_by_Sorted x l : Sorted key_le l -> Sorted key_le (insert_by before x l).
Proof.
  induction 1 as [|y l Hl IH Hy]; simpl.
  - by repeat constructor.
  - destruct (before x.2 y.2) eqn:Hb.
    + constructor; [by constructor|]. constructor. by apply before_true.
    + constructor; [done|].
      destruct Hy as [|z l Hz]; simpl.
      * constructor. by apply before_false.
      * destruct (before x.2 z.2); constructor; [by apply before_false|done].
Qed.

Lemma isort_Permutation l : foldr (insert_by before) [] l ≡ₚ l.
Proof.
  induction l as [|x l IH]; simpl; [done|].
  by rewrite insert_by_Permutation, IH.
Qed.

Lemma isort_Sorted l : Sorted key_le (foldr (insert_by before) [] l).
Proof. induction l; simpl; [constructor|by apply insert_by_Sorted]. Qed.

Lemma take_rows_keyed (ks : list datetime) (s : list (nat * datetime)) :
  Forall (λ x, ks !! x.1 = Some x.2) s -> take_rows ks s.*1 = s.*2.
Proof.
  induction 1 as [|x s Hx _ IH]; [done|].
  unfold take_rows in *. csimpl. rewrite Hx. csimpl. by rewrite IH.
Qed.

Lemma keyed_imap (ks : list datetime) :
  Forall (λ x, ks !! x.1 = Some x.2) (imap pair ks).
Proof.
  apply Forall_lookup. intros i [p k] H.
  rewrite list_lookup_imap in H.
  destruct (ks !! i) eqn:Hi; by simplify_eq/=.
Qed.

Lemma argsort_by_sorts : sorts (argsort_by before).
Proof.
  intros ks. unfold argsort_by. split.
  - rewrite isort_Permutation, fmap_imap.
    rewrite (imap_ext _ (λ j _, j) ks) by done.
    by rewrite (imap_seq_0 ks (λ j, j)), list_fmap_id.
  - rewrite take_rows_keyed.
    + eapply Sorted_fmap; [|apply isort_Sorted]. by intros x y H.
    + rewrite isort_Permutation. apply keyed_imap.
Qed.
End InsertionSort.

Lemma argsort_stable_sorts : sorts argsort_stable.
Proof.
  apply argsort_by_sorts; intros a b H.
  - by apply bool_decide_eq_true in H.
  - apply bool_decide_eq_false in H.
    destruct (date_le_or_lt b a) as [?|?]; [done|]. destruct H. by left.
Qed.

(** Entries of a strongly sorted list are related in list order. *)
Lemma StronglySorted_lookup {A} (R : relation A) l i j x y :
  StronglySorted R l -> i < j -> l !! i = Some x -> l !! j = Some y -> R x y.
Proof.
  intros Hl. revert i j. induction Hl as [|z l Hl IH Hz]; intros i j Hij Hi Hj.
  - done.
  - destruct j as [|j]; [lia|]. destruct i as [|i]; simplify_eq/=.
    + eapply Forall_lookup_1 in Hz; eauto.
    + eapply (IH i j); eauto with lia.
Qed.


#[global] Instance key_pos_lt_trans : Transitive key_pos_lt.
Proof.
  intros [p a] [q b] [r c]. unfold key_pos_lt. simpl.
  intros [H1|[-> H1]] [H2|[-> H2]]; eauto with lia.
  left. by etrans.
Qed.

Lemma insert_le_key_pos x s :
  StronglySorted key_pos_lt s -> Forall (λ y, x.1 < y.1) s ->
  StronglySorted key_pos_lt (insert_by (λ a b, bool_decide (date_le a b)) x s).
Proof.
  induction 1 as [|y s Hs IH Hy]; intros Hx; simpl.
  - by repeat constructor.
  - apply Forall_cons in Hx as [Hxy Hx].
    case_bool_decide as Hle.
    + constructor; [by constructor|].
      assert (key_pos_lt x y) as Hk.
      { destruct Hle as [?|Heq]; [by left|]. right. by rewrite Heq. }
      constructor; [done|].
      eapply Forall_impl; [exact Hy|]. intros z Hz. by etrans.
    + constructor; [by apply IH|].
      rewrite insert_by_Permutation. constructor; [|done].
      left. destruct (date_le_or_lt x.2 y.2); done.
Qed.

Lemma isort_le_key_pos l :
  StronglySorted (λ x y : nat * datetime, x.1 < y.1) l ->
  StronglySorted key_pos_lt (foldr (insert_by (λ a b, bool_decide (date_le a b))) [] l).
Proof.
  induction 1 as [|x l Hl IH Hx]; simpl; [constructor|].
  apply insert_le_key_pos; [done|].
  by rewrite isort_Permutation.
Qed.

Lemma imap_pair_ascending {A} (ks : list A) :
  StronglySorted (λ x y : nat * A, x.1 < y.1) (imap pair ks).
Proof.
  assert (H : forall a, StronglySorted (λ x y : nat * A, x.1 < y.1)
                          (imap (λ i k, (a + i, k)) ks)).
  { induction ks as [|k ks IH]; intros a; [constructor|].
    rewrite imap_cons. constructor.
    - rewrite (imap_ext _ (λ i k, (S a + i, k))); [apply IH|].
      intros i x _. simpl. f_equal. lia.
    - apply Forall_lookup. intros i [p k'] Hi.
      rewrite list_lookup_imap in Hi.
      destruct (ks !! i); simplify_eq/=. lia. }
  apply (H 0).
Qed.

Lemma argsort_stable_stable : stable argsort_stable.
Proof.
  intros ks i j p q Hij Hi Hj Hk.
  unfold argsort_stable, argsort_by in Hi, Hj.
  set (s := foldr _ _ _) in *.
  assert (Hs : StronglySorted key_pos_lt s)
    by apply isort_le_key_pos, imap_pair_ascending.
  assert (Hkeyed : Forall (λ x, ks !! x.1 = Some x.2) s).
  { unfold s. rewrite isort_Permutation. apply keyed_imap. }
  rewrite list_lookup_fmap in Hi, Hj.
  destruct (s !! i) as [[p' a]|] eqn:Hsi; simplify_eq/=.
  destruct (s !! j) as [[q' b]|] eqn:Hsj; simplify_eq/=.
  pose proof (Forall_lookup_1 _ _ _ _ Hkeyed Hsi) as Ha.
  pose proof (Forall_lookup_1 _ _ _ _ Hkeyed Hsj) as Hb.
  simpl in *. rewrite Ha, Hb in Hk. simplify_eq.
  destruct (StronglySorted_lookup _ _ _ _ _ _ Hs Hij Hsi Hsj) as [H|[_ H]]; [|done].
  by apply date_lt_irrefl in H.
Qed.

(** ** numpy's quicksort on short runs *)

Module npysort_facts.
Import npysort.







End npysort_facts.



(** A sort of kind [stable] keeps ties among any number of keys. *)
Lemma stable_keeps_ties n argsort : sorts argsort -> stable argsort -> keeps_ties_upto n argsort.
Proof.
  intros Hsorts Hstable ks _. split; [apply Hsorts|]. intros i j p q. apply Hstable.
Qed.


(** ** Writes to the working copy *)

Lemma core_loc_set idx v f : core (loc_set_Document_ID idx v f) = core f.
Proof.
  unfold core, loc_set_Document_ID. rewrite <- list_fmap_compose.
  apply list_fmap_ext. intros _ [l r] _. simpl. by case_decide.
Qed.

Lemma labels_core (f : frame) : f.*1 = (core f).*1.*1.
Proof. unfold core. rewrite <- !list_fmap_compose. done. Qed.

Lemma frame_view_core (f : frame) : frame_view f = (λ x, (x.1.1, x.2)) <$> core f.
Proof. unfold frame_view, core. by rewrite <- list_fmap_compose. Qed.

Lemma length_core (f : frame) : length (core f) = length f.
Proof. apply length_fmap. Qed.

Lemma length_ids (f : frame) : length (ids f) = length f.
Proof. apply length_fmap. Qed.

Lemma ids_loc_set_seq idx v (f : frame) a :
  f.*1 = seq a (length f) ->
  ids (loc_set_Document_ID idx v f) =
    if decide (a <= idx) then <[idx - a := v]> (ids f) else ids f.
Proof.
  revert a. induction f as [|[l r] f IH]; intros a Hl.
  - simpl. by case_decide.
  - simpl in Hl. injection Hl as -> Hl.
    unfold ids in *. csimpl. rewrite (IH _ Hl).
    destruct (decide (a = idx)) as [->|Hne]; simpl.
    + rewrite decide_False by lia. rewrite decide_True by lia.
      by rewrite Nat.sub_diag.
    + destruct (decide (S a <= idx)).
      * rewrite decide_True by lia.
        replace (idx - a) with (S (idx - S a)) by lia. done.
      * rewrite decide_False by lia. done.
Qed.

Lemma ids_loc_set idx v (f : frame) :
  f.*1 = seq 0 (length f) -> ids (loc_set_Document_ID idx v f) = <[idx := v]> (ids f).
Proof.
  intros H. rewrite (ids_loc_set_seq _ _ _ 0 H).
  rewrite decide_True by lia. by rewrite Nat.sub_0_r.
Qed.

Lemma ranged_core f f' : core f = core f' -> ranged f -> ranged f'.
Proof.
  unfold ranged. intros Hc Hf.
  rewrite labels_core, <- Hc, <- labels_core, Hf.
  by rewrite <- (length_core f), Hc, length_core.
Qed.

Lemma assign_dated_pass c docs : forall i st,
  ranged (df_with_ids st) ->
  let st' := assign_dated c i docs st in
  core (df_with_ids st') = core (df_with_ids st) /\
  ids (df_with_ids st') = assign_from c i docs.*1 (ids (df_with_ids st)) /\
  stdout st' = stdout st ++
    lines_from (u " to document with date at index ") c i docs.*1 /\
  gen st' = gen st.
Proof.
  induction docs as [|[idx r] docs IH]; intros i st Hr; simpl.
  - by rewrite app_nil_r.
  - set (st1 := print _ (set_loc idx _ st)).
    assert (Hc : core (df_with_ids st1) = core (df_with_ids st))
      by apply core_loc_set.
    destruct (IH (S i) st1) as (H1 & H2 & H3 & H4).
    { eapply ranged_core; [|exact Hr]. by rewrite Hc. }
    rewrite H1, H2, H3, H4. split_and!; [done| | |done].
    + simpl. by rewrite ids_loc_set.
    + simpl. by rewrite <- app_assoc.
Qed.

Lemma assign_undated_pass c m labels : forall i st,
  ranged (df_with_ids st) ->
  let st' := assign_undated c m i labels st in
  core (df_with_ids st') = core (df_with_ids st) /\
  ids (df_with_ids st') = assign_from c (m + i + 1) labels (ids (df_with_ids st)) /\
  stdout st' = stdout st ++
    lines_from (u " to document without date at index ") c (m + i + 1) labels /\
  gen st' = gen st.
Proof.
  induction labels as [|idx labels IH]; intros i st Hr; simpl.
  - by rewrite app_nil_r.
  - set (st1 := print _ (set_loc idx _ st)).
    assert (Hc : core (df_with_ids st1) = core (df_with_ids st))
      by apply core_loc_set.
    destruct (IH (S i) st1) as (H1 & H2 & H3 & H4).
    { eapply ranged_core; [|exact Hr]. by rewrite Hc. }
    rewrite H1, H2, H3, H4.
    replace (m + S i + 1) with (S (m + i + 1)) by lia.
    split_and!; [done| | |done].
    + simpl. by rewrite ids_loc_set.
    + simpl. by rewrite <- app_assoc.
Qed.

(** ** Sorting one sector *)

Lemma take_rows_fmap {A B} (f : A -> B) (l : list A) idx :
  f <$> take_rows l idx = take_rows (f <$> l) idx.
Proof.
  unfold take_rows. induction idx as [|i idx IH]; [done|].
  csimpl. rewrite list_lookup_fmap.
  destruct (l !! i); csimpl; by rewrite IH.
Qed.

Lemma take_rows_Forall {A} (P : A -> Prop) (l : list A) idx :
  Forall P l -> Forall P (take_rows l idx).
Proof.
  intros Hl. unfold take_rows. induction idx as [|i idx IH]; [constructor|].
  csimpl. destruct (l !! i) eqn:Hi; csimpl; [|done].
  constructor; [|done]. exact (Forall_lookup_1 _ _ _ _ Hl Hi).
Qed.

Lemma take_rows_nil {A} idx : take_rows (@nil A) idx = [].
Proof. unfold take_rows. induction idx; csimpl; by rewrite ?lookup_nil. Qed.

Lemma filter_all {A} (P : A -> Prop) `{!forall x, Decision (P x)} (l : list A) :
  Forall P l -> filter P l = l.
Proof.
  induction 1 as [|x l Hx _ IH]; [done|].
  rewrite filter_cons_True by done. by rewrite IH.
Qed.

Lemma filter_none {A} (P : A -> Prop) `{!forall x, Decision (P x)} (l : list A) :
  Forall (λ x, ~ P x) l -> filter P l = [].
Proof.
  induction 1 as [|x l Hx _ IH]; [done|].
  by rewrite filter_cons_False.
Qed.

Lemma Forall_filter_self {A} (P : A -> Prop) `{!forall x, Decision (P x)} (l : list A) :
  Forall P (filter P l).
Proof. apply Forall_forall. intros x Hx. by apply list_elem_of_filter in Hx as []. Qed.

Lemma notna_not_isna lr : notna lr <-> ~ isna lr.
Proof.
  unfold notna, isna. destruct (w_Date_parsed lr.2) as [d|].
  - split; [done|]. intros _. by exists d.
  - split; [by intros [? ?]|]. intros H. by destruct H.
Qed.

Lemma filter_notna_view (f : frame) :
  (filter notna f).*1 = (filter dated (frame_view f)).*1.
Proof.
  induction f as [|lr f IH]; [done|].
  unfold frame_view in *. rewrite fmap_cons.
  destruct (decide (notna lr)) as [H|H].
  - rewrite (filter_cons_True notna), (filter_cons_True dated) by done.
    rewrite !fmap_cons. by rewrite IH.
  - by rewrite (filter_cons_False notna), (filter_cons_False dated) by done.
Qed.

Lemma filter_isna_view (f : frame) :
  (filter isna f).*1 = undated_labels (frame_view f).
Proof.
  unfold undated_labels.
  induction f as [|lr f IH]; [done|].
  unfold frame_view in *. rewrite fmap_cons.
  destruct (decide (isna lr)) as [H|H].
  - rewrite (filter_cons_True isna), (filter_cons_True undated) by done.
    rewrite !fmap_cons. by rewrite IH.
  - by rewrite (filter_cons_False isna), (filter_cons_False undated) by done.
Qed.

Lemma omap_Date_parsed_view (f : frame) :
  omap (λ lr, w_Date_parsed lr.2) f = omap snd (frame_view f).
Proof.
  induction f as [|lr f IH]; [done|].
  unfold frame_view in *. csimpl. by rewrite IH.
Qed.

Section SortValues.
Variable argsort : list datetime -> list nat.

Lemma date_documents_eq (f : frame) :
  filter notna (sort_values argsort f) =
  take_rows (filter notna f) (argsort (omap (λ lr, w_Date_parsed lr.2) f)).
Proof.
  unfold sort_values. rewrite filter_app.
  rewrite (filter_none notna (filter isna f)), app_nil_r.
  - apply filter_all, take_rows_Forall, Forall_filter_self.
  - eapply Forall_impl; [apply Forall_filter_self|].
    intros lr H Hn. by apply notna_not_isna in Hn.
Qed.

Lemma no_date_documents_eq (f : frame) :
  filter isna (sort_values argsort f) = filter isna f.
Proof.
  unfold sort_values. rewrite filter_app.
  rewrite (filter_none isna (take_rows _ _)).
  - apply filter_all, Forall_filter_self.
  - apply take_rows_Forall.
    eapply Forall_impl; [apply Forall_filter_self|].
    intros lr H. by apply notna_not_isna.
Qed.

Lemma date_documents_labels (f : frame) :
  (filter notna (sort_values argsort f)).*1 = dated_labels argsort (frame_view f).
Proof.
  rewrite date_documents_eq, take_rows_fmap, filter_notna_view.
  by rewrite omap_Date_parsed_view.
Qed.

Lemma no_date_documents_labels (f : frame) :
  (filter isna (sort_values argsort f)).*1 = undated_labels (frame_view f).
Proof. by rewrite no_date_documents_eq, filter_isna_view. Qed.

End SortValues.

Lemma dated_labels_nil argsort : dated_labels argsort [] = [].
Proof. unfold dated_labels. apply take_rows_nil. Qed.

Lemma assign_from_app c i l1 l2 l :
  assign_from c i (l1 ++ l2) l = assign_from c (i + length l1) l2 (assign_from c i l1 l).
Proof.
  revert i l. induction l1 as [|p l1 IH]; intros i l; simpl.
  - by rewrite Nat.add_0_r.
  - rewrite IH. f_equal. lia.
Qed.

Lemma sector_view_core sector (f : frame) :
  frame_view (filter (λ lr, Sector (w_doc lr.2) = Str sector) f) =
  sector_view sector (core f).
Proof.
  unfold sector_view, frame_view, core.
  induction f as [|lr f IH]; [done|].
  rewrite fmap_cons, !filter_cons. simpl.
  case_decide; rewrite ?fmap_cons; by rewrite IH.
Qed.

(** ** The pass over one sector *)

Lemma process_sector_pass argsort st e :
  ranged (df_with_ids st) ->
  let st' := process_sector argsort st e in
  core (df_with_ids st') = core (df_with_ids st) /\
  (ids (df_with_ids st'), stdout st', gen st') =
    sector_pass argsort (sector_view e.1 (core (df_with_ids st)))
      (ids (df_with_ids st), stdout st, gen st) e.
Proof.
  intros Hr. destruct e as [s c]. simpl.
  unfold process_sector, sector_pass.
  rewrite <- sector_view_core.
  set (sector_df := filter _ (df_with_ids st)).
  set (v := frame_view sector_df).
  assert (Hlen : length v = length sector_df) by apply length_fmap.
  rewrite Hlen. unfold sector_lines.
  destruct (decide (length sector_df = 0)) as [Hz|Hz].
  - apply nil_length_inv in Hz. unfold v. rewrite Hz. simpl.
    rewrite dated_labels_nil. simpl. split; [done|].
    by rewrite <- app_assoc.
  - unfold v.
    rewrite <- (date_documents_labels argsort sector_df).
    rewrite <- (no_date_documents_labels argsort sector_df).
    set (dd := filter notna (sort_values argsort sector_df)).
    set (nd := filter isna (sort_values argsort sector_df)).
    set (st2 := print _ (print _ st)).
    destruct (assign_dated_pass c dd 1 st2 Hr) as (H1 & H2 & H3 & H4).
    simpl in H1, H2, H3, H4.
    destruct (decide (0 < length nd)) as [Hn|Hn].
    + rewrite H4. simpl.
      destruct (shuffle nd.*1 (gen st)) as [sh g'] eqn:Hsh.
      set (st4 := mkstate _ _ g').
      destruct (assign_undated_pass c (length dd) sh 0 st4) as (G1 & G2 & G3 & G4).
      { eapply ranged_core; [|exact Hr]. simpl. by rewrite H1. }
      simpl in G1, G2, G3, G4.
      rewrite G1, G2, G3, G4, H1, H2, H3. split; [done|].
      rewrite assign_from_app, length_fmap.
      replace (length dd + 0 + 1) with (1 + length dd) by lia.
      simpl. by rewrite <- !app_assoc.
    + assert (nd = []) as -> by (destruct nd; [done|simpl in Hn; lia]).
      simpl. rewrite H1, H2, H3, H4, !app_nil_r. split; [done|].
      by rewrite <- !app_assoc.
Qed.

(** ** The whole run *)

Lemma fold_process_sector argsort es : forall st,
  ranged (df_with_ids st) ->
  let st' := foldl (process_sector argsort) st es in
  core (df_with_ids st') = core (df_with_ids st) /\
  (ids (df_with_ids st'), stdout st', gen st') =
    foldl (λ a e, sector_pass argsort (sector_view e.1 (core (df_with_ids st))) a e)
      (ids (df_with_ids st), stdout st, gen st) es.
Proof.
  induction es as [|e es IH]; intros st Hr; simpl; [done|].
  destruct (process_sector_pass argsort st e Hr) as [Hc Hp].
  simpl in Hc, Hp.
  destruct (IH (process_sector argsort st e)) as [Hc' Hp'].
  { eapply ranged_core; [|exact Hr]. by rewrite Hc. }
  simpl in Hc', Hp'. rewrite Hc', Hp', Hc, Hp. done.
Qed.

Section WorkingCopy.
Variable strptime : str -> option datetime.

Lemma core_working_copy df :
  core (working_copy strptime df) =
  imap (λ i r, (i, r, parse_date strptime (Date r))) df.
Proof. unfold core, working_copy. rewrite fmap_imap. by apply imap_ext. Qed.

Lemma ranged_working_copy df : ranged (working_copy strptime df).
Proof.
  unfold ranged, working_copy. rewrite fmap_imap, length_imap.
  rewrite (imap_ext _ (λ j _, j) df) by done.
  by rewrite (imap_seq_0 df (λ j, j)), list_fmap_id.
Qed.

Lemma ids_working_copy df :
  ids (working_copy strptime df) = replicate (length df) [].
Proof.
  unfold ids, working_copy. rewrite fmap_imap.
  rewrite (imap_ext _ (λ _ _, ([] : str)) df) by done.
  rewrite (imap_seq_0 df (λ _, ([] : str))).
  rewrite (const_fmap _ _ ([] : str)) by done. by rewrite length_seq.
Qed.

Lemma docs_core (f : frame) :
  (λ lr : nat * wrow, w_doc lr.2) <$> f = (λ x, x.1.2) <$> core f.
Proof. unfold core. by rewrite <- list_fmap_compose. Qed.

Lemma create_unique_ids_account argsort g df :
  let o := create_unique_ids strptime argsort g df in
  doc <$> returned o = df /\
  (Document_ID <$> returned o, printed o, gen_after o) =
    account argsort (λ s, input_view (parse_date strptime) s df) (length df) g.
Proof.
  unfold create_unique_ids, run. cbn [returned printed gen_after].
  pose proof (fold_process_sector argsort sector_mapping
              (mkstate (working_copy strptime df) [] g) (ranged_working_copy df)) as H.
  cbv zeta in H. destruct H as [Hc Hp].
  change (df_with_ids (mkstate ?a ?b ?c)) with a in Hc, Hp.
  change (stdout (mkstate ?a ?b ?c)) with b in Hp.
  change (gen (mkstate ?a ?b ?c)) with c in Hp.
  generalize dependent (foldl (process_sector argsort)
    (mkstate (working_copy strptime df) [] g) sector_mapping).
  intros st Hc Hp.
  unfold drop_Date_parsed. rewrite <- !list_fmap_compose. split.
  - change (doc ∘ _) with (λ lr : nat * wrow, w_doc lr.2).
    rewrite docs_core, Hc, core_working_copy, fmap_imap.
    rewrite (imap_ext _ (λ _ r, r) df) by done.
    rewrite (imap_const id). apply list_fmap_id.
  - change (Document_ID ∘ _) with (λ lr : nat * wrow, w_Document_ID lr.2).
    fold (ids (df_with_ids st)). rewrite Hp.
    rewrite ids_working_copy, core_working_copy. done.
Qed.
End WorkingCopy.

(** ** Identifiers written at labels *)

Lemma length_assign_from c labels : forall i l,
  length (assign_from c i labels l) = length l.
Proof.
  induction labels as [|p labels IH]; intros i l; simpl; [done|].
  by rewrite IH, length_insert.
Qed.

Lemma assign_from_other c labels p : forall i l,
  p ∉ labels -> assign_from c i labels l !! p = l !! p.
Proof.
  induction labels as [|q labels IH]; intros i l Hp; simpl; [done|].
  apply not_elem_of_cons in Hp as [Hne Hp].
  rewrite IH by done. by apply list_lookup_insert_ne.
Qed.

Lemma assign_from_lookup c labels : forall i l k p,
  NoDup labels -> (forall q, q ∈ labels -> q < length l) ->
  labels !! k = Some p ->
  assign_from c i labels l !! p = Some (doc_id_of c (i + k)).
Proof.
  induction labels as [|q labels IH]; intros i l k p Hnd Hb Hk; [done|].
  apply NoDup_cons in Hnd as [Hq Hnd]. simpl.
  destruct k as [|k]; simplify_eq/=.
  - rewrite assign_from_other by done.
    rewrite Nat.add_0_r. apply list_lookup_insert_eq, Hb. left.
  - replace (i + S k) with (S i + k) by lia.
    apply IH; [done| |done].
    intros q' Hq'. rewrite length_insert. apply Hb. by right.
Qed.

(** ** Selecting by a permutation of the positions *)

Lemma take_rows_seq {A} (l : list A) : take_rows l (seq 0 (length l)) = l.
Proof.
  unfold take_rows.
  assert (H : forall pre, omap (λ i, (pre ++ l) !! i) (seq (length pre) (length l)) = l).
  { induction l as [|x l IH]; intros pre; [done|].
    csimpl. rewrite list_lookup_middle by done. csimpl. f_equal.
    specialize (IH (pre ++ [x])).
    rewrite length_app, <- app_assoc in IH. simpl in IH.
    by rewrite Nat.add_1_r in IH. }
  apply (H []).
Qed.

Lemma take_rows_Permutation {A} (l : list A) idx :
  idx ≡ₚ seq 0 (length l) -> take_rows l idx ≡ₚ l.
Proof.
  intros H. unfold take_rows. rewrite H. by rewrite <- (take_rows_seq l) at 2.
Qed.

Lemma length_omap_snd (v : view) : length (omap snd v) = length (filter dated v).
Proof.
  induction v as [|[p [d|]] v IH]; [done| |].
  - rewrite filter_cons_True by (by eexists). csimpl. by rewrite IH.
  - rewrite filter_cons_False by (by intros [? ?]). done.
Qed.

Lemma view_split (v : view) : (filter dated v).*1 ++ undated_labels v ≡ₚ v.*1.
Proof.
  unfold undated_labels. rewrite <- fmap_app.
  apply fmap_Permutation.
  induction v as [|[p [d|]] v IH]; [done| |].
  - rewrite filter_cons_True by (by eexists).
    rewrite (filter_cons_False undated) by done. simpl. by rewrite IH.
  - rewrite filter_cons_False by (by intros [? ?]).
    rewrite (filter_cons_True undated) by done.
    rewrite <- Permutation_middle. by rewrite IH.
Qed.

Section SortedLabels.
Variable argsort : list datetime -> list nat.
Hypothesis argsort_sorts : sorts argsort.

Lemma dated_labels_Permutation (v : view) :
  dated_labels argsort v ≡ₚ (filter dated v).*1.
Proof.
  unfold dated_labels. apply take_rows_Permutation.
  rewrite length_fmap, <- length_omap_snd. apply argsort_sorts.
Qed.

Lemma order_Permutation (v : view) sh :
  sh ≡ₚ undated_labels v -> dated_labels argsort v ++ sh ≡ₚ v.*1.
Proof.
  intros ->. rewrite dated_labels_Permutation. apply view_split.
Qed.

End SortedLabels.

(** ** The loop over the sectors, by labels *)

Section Account.
Variable argsort : list datetime -> list nat.
Hypothesis argsort_sorts : sorts argsort.
Variable vs : str -> view.
Variable n : nat.
Hypothesis vs_NoDup : forall s, NoDup (vs s).*1.
Hypothesis vs_bound : forall s p, p ∈ (vs s).*1 -> p < n.
Hypothesis vs_disjoint : forall s s' p, p ∈ (vs s).*1 -> p ∈ (vs s').*1 -> s = s'.

Lemma sector_pass_ids a s c :
  length a.1.1 = n ->
  let a' := sector_pass argsort (vs s) a (s, c) in
  length a'.1.1 = n /\
  (forall p, p ∉ (vs s).*1 -> a'.1.1 !! p = a.1.1 !! p) /\
  exists sh, sh ≡ₚ undated_labels (vs s) /\
    numbered c (dated_labels argsort (vs s) ++ sh) a'.1.1.
Proof.
  destruct a as [[l out] g]. simpl. intros Hl.
  pose proof (shuffle_Permutation (undated_labels (vs s)) g) as Hsh.
  destruct (shuffle (undated_labels (vs s)) g) as [sh g']. simpl in *.
  pose proof (order_Permutation argsort argsort_sorts (vs s) sh Hsh) as Hperm.
  split_and!.
  - by rewrite length_assign_from.
  - intros p Hp. apply assign_from_other. by rewrite Hperm.
  - exists sh. split; [done|]. intros k p Hk.
    apply (assign_from_lookup c _ 1 l k p); [by rewrite Hperm| |done].
    intros q Hq. rewrite Hperm in Hq. rewrite Hl. by eapply vs_bound.
Qed.

Lemma account_ids es : forall a,
  NoDup es.*1 -> length a.1.1 = n ->
  let a' := foldl (λ a e, sector_pass argsort (vs e.1) a e) a es in
  length a'.1.1 = n /\
  (forall p, (forall e, e ∈ es -> p ∉ (vs e.1).*1) -> a'.1.1 !! p = a.1.1 !! p) /\
  (forall s c, (s, c) ∈ es ->
     exists sh, sh ≡ₚ undated_labels (vs s) /\
       numbered c (dated_labels argsort (vs s) ++ sh) a'.1.1).
Proof.
  induction es as [|[s c] es IH]; intros a Hnd Hl.
  - simpl. split_and!; [done|done|]. intros s c H. by apply elem_of_nil in H.
  - rewrite fmap_cons in Hnd. apply NoDup_cons in Hnd as [Hs Hnd].
    cbn [foldl fst].
    destruct (sector_pass_ids a s c Hl) as (H1 & H2 & sh & Hsh & H3).
    cbv zeta in H1, H2, H3.
    set (a1 := sector_pass argsort (vs s) a (s, c)) in *.
    destruct (IH a1 Hnd H1) as (G1 & G2 & G3). cbv zeta in G1, G2, G3.
    split_and!.
    + done.
    + intros p Hp. rewrite G2, H2; [done| |].
      * apply (Hp (s, c)). left.
      * intros e He. apply Hp. by right.
    + intros s' c' He. apply elem_of_cons in He as [[= -> ->]|He].
      * exists sh. split; [done|]. intros k p Hk.
        rewrite G2; [by apply H3|].
        intros [s' c'] He Hin. simpl in Hin.
        assert (p ∈ (vs s).*1) as Hps.
        { rewrite <- (order_Permutation argsort argsort_sorts (vs s) sh Hsh).
          by eapply list_elem_of_lookup_2. }
        pose proof (vs_disjoint _ _ _ Hps Hin) as ->.
        apply Hs. apply list_elem_of_fmap. by exists (s', c').
      * by apply G3.
Qed.
End Account.

(** ** One category at a time, whatever the sort does elsewhere *)




Section AccountBySector.
Variable argsort : list datetime -> list nat.
Variable vs : str -> view.
Variable n : nat.
Hypothesis vs_NoDup : forall s, NoDup (vs s).*1.
Hypothesis vs_bound : forall s p, p ∈ (vs s).*1 -> p < n.
Hypothesis vs_disjoint : forall s s' p, p ∈ (vs s).*1 -> p ∈ (vs s').*1 -> s = s'.





End AccountBySector.


(** ** Order inside the dated part *)



Lemma dated_pairs_labels (v : view) : (dated_pairs v).*1 = (filter dated v).*1.
Proof.
  unfold dated_pairs. induction v as [|[p [d|]] v IH]; [done| |].
  - rewrite filter_cons_True by (by eexists). csimpl. by rewrite IH.
  - rewrite filter_cons_False by (by intros [? ?]). done.
Qed.

Lemma dated_pairs_keys (v : view) : (dated_pairs v).*2 = omap snd v.
Proof.
  unfold dated_pairs. induction v as [|[p [d|]] v IH]; [done| |]; csimpl; by rewrite IH.
Qed.

Lemma elem_of_dated_pairs (v : view) p d : (p, d) ∈ dated_pairs v <-> (p, Some d) ∈ v.
Proof.
  unfold dated_pairs. rewrite list_elem_of_omap. split.
  - intros ([q [e|]] & Hin & Heq); simplify_eq/=. done.
  - intros H. by exists (p, Some d).
Qed.

Lemma view_functional (v : view) p d d' :
  NoDup v.*1 -> (p, d) ∈ v -> (p, d') ∈ v -> d = d'.
Proof.
  intros Hnd H1 H2.
  apply list_elem_of_lookup in H1 as [i Hi], H2 as [j Hj].
  assert (i = j) as ->.
  { eapply (NoDup_lookup _ i j p Hnd); rewrite list_lookup_fmap.
    - by rewrite Hi. - by rewrite Hj. }
  congruence.
Qed.

Section Order.
Variable argsort : list datetime -> list nat.
Hypothesis argsort_sorts : sorts argsort.

Lemma dated_labels_pairs (v : view) :
  dated_labels argsort v = (take_rows (dated_pairs v) (argsort (omap snd v))).*1.
Proof. unfold dated_labels. by rewrite take_rows_fmap, dated_pairs_labels. Qed.

Lemma dated_labels_sorted_keys (v : view) :
  StronglySorted date_le (take_rows (dated_pairs v) (argsort (omap snd v))).*2.
Proof.
  rewrite take_rows_fmap, dated_pairs_keys.
  apply Sorted_StronglySorted; [apply _|]. apply argsort_sorts.
Qed.

Lemma length_dated_labels (v : view) :
  length (dated_labels argsort v) = length (filter dated v).
Proof. by rewrite (dated_labels_Permutation argsort argsort_sorts), length_fmap. Qed.

(** Along [dated_labels] the dates ascend. *)
Lemma dated_labels_ascending (v : view) k1 k2 p1 p2 d1 d2 :
  NoDup v.*1 ->
  dated_labels argsort v !! k1 = Some p1 ->
  dated_labels argsort v !! k2 = Some p2 ->
  (p1, Some d1) ∈ v -> (p2, Some d2) ∈ v ->
  k1 < k2 -> date_le d1 d2.
Proof.
  intros Hnd H1 H2 Hd1 Hd2 Hk.
  rewrite dated_labels_pairs, list_lookup_fmap in H1, H2.
  set (s := take_rows _ _) in *.
  destruct (s !! k1) as [[q1 e1]|] eqn:Hs1; simplify_eq/=.
  destruct (s !! k2) as [[q2 e2]|] eqn:Hs2; simplify_eq/=.
  assert (Hin : forall q e, (q, e) ∈ s -> (q, Some e) ∈ v).
  { intros q e Hqe. apply elem_of_dated_pairs.
    pose proof (take_rows_Forall (λ x, x ∈ dated_pairs v) (dated_pairs v)
                  (argsort (omap snd v))) as HF.
    eapply Forall_forall in HF; [exact HF| |exact Hqe].
    by apply Forall_forall. }
  assert (Some e1 = Some d1) as [= ->].
  { eapply view_functional; [done| |done]. eapply Hin, list_elem_of_lookup_2, Hs1. }
  assert (Some e2 = Some d2) as [= ->].
  { eapply view_functional; [done| |done]. eapply Hin, list_elem_of_lookup_2, Hs2. }
  eapply (StronglySorted_lookup date_le s.*2 k1 k2);
    [apply dated_labels_sorted_keys|done| |]; rewrite list_lookup_fmap.
  - by rewrite Hs1.
  - by rewrite Hs2.
Qed.

End Order.



(** ** The rows of a sector in the input *)

Section InputView.
Variable parse : cell -> option datetime.

Lemma elem_of_input_view s df p d :
  (p, d) ∈ input_view parse s df <->
  exists r, df !! p = Some r /\ Sector r = Str s /\ d = parse (Date r).
Proof.
  unfold input_view, sector_view. rewrite list_elem_of_fmap. split.
  - intros ([[q r] e] & Heq & Hin).
    apply list_elem_of_filter in Hin as [Hs Hin].
    apply list_elem_of_lookup in Hin as [i Hi].
    rewrite list_lookup_imap in Hi.
    destruct (df !! i) as [r'|] eqn:Hr; simplify_eq/=. eauto.
  - intros (r & Hr & Hs & ->). exists (p, r, parse (Date r)). split; [done|].
    apply list_elem_of_filter. split; [done|].
    apply list_elem_of_lookup. exists p. by rewrite list_lookup_imap, Hr.
Qed.

Lemma input_view_shifted s df a :
  let v := sector_view s (imap (λ i r, (a + i, r, parse (Date r))) df) in
  StronglySorted lt v.*1 /\ Forall (λ p, a <= p) v.*1 /\
  length (filter dated v) = length (filter (dated_in parse s) df) /\
  length (filter undated v) = length (filter (undated_in parse s) df).
Proof.
  revert a. induction df as [|r df IH]; intros a.
  - simpl. split_and!; constructor.
  - cbv zeta. rewrite imap_cons.
    rewrite (imap_ext _ (λ i r, (S a + i, r, parse (Date r))))
      by (intros; simpl; do 2 f_equal; lia).
    destruct (IH (S a)) as (H1 & H2 & H3 & H4). cbv zeta in H1, H2, H3, H4.
    unfold sector_view in *. rewrite Nat.add_0_r.
    destruct (decide (Sector r = Str s)) as [Hs|Hs].
    + rewrite filter_cons_True by done. rewrite !fmap_cons. cbn [fst snd].
      split_and!.
      * constructor; [done|]. eapply Forall_impl; [exact H2|]. simpl. lia.
      * constructor; [done|]. eapply Forall_impl; [exact H2|]. simpl. lia.
      * destruct (parse (Date r)) as [d|] eqn:Hd.
        -- rewrite filter_cons_True by (by eexists).
           rewrite (filter_cons_True (dated_in parse s))
             by (split; [done|rewrite Hd; by eexists]).
           cbn [length]. by rewrite H3.
        -- rewrite filter_cons_False by (by intros [? ?]).
           rewrite (filter_cons_False (dated_in parse s))
             by (intros [_ [? ?]]; congruence).
           done.
      * destruct (parse (Date r)) as [d|] eqn:Hd.
        -- rewrite filter_cons_False by done.
           rewrite (filter_cons_False (undated_in parse s))
             by (intros [_ ?]; congruence).
           done.
        -- rewrite filter_cons_True by done.
           rewrite (filter_cons_True (undated_in parse s)) by done.
           cbn [length]. by rewrite H4.
    + rewrite filter_cons_False by done.
      rewrite (filter_cons_False (dated_in parse s)) by (by intros [? _]).
      rewrite (filter_cons_False (undated_in parse s)) by (by intros [? _]).
      split_and!; [done| |done|done].
      eapply Forall_impl; [exact H2|]. simpl. lia.
Qed.

Lemma input_view_sorted s df : StronglySorted lt (input_view parse s df).*1.
Proof. apply (input_view_shifted s df 0). Qed.

Lemma input_view_NoDup s df : NoDup (input_view parse s df).*1.
Proof.
  pose proof (input_view_sorted s df) as H.
  induction H as [|x l _ IH Hx]; constructor; [|done].
  intros Hin. eapply Forall_forall in Hx; [|exact Hin]. lia.
Qed.

Lemma length_dated_input_view s df :
  length (filter dated (input_view parse s df)) = length (filter (dated_in parse s) df).
Proof. apply (input_view_shifted s df 0). Qed.

Lemma length_undated_input_view s df :
  length (undated_labels (input_view parse s df)) =
  length (filter (undated_in parse s) df).
Proof. unfold undated_labels. rewrite length_fmap. apply (input_view_shifted s df 0). Qed.

Lemma input_view_label s df p :
  p ∈ (input_view parse s df).*1 <-> exists r, df !! p = Some r /\ Sector r = Str s.
Proof.
  rewrite list_elem_of_fmap. split.
  - intros ([q d] & -> & Hin). apply elem_of_input_view in Hin as (r & ? & ? & ?). eauto.
  - intros (r & Hr & Hs). exists (p, parse (Date r)). split; [done|].
    apply elem_of_input_view. eauto.
Qed.

Lemma input_view_bound s df p : p ∈ (input_view parse s df).*1 -> p < length df.
Proof.
  intros H. apply input_view_label in H as (r & Hr & _). by eapply lookup_lt_Some.
Qed.

Lemma input_view_disjoint s s' df p :
  p ∈ (input_view parse s df).*1 -> p ∈ (input_view parse s' df).*1 -> s = s'.
Proof.
  intros H H'. apply input_view_label in H as (r & Hr & Hs).
  apply input_view_label in H' as (r' & Hr' & Hs'). congruence.
Qed.
End InputView.

(** ** The closed mapping *)

Lemma sector_mapping_NoDup : NoDup sector_mapping.*1.
Proof. apply (bool_decide_unpack _). vm_compute. done. Qed.

Lemma sector_mapping_codes s c : (s, c) ∈ sector_mapping -> 1 <= c <= 5.
Proof.
  unfold sector_mapping. rewrite !elem_of_cons, elem_of_nil.
  intros [H|[H|[H|[H|[H|[]]]]]]; injection H as -> ->; lia.
Qed.

Lemma sector_mapping_code_inj s s' c :
  (s, c) ∈ sector_mapping -> (s', c) ∈ sector_mapping -> s = s'.
Proof.
  unfold sector_mapping. intros H H'.
  rewrite !elem_of_cons, elem_of_nil in H, H'.
  destruct H as [H|[H|[H|[H|[H|[]]]]]]; injection H as -> ->;
    destruct H' as [H'|[H'|[H'|[H'|[H'|[]]]]]]; injection H' as ->; done.
Qed.

(** ** Identifiers of the returned frame *)

Section Identifiers.
Variable strptime : str -> option datetime.
Variable argsort : list datetime -> list nat.
Hypothesis argsort_sorts : sorts argsort.

Lemma assigned_ids g df :
  let l := Document_ID <$> returned (create_unique_ids strptime argsort g df) in
  length l = length df /\
  (forall p, p < length df ->
     (forall e, e ∈ sector_mapping ->
        p ∉ (input_view (parse_date strptime) e.1 df).*1) ->
     l !! p = Some []) /\
  (forall s c, (s, c) ∈ sector_mapping ->
     exists sh, sh ≡ₚ undated_labels (input_view (parse_date strptime) s df) /\
       numbered c (dated_labels argsort (input_view (parse_date strptime) s df) ++ sh) l).
Proof.
  cbv zeta.
  destruct (create_unique_ids_account strptime argsort g df) as [_ Ha].
  cbv zeta in Ha.
  set (vs := λ s, input_view (parse_date strptime) s df) in *.
  assert (Hl : (account argsort vs (length df) g).1.1 =
               Document_ID <$> returned (create_unique_ids strptime argsort g df)).
  { by rewrite <- Ha. }
  rewrite <- Hl. clear Ha Hl.
  pose proof (account_ids argsort argsort_sorts vs (length df)
                (λ s, input_view_NoDup _ s df) (λ s, input_view_bound _ s df)
                (λ s s' p, input_view_disjoint _ s s' df p)
                sector_mapping (replicate (length df) [], [], g)
                sector_mapping_NoDup (length_replicate _ _)) as (H1 & H2 & H3).
  unfold account.
  split_and!; [exact H1| |exact H3].
  intros p Hp Hno. rewrite (H2 p Hno). by apply lookup_replicate_2.
Qed.
End Identifiers.

(** ** The identifier of a row, by kind of row *)

Section Rows.
Variable strptime : str -> option datetime.
Variable argsort : list datetime -> list nat.
Hypothesis argsort_sorts : sorts argsort.

Lemma dated_row_id g df s c p r d :
  (s, c) ∈ sector_mapping ->
  df !! p = Some r -> Sector r = Str s -> parse_date strptime (Date r) = Some d ->
  exists k,
    dated_labels argsort (input_view (parse_date strptime) s df) !! k = Some p /\
    k < length (filter (dated_in (parse_date strptime) s) df) /\
    (Document_ID <$> returned (create_unique_ids strptime argsort g df)) !! p =
      Some (doc_id_of c (S k)).
Proof.
  intros Hsc Hr Hs Hd.
  destruct (assigned_ids strptime argsort argsort_sorts g df) as (_ & _ & H).
  destruct (H s c Hsc) as (sh & Hsh & Hnum).
  set (v := input_view (parse_date strptime) s df) in *.
  assert (Hin : p ∈ dated_labels argsort v).
  { rewrite (dated_labels_Permutation argsort argsort_sorts).
    apply list_elem_of_fmap. exists (p, Some d). split; [done|].
    apply list_elem_of_filter. split; [by eexists|].
    apply elem_of_input_view. exists r. by rewrite Hd. }
  apply list_elem_of_lookup in Hin as [k Hk]. exists k. split_and!; [done| |].
  - apply lookup_lt_Some in Hk. unfold v in Hk.
    by rewrite (length_dated_labels argsort argsort_sorts), length_dated_input_view in Hk.
  - apply Hnum. by apply lookup_app_l_Some.
Qed.

Lemma undated_row_id g df s c p r :
  (s, c) ∈ sector_mapping ->
  df !! p = Some r -> Sector r = Str s -> parse_date strptime (Date r) = None ->
  exists k,
    length (filter (dated_in (parse_date strptime) s) df) <= k <
      length (filter (dated_in (parse_date strptime) s) df) +
      length (filter (undated_in (parse_date strptime) s) df) /\
    (Document_ID <$> returned (create_unique_ids strptime argsort g df)) !! p =
      Some (doc_id_of c (S k)).
Proof.
  intros Hsc Hr Hs Hd.
  destruct (assigned_ids strptime argsort argsort_sorts g df) as (_ & _ & H).
  destruct (H s c Hsc) as (sh & Hsh & Hnum).
  set (v := input_view (parse_date strptime) s df) in *.
  assert (Hin : p ∈ sh).
  { rewrite Hsh. apply list_elem_of_fmap. exists (p, None). split; [done|].
    apply list_elem_of_filter. split; [done|].
    apply elem_of_input_view. exists r. by rewrite Hd. }
  apply list_elem_of_lookup in Hin as [j Hj].
  pose proof (lookup_lt_Some _ _ _ Hj) as Hlt.
  rewrite Hsh in Hlt. unfold v in Hlt. rewrite length_undated_input_view in Hlt.
  pose proof (length_dated_labels argsort argsort_sorts v) as HD.
  unfold v in HD at 2. rewrite length_dated_input_view in HD.
  exists (length (dated_labels argsort v) + j). split; [lia|].
  apply Hnum. rewrite lookup_app_r by lia.
  by replace (length (dated_labels argsort v) + j - length (dated_labels argsort v))
    with j by lia.
Qed.

Lemma unmapped_row_id g df p r :
  df !! p = Some r ->
  (forall s c, (s, c) ∈ sector_mapping -> Sector r <> Str s) ->
  (Document_ID <$> returned (create_unique_ids strptime argsort g df)) !! p = Some [].
Proof.
  intros Hr Hno.
  destruct (assigned_ids strptime argsort argsort_sorts g df) as (_ & H & _).
  apply H; [by eapply lookup_lt_Some|].
  intros [s c] He Hin. apply input_view_label in Hin as (r' & Hr' & Hs).
  simplify_eq. by eapply Hno.
Qed.
End Rows.

(** ** Rows of the returned frame *)

Lemma mapped_or_unmapped (r : row) :
  (exists s c, (s, c) ∈ sector_mapping /\ Sector r = Str s) \/ unmapped r.
Proof.
  destruct (decide (Exists (λ e, Sector r = Str e.1) sector_mapping)) as [H|H].
  - left. apply Exists_exists in H as ([s c] & Hin & Hs). eauto.
  - right. intros s c Hin Hs. apply H. apply Exists_exists. by exists (s, c).
Qed.

Section Returned.
Variable strptime : str -> option datetime.
Variable argsort : list datetime -> list nat.

Lemma returned_docs g df :
  doc <$> returned (create_unique_ids strptime argsort g df) = df.
Proof. apply (create_unique_ids_account strptime argsort g df). Qed.

Lemma returned_lookup g df p o :
  returned (create_unique_ids strptime argsort g df) !! p = Some o ->
  df !! p = Some (doc o).
Proof.
  intros H. rewrite <- (returned_docs g df) at 1.
  by rewrite list_lookup_fmap, H.
Qed.

Lemma id_at_ids g df p :
  id_at (create_unique_ids strptime argsort g df) p =
  (Document_ID <$> returned (create_unique_ids strptime argsort g df)) !! p.
Proof. unfold id_at. by rewrite list_lookup_fmap. Qed.

Hypothesis argsort_sorts : sorts argsort.

(** The rows of a mapped sector are numbered along one order: the dated
    labels as sorted, then a permutation of the undated ones. *)
Lemma sector_order g df s c :
  (s, c) ∈ sector_mapping ->
  exists sh,
    sh ≡ₚ undated_labels (input_view (parse_date strptime) s df) /\
    NoDup (dated_labels argsort (input_view (parse_date strptime) s df) ++ sh) /\
    forall k p,
      (dated_labels argsort (input_view (parse_date strptime) s df) ++ sh) !! k = Some p ->
      id_at (create_unique_ids strptime argsort g df) p = Some (doc_id_of c (S k)).
Proof.
  intros Hsc.
  destruct (assigned_ids strptime argsort argsort_sorts g df) as (_ & _ & H).
  destruct (H s c Hsc) as (sh & Hsh & Hnum). exists sh. split_and!; [done| |].
  - rewrite (order_Permutation argsort argsort_sorts _ sh Hsh).
    apply input_view_NoDup.
  - intros k p Hk. rewrite id_at_ids. by apply Hnum.
Qed.

Lemma sector_order_elem df s sh p r :
  sh ≡ₚ undated_labels (input_view (parse_date strptime) s df) ->
  df !! p = Some r -> Sector r = Str s ->
  p ∈ dated_labels argsort (input_view (parse_date strptime) s df) ++ sh.
Proof.
  intros Hsh Hr Hs. rewrite (order_Permutation argsort argsort_sorts _ sh Hsh).
  apply input_view_label. eauto.
Qed.

Lemma mapped_row_id g df s c p r :
  (s, c) ∈ sector_mapping -> df !! p = Some r -> Sector r = Str s ->
  exists i, 1 <= i /\ id_at (create_unique_ids strptime argsort g df) p = Some (doc_id_of c i).
Proof.
  intros Hsc Hr Hs.
  destruct (sector_order g df s c Hsc) as (sh & Hsh & _ & Hnum).
  pose proof (sector_order_elem df s sh p r Hsh Hr Hs) as Hin.
  apply list_elem_of_lookup in Hin as [k Hk].
  exists (S k). split; [lia|]. by apply Hnum.
Qed.

Lemma unmapped_row_blank g df p r :
  df !! p = Some r -> unmapped r ->
  id_at (create_unique_ids strptime argsort g df) p = Some [].
Proof.
  intros Hr Hu. rewrite id_at_ids.
  by apply (unmapped_row_id strptime argsort argsort_sorts g df p r).
Qed.

End Returned.

(** ** What is printed depends on the mapped rows only *)

Lemma sector_view_same_mapped parse s c (df df' : list row) :
  (s, c) ∈ sector_mapping -> same_mapped_rows df df' ->
  forall a,
    sector_view s (imap (λ i r, (a + i, r, parse (Date r))) df) =
    sector_view s (imap (λ i r, (a + i, r, parse (Date r))) df').
Proof.
  intros Hsc. induction 1 as [|r r' df df' Hr _ IH]; intros a; [done|].
  rewrite !imap_cons.
  rewrite (imap_ext _ (λ i r, (S a + i, r, parse (Date r))) df)
    by (intros; simpl; do 2 f_equal; lia).
  rewrite (imap_ext _ (λ i r, (S a + i, r, parse (Date r))) df')
    by (intros; simpl; do 2 f_equal; lia).
  unfold sector_view in *.
  destruct Hr as [<-|[Hu Hu']].
  - destruct (decide (Sector r = Str s)).
    + rewrite !filter_cons_True by done. rewrite !fmap_cons. by rewrite IH.
    + rewrite !filter_cons_False by done. apply IH.
  - rewrite !filter_cons_False by (simpl; eauto). apply IH.
Qed.

Lemma input_view_same_mapped parse s c (df df' : list row) :
  (s, c) ∈ sector_mapping -> same_mapped_rows df df' ->
  input_view parse s df = input_view parse s df'.
Proof.
  intros Hsc H. apply (sector_view_same_mapped parse s c df df' Hsc H 0).
Qed.

Lemma fold_pass_ext argsort (vs vs' : str -> view) es : forall a,
  (forall e, e ∈ es -> vs e.1 = vs' e.1) ->
  foldl (λ a e, sector_pass argsort (vs e.1) a e) a es =
  foldl (λ a e, sector_pass argsort (vs' e.1) a e) a es.
Proof.
  induction es as [|e es IH]; intros a H; [done|].
  cbn [foldl]. rewrite (H e) by left. apply IH. intros e' He'. apply H. by right.
Qed.

Lemma printed_same_mapped strptime argsort g df df' :
  same_mapped_rows df df' ->
  printed (create_unique_ids strptime argsort g df') =
  printed (create_unique_ids strptime argsort g df).
Proof.
  intros H.
  destruct (create_unique_ids_account strptime argsort g df) as [_ Ha].
  destruct (create_unique_ids_account strptime argsort g df') as [_ Ha'].
  cbv zeta in Ha, Ha'.
  assert (Hp : (account argsort (λ s, input_view (parse_date strptime) s df)
                  (length df) g).1.2 =
               printed (create_unique_ids strptime argsort g df)).
  { rewrite <- Ha. reflexivity. }
  assert (Hp' : (account argsort (λ s, input_view (parse_date strptime) s df')
                   (length df') g).1.2 =
                printed (create_unique_ids strptime argsort g df')).
  { rewrite <- Ha'. reflexivity. }
  rewrite <- Hp, <- Hp'. clear Ha Ha' Hp Hp'. f_equal. f_equal.
  unfold account. rewrite <- (Forall2_length _ _ _ H).
  apply (fold_pass_ext argsort (λ s, input_view (parse_date strptime) s df')
           (λ s, input_view (parse_date strptime) s df)).
  intros [s c] He. simpl. symmetry.
  by eapply input_view_same_mapped.
Qed.

(** * The claims about the identifier assigner *)

(** C4. In every mapped category with D dated and U undated records the
    dated records carry the sequence numbers 1..D, each of them used, in
    ascending order of parsed date (an earlier date has the smaller
    number), and the undated records carry the numbers D+1..D+U, each of
    them used; so every undated number exceeds every dated one. *)
Theorem sequence_numbers_follow_dates strptime argsort g df s c :
  sorts argsort -> (s, c) ∈ sector_mapping ->
  let o := create_unique_ids strptime argsort g df in
  let D := length (filter (dated_in (parse_date strptime) s) df) in
  let U := length (filter (undated_in (parse_date strptime) s) df) in
  (forall p r, df !! p = Some r -> Sector r = Str s ->
     exists i, id_at o p = Some (doc_id_of c i) /\
       (is_Some (parse_date strptime (Date r)) -> 1 <= i <= D) /\
       (parse_date strptime (Date r) = None -> D + 1 <= i <= D + U)) /\
  (forall i, 1 <= i <= D ->
     exists p r, df !! p = Some r /\ dated_in (parse_date strptime) s r /\
       id_at o p = Some (doc_id_of c i)) /\
  (forall i, D + 1 <= i <= D + U ->
     exists p r, df !! p = Some r /\ undated_in (parse_date strptime) s r /\
       id_at o p = Some (doc_id_of c i)) /\
  (forall pa pb ra rb da db ia ib,
     df !! pa = Some ra -> df !! pb = Some rb ->
     Sector ra = Str s -> Sector rb = Str s ->
     parse_date strptime (Date ra) = Some da ->
     parse_date strptime (Date rb) = Some db ->
     date_lt da db ->
     id_at o pa = Some (doc_id_of c ia) -> id_at o pb = Some (doc_id_of c ib) ->
     ia < ib).
Proof.
  intros Hsorts Hsc o D U.
  pose proof (sector_mapping_codes s c Hsc) as Hc.
  set (v := input_view (parse_date strptime) s df).
  assert (HD : length (dated_labels argsort v) = D).
  { unfold v. by rewrite (length_dated_labels argsort Hsorts), length_dated_input_view. }
  split_and!.
  - intros p r Hr Hs.
    destruct (parse_date strptime (Date r)) as [d|] eqn:Hd.
    + destruct (dated_row_id strptime argsort Hsorts g df s c p r d Hsc Hr Hs Hd)
        as (k & _ & Hk & Hid).
      exists (S k). unfold o. rewrite id_at_ids. split_and!; [done| |done].
      intros _. fold D in Hk. lia.
    + destruct (undated_row_id strptime argsort Hsorts g df s c p r Hsc Hr Hs Hd)
        as (k & Hk & Hid).
      exists (S k). unfold o. rewrite id_at_ids. split_and!; [done| |].
      * by intros [? ?].
      * intros _. fold D U in Hk. lia.
  - intros i Hi.
    destruct (sector_order strptime argsort Hsorts g df s c Hsc) as (sh & Hsh & _ & Hnum).
    fold v in Hsh, Hnum.
    destruct (lookup_lt_is_Some_2 (dated_labels argsort v) (i - 1)) as [p Hp]; [lia|].
    assert (Hin : p ∈ (filter dated v).*1).
    { rewrite <- (dated_labels_Permutation argsort Hsorts).
      by eapply list_elem_of_lookup_2. }
    apply list_elem_of_fmap in Hin as ([q e] & -> & Hin).
    apply list_elem_of_filter in Hin as [He Hin].
    apply elem_of_input_view in Hin as (r & Hr & Hs & ->).
    exists q, r. split_and!; [done|by split|].
    replace i with (S (i - 1)) by lia. apply Hnum. by apply lookup_app_l_Some.
  - intros i Hi.
    destruct (sector_order strptime argsort Hsorts g df s c Hsc) as (sh & Hsh & _ & Hnum).
    fold v in Hsh, Hnum.
    assert (HU : length sh = U).
    { rewrite Hsh. unfold v. by rewrite length_undated_input_view. }
    destruct (lookup_lt_is_Some_2 sh (i - D - 1)) as [p Hp]; [lia|].
    assert (Hin : p ∈ undated_labels v).
    { rewrite <- Hsh. by eapply list_elem_of_lookup_2. }
    apply list_elem_of_fmap in Hin as ([q e] & -> & Hin).
    apply list_elem_of_filter in Hin as [He Hin].
    apply elem_of_input_view in Hin as (r & Hr & Hs & ->).
    exists q, r. split_and!; [done|by split|].
    replace i with (S (length (dated_labels argsort v) + (i - D - 1))) by lia.
    apply Hnum. rewrite lookup_app_r by lia.
    by replace (length (dated_labels argsort v) + (i - D - 1) -
                length (dated_labels argsort v)) with (i - D - 1) by lia.
  - intros pa pb ra rb da db ia ib Hra Hrb Hsa Hsb Hda Hdb Hlt Hia Hib.
    destruct (dated_row_id strptime argsort Hsorts g df s c pa ra da Hsc Hra Hsa Hda)
      as (ka & Hka & _ & Hida).
    destruct (dated_row_id strptime argsort Hsorts g df s c pb rb db Hsc Hrb Hsb Hdb)
      as (kb & Hkb & _ & Hidb).
    unfold o in Hia, Hib. rewrite id_at_ids in Hia, Hib.
    rewrite Hida in Hia. rewrite Hidb in Hib.
    injection Hia as Hia. injection Hib as Hib.
    apply doc_id_of_inj in Hia as [_ <-]; [|done|done].
    apply doc_id_of_inj in Hib as [_ <-]; [|done|done].
    fold v in Hka, Hkb.
    assert (Hva : (pa, Some da) ∈ v).
    { apply elem_of_input_view. exists ra. by rewrite Hda. }
    assert (Hvb : (pb, Some db) ∈ v).
    { apply elem_of_input_view. exists rb. by rewrite Hdb. }
    destruct (Nat.lt_trichotomy ka kb) as [?|[->|Hgt]]; [lia| |].
    + exfalso. simplify_eq. by apply (date_lt_irrefl da).
    + exfalso. apply (date_lt_not_le da db Hlt).
      eapply (dated_labels_ascending argsort Hsorts v kb ka pb pa db da);
        eauto using input_view_NoDup.
Qed.

(** C5. Every identifier the assigner produces reads
    [categoryCode.sequence]: the code of the row's category, a dot, and a
    sequence number of at least 1 padded with zeros to three digits and
    never cut (it reads back as the number); and no two rows of the
    returned frame carry the same identifier. Rows of an unmapped category
    carry no identifier (the empty string, see C1). *)
Theorem document_ids_formed_and_unique strptime argsort g df :
  sorts argsort ->
  let o := create_unique_ids strptime argsort g df in
  (forall p a, returned o !! p = Some a -> Document_ID a <> [] ->
     exists s c i, (s, c) ∈ sector_mapping /\ Sector (doc a) = Str s /\ 1 <= i /\
       Document_ID a = dec c ++ dot ++ replicate (3 - length (dec i)) zero ++ dec i /\
       3 <= length (replicate (3 - length (dec i)) zero ++ dec i) /\
       read_dec (replicate (3 - length (dec i)) zero ++ dec i) = Some i) /\
  (forall p q a b, p <> q ->
     returned o !! p = Some a -> returned o !! q = Some b ->
     Document_ID a <> [] -> Document_ID a <> Document_ID b).
Proof.
  intros Hsorts o.
  pose proof (returned_lookup strptime argsort g df) as Hlook.
  pose proof (λ s c p r, mapped_row_id strptime argsort Hsorts g df s c p r) as Hmapped.
  pose proof (λ p r, unmapped_row_blank strptime argsort Hsorts g df p r) as Hblank.
  pose proof (sector_order strptime argsort Hsorts g df) as Horder.
  fold o in Hlook, Hmapped, Hblank, Horder. clearbody o.
  assert (Hid : forall p a, returned o !! p = Some a -> id_at o p = Some (Document_ID a)).
  { intros p a Ha. unfold id_at. by rewrite Ha. }
  split.
  - intros p a Ha Hne.
    pose proof (Hlook p a Ha) as Hr. pose proof (Hid p a Ha) as Hida.
    destruct (mapped_or_unmapped (doc a)) as [(s & c & Hsc & Hs)|Hu].
    + destruct (Hmapped s c p (doc a) Hsc Hr Hs) as (i & Hi & Hidi).
      rewrite Hida in Hidi. injection Hidi as Hidi.
      exists s, c, i. split_and!; [done|done|done|exact Hidi| |].
      * change (replicate _ _ ++ _) with (fmt_03d i).
        rewrite length_fmt_03d. lia.
      * apply (read_dec_fmt_03d i).
    + pose proof (Hblank p (doc a) Hr Hu) as Hb.
      rewrite Hida in Hb. by injection Hb as Hb.
  - intros p q a b Hpq Ha Hb Hne Heq.
    pose proof (Hlook p a Ha) as Hra. pose proof (Hlook q b Hb) as Hrb.
    pose proof (Hid p a Ha) as Hida. pose proof (Hid q b Hb) as Hidb.
    destruct (mapped_or_unmapped (doc a)) as [(s & c & Hsc & Hs)|Hu]; last first.
    { pose proof (Hblank p (doc a) Hra Hu) as H. rewrite Hida in H.
      by injection H as H. }
    destruct (Horder s c Hsc) as (sh & Hsh & Hnd & Hnum).
    pose proof (sector_order_elem strptime argsort Hsorts df s sh p (doc a) Hsh Hra Hs) as Hin.
    apply list_elem_of_lookup in Hin as [k Hk].
    pose proof (Hnum k p Hk) as Hidk. rewrite Hida in Hidk. injection Hidk as Hidk.
    pose proof (sector_mapping_codes s c Hsc) as Hc.
    destruct (mapped_or_unmapped (doc b)) as [(s' & c' & Hsc' & Hs')|Hu].
    + destruct (decide (s = s')) as [<-|Hss].
      * pose proof (sector_order_elem strptime argsort Hsorts df s sh q (doc b) Hsh Hrb Hs')
          as Hin'.
        apply list_elem_of_lookup in Hin' as [k' Hk'].
        pose proof (Hnum k' q Hk') as Hidk'. rewrite Hidb in Hidk'.
        injection Hidk' as Hidk'.
        rewrite Hidk, Hidk' in Heq.
        apply doc_id_of_inj in Heq as [_ [= <-]]; [|done|done].
        rewrite Hk in Hk'. by injection Hk' as Hk'.
      * destruct (Hmapped s' c' q (doc b) Hsc' Hrb Hs') as (i & _ & Hidi).
        rewrite Hidb in Hidi. injection Hidi as Hidi.
        rewrite Hidk, Hidi in Heq.
        pose proof (sector_mapping_codes s' c' Hsc') as Hc'.
        apply doc_id_of_inj in Heq as [<- _]; [|done|done].
        apply Hss. by eapply sector_mapping_code_inj.
    + pose proof (Hblank q (doc b) Hrb Hu) as H. rewrite Hidb in H.
      injection H as H. rewrite <- Heq in H. done.
Qed.

(** C10. The returned frame holds exactly the rows of the input, in the
    input's order and with the six input columns unchanged; a returned row
    consists of those columns and [Document_ID] only, the [Date_parsed]
    helper column being dropped. *)
Theorem returned_rows_are_the_input strptime argsort g df :
  doc <$> returned (create_unique_ids strptime argsort g df) = df /\
  length (returned (create_unique_ids strptime argsort g df)) = length df /\
  forall p r, df !! p = Some r ->
    exists id, returned (create_unique_ids strptime argsort g df) !! p = Some (mkorow r id).
Proof.
  pose proof (returned_docs strptime argsort g df) as H.
  generalize dependent (returned (create_unique_ids strptime argsort g df)).
  intros out H. split_and!; [exact H| |].
  - rewrite <- H. by rewrite length_fmap.
  - intros p r Hr. rewrite <- H in Hr. rewrite list_lookup_fmap in Hr.
    destruct (out !! p) as [[r' id]|]; simplify_eq/=. by exists id.
Qed.

(** C1, as the code has it. A category that is absent from the mapping is
    no error to [create_unique_ids]: it raises nothing and prints nothing
    about such rows (what it prints is the same whatever the rows of
    unmapped categories hold); those rows keep the empty [Document_ID],
    and the rows of every mapped category receive an identifier. *)
Theorem unmapped_category_left_blank strptime argsort g df :
  sorts argsort ->
  let o := create_unique_ids strptime argsort g df in
  (forall p r, df !! p = Some r -> unmapped r -> id_at o p = Some []) /\
  (forall p r s c, df !! p = Some r -> (s, c) ∈ sector_mapping -> Sector r = Str s ->
     exists i, 1 <= i /\ id_at o p = Some (doc_id_of c i)) /\
  (forall df', same_mapped_rows df df' ->
     printed (create_unique_ids strptime argsort g df') = printed o).
Proof.
  intros Hsorts o. split_and!.
  - intros p r. apply (unmapped_row_blank strptime argsort Hsorts g df p r).
  - intros p r s c Hr Hsc Hs.
    apply (mapped_row_id strptime argsort Hsorts g df s c p r Hsc Hr Hs).
  - intros df'. apply printed_same_mapped.
Qed.

(** C2, as the code has it. [create_unique_ids] takes no seed: the shuffle
    draws from the process-wide generator. Whatever the state of that
    generator, a record with a parsed date, and a record of an unmapped
    category, receives the same [Document_ID]; only the identifiers of the
    undated records of a category depend on it. *)
Theorem dated_ids_do_not_depend_on_generator strptime argsort g g' df p r :
  sorts argsort -> df !! p = Some r ->
  is_Some (parse_date strptime (Date r)) \/ unmapped r ->
  id_at (create_unique_ids strptime argsort g df) p =
  id_at (create_unique_ids strptime argsort g' df) p.
Proof.
  intros Hsorts Hr Hcase.
  destruct (mapped_or_unmapped r) as [(s & c & Hsc & Hs)|Hu].
  - destruct Hcase as [[d Hd]|Hu]; [|by destruct (Hu s c Hsc)].
    destruct (dated_row_id strptime argsort Hsorts g df s c p r d Hsc Hr Hs Hd)
      as (k & Hk & _ & Hid).
    destruct (dated_row_id strptime argsort Hsorts g' df s c p r d Hsc Hr Hs Hd)
      as (k' & Hk' & _ & Hid').
    rewrite !id_at_ids, Hid, Hid'.
    assert (k = k') as ->; [|done].
    eapply NoDup_lookup; [|exact Hk|exact Hk'].
    rewrite (dated_labels_Permutation argsort Hsorts).
    eapply sublist_NoDup;
      [apply (input_view_NoDup (parse_date strptime) s df)
      |apply fmap_sublist, sublist_filter].
  - rewrite (unmapped_row_blank strptime argsort Hsorts g df p r Hr Hu).
    by rewrite (unmapped_row_blank strptime argsort Hsorts g' df p r Hr Hu).
Qed.



(** ** Counterexamples *)

Lemma not_reports out category n :
  forallb (λ line, negb (contains category line)) out = true ->
  ~ reports out category n.
Proof.
  intros H (line & Hin & Hc & _).
  rewrite forallb_forall in H. apply list_elem_of_In in Hin.
  specialize (H line Hin). rewrite Hc in H. done.
Qed.

Lemma unmapped_Z : unmapped (a_row "Z" "").
Proof.
  intros s c Hin. unfold sector_mapping in Hin.
  rewrite !elem_of_cons, elem_of_nil in Hin.
  destruct Hin as [H|[H|[H|[H|[H|[]]]]]]; injection H as -> ->;
    intros [= E]; vm_compute in E; discriminate E.
Qed.

(** C1, counterexample. One record of the mapped category Doprava and one
    of a category Z that the mapping lacks: the call returns, and none of
    the lines it prints names Z. *)
Lemma unknown_category_not_reported :
  ~ unknown_category_reported strptime_dmY argsort_stable.
Proof.
  intros H.
  specialize (H [] [a_row "Doprava" "01.01.2020"; a_row "Z" ""] 1 (a_row "Z" "")
                (u "Z") eq_refl eq_refl unmapped_Z).
  revert H. apply not_reports. vm_compute. reflexivity.
Qed.

(** C2, counterexample. Two undated records of one category, the same
    call twice: with the generator in two different states the identifiers
    come out swapped. *)
Lemma ids_depend_on_generator_state :
  ~ ids_fixed_by_arguments strptime_dmY argsort_stable.
Proof.
  intros H.
  specialize (H [a_row "Doprava" ""; a_row "Doprava" ""] [0] [1]).
  vm_compute in H. discriminate H.
Qed.


(** ** The theorems at concrete inputs *)

Lemma sequence_numbers_follow_dates_witness :
  sorts argsort_stable /\ (u "Doprava", 1) ∈ sector_mapping /\
  date_lt (mkdate 2019 6 15) (mkdate 2020 1 1) /\
  id_at (create_unique_ids strptime_dmY argsort_stable [] two_dates) 1 =
    Some (doc_id_of 1 1) /\
  id_at (create_unique_ids strptime_dmY argsort_stable [] two_dates) 0 =
    Some (doc_id_of 1 2) /\
  1 < 2.
Proof.
  split; [apply argsort_stable_sorts|]. split; [left|].
  split; [left; simpl; lia|].
  split; [vm_compute; reflexivity|]. split; [vm_compute; reflexivity|].
  refine (proj2 (proj2 (proj2
    (sequence_numbers_follow_dates strptime_dmY argsort_stable [] two_dates
       (u "Doprava") 1 argsort_stable_sorts _)))
    1 0 (a_row "Doprava" "15.06.2019") (a_row "Doprava" "01.01.2020")
    (mkdate 2019 6 15) (mkdate 2020 1 1) 1 2 _ _ _ _ _ _ _ _ _);
    [ left | reflexivity | reflexivity | reflexivity | reflexivity
    | vm_compute; reflexivity | vm_compute; reflexivity
    | left; simpl; lia
    | vm_compute; reflexivity | vm_compute; reflexivity ].
Defined.

Lemma document_ids_formed_and_unique_witness :
  sorts argsort_stable /\
  Document_ID (mkorow (a_row "Doprava" "01.01.2020") (doc_id_of 1 2)) <>
  Document_ID (mkorow (a_row "Doprava" "15.06.2019") (doc_id_of 1 1)).
Proof.
  split; [apply argsort_stable_sorts|].
  refine (proj2
    (document_ids_formed_and_unique strptime_dmY argsort_stable [] two_dates
       argsort_stable_sorts) 0 1 _ _ _ _ _ _);
    [ lia | vm_compute; reflexivity | vm_compute; reflexivity
    | apply doc_id_of_nonempty ].
Defined.

Lemma unmapped_category_left_blank_witness :
  sorts argsort_stable /\ unmapped (a_row "Z" "") /\
  id_at (create_unique_ids strptime_dmY argsort_stable []
           [a_row "Doprava" "01.01.2020"; a_row "Z" ""]) 1 = Some [].
Proof.
  split; [apply argsort_stable_sorts|]. split; [apply unmapped_Z|].
  refine (proj1
    (unmapped_category_left_blank strptime_dmY argsort_stable []
       [a_row "Doprava" "01.01.2020"; a_row "Z" ""] argsort_stable_sorts)
    1 (a_row "Z" "") _ _);
    [ reflexivity | apply unmapped_Z ].
Defined.

Lemma dated_ids_do_not_depend_on_generator_witness :
  sorts argsort_stable /\
  is_Some (parse_date strptime_dmY (Date (a_row "Doprava" "01.01.2020"))) /\
  id_at (create_unique_ids strptime_dmY argsort_stable [0]
           [a_row "Doprava" "01.01.2020"; a_row "Doprava" ""; a_row "Doprava" ""]) 0 =
  id_at (create_unique_ids strptime_dmY argsort_stable [1]
           [a_row "Doprava" "01.01.2020"; a_row "Doprava" ""; a_row "Doprava" ""]) 0.
Proof.
  split; [apply argsort_stable_sorts|].
  split; [exists (mkdate 2020 1 1); vm_compute; reflexivity|].
  refine (dated_ids_do_not_depend_on_generator strptime_dmY argsort_stable [0] [1]
    [a_row "Doprava" "01.01.2020"; a_row "Doprava" ""; a_row "Doprava" ""]
    0 (a_row "Doprava" "01.01.2020") argsort_stable_sorts _ _);
    [ reflexivity | left; exists (mkdate 2020 1 1); vm_compute; reflexivity ].
Defined.


(** * The claims about the scrapers *)

(** ** The type classifier *)

Lemma first_keyword_label_found keywords text fallback pre kw label post :
  keywords = pre ++ (kw, label) :: post ->
  contains kw text = true ->
  (forall kl, kl ∈ pre -> contains kl.1 text = false) ->
  first_keyword_label keywords text fallback = label.
Proof.
  intros -> Hkw Hpre. unfold first_keyword_label.
  induction pre as [|kl pre IH]; simpl.
  - by rewrite Hkw.
  - rewrite (Hpre kl) by left. apply IH. intros kl' Hin. apply Hpre. by right.
Qed.

Lemma first_keyword_label_none keywords text fallback :
  (forall kl, kl ∈ keywords -> contains kl.1 text = false) ->
  first_keyword_label keywords text fallback = fallback.
Proof.
  intros H. unfold first_keyword_label.
  induction keywords as [|kl keywords IH]; simpl; [done|].
  rewrite (H kl) by left. apply IH. intros kl' Hin. apply H. by right.
Qed.

Lemma truncated_short link_text :
  length link_text <= 50 -> truncated link_text = link_text.
Proof. intros H. unfold truncated. by rewrite decide_False by lia. Qed.

Lemma truncated_long link_text :
  50 < length link_text ->
  truncated link_text = take 50 link_text ++ ellipsis /\
  length (take 50 link_text) = 50.
Proof.
  intros H. unfold truncated. rewrite decide_True by done.
  split; [done|]. rewrite length_take. lia.
Qed.

(** C7. [determine_document_type] lower-cases the link text and the parent
    text joined by a space and returns the label of the first keyword of
    its ordered list that occurs in that text: the position of a keyword
    in the list decides, not where it occurs in the text. When no keyword
    occurs it returns the link text itself, whole when it has at most 50
    characters and otherwise its first 50 characters followed by the
    marker [...]. Both scrapers do so, each with its own list. *)
Theorem determine_document_type_first_keyword lower link_text parent_text :
  let text := lower (link_text ++ space ++ parent_text) in
  determine_document_type lower link_text parent_text =
    first_keyword_label keyword_list text (truncated link_text) /\
  Fixed.determine_document_type lower link_text parent_text =
    first_keyword_label keyword_list_fixed text (truncated link_text) /\
  (forall pre kw label post,
     keyword_list = pre ++ (kw, label) :: post ->
     contains kw text = true ->
     (forall kl, kl ∈ pre -> contains kl.1 text = false) ->
     determine_document_type lower link_text parent_text = label) /\
  ((forall kl, kl ∈ keyword_list -> contains kl.1 text = false) ->
     determine_document_type lower link_text parent_text = truncated link_text) /\
  (length link_text <= 50 -> truncated link_text = link_text) /\
  (50 < length link_text ->
     truncated link_text = take 50 link_text ++ ellipsis /\
     length (take 50 link_text) = 50).
Proof.
  intros text.
  assert (H1 : determine_document_type lower link_text parent_text =
               first_keyword_label keyword_list text (truncated link_text)).
  { unfold determine_document_type, first_keyword_label, keyword_list. fold text.
    cbn [find fst snd].
    repeat (destruct (contains _ text); cbn [orb]; [reflexivity|]).
    reflexivity. }
  split_and!.
  - exact H1.
  - unfold Fixed.determine_document_type, first_keyword_label, keyword_list_fixed.
    fold text. cbn [find fst snd].
    repeat (destruct (contains _ text); cbn [orb]; [reflexivity|]).
    reflexivity.
  - intros pre kw label post Hl Hkw Hpre. rewrite H1.
    by eapply first_keyword_label_found.
  - intros Hnone. rewrite H1. by apply first_keyword_label_none.
  - apply truncated_short.
  - apply truncated_long.
Qed.

(** ** The page walk keeps its records apart *)


Section Walk.
Variable lower : str -> str.
Variable urljoin : str -> str -> res str.
Variable is_digit : N -> bool.
Variable is_space : N -> bool.
Variable is_word : N -> bool.

Abbreviation visit' := (visit lower urljoin is_digit is_space is_word).
Abbreviation visit_all' := (visit_all lower urljoin is_digit is_space is_word).

Lemma walk_inv_start project : walk_inv (mkwalk [] ∅ project).
Proof. split; [constructor|]. intros d Hd. by apply elem_of_nil in Hd. Qed.

Lemma visit_inv sector_name w elem w' :
  walk_inv w -> visit' sector_name w elem = Ok w' -> walk_inv w'.
Proof.
  intros [Hnd Hseen]. unfold visit.
  destruct (name elem).
  - by intros [= <-].
  - destruct (get_text elem) as [t|]; [|done]. simpl. intros [= <-]. by split.
  - destruct (get_text elem) as [t|]; [|done]. simpl.
    destruct (is_pdf_link lower (href elem) t); [|by intros [= <-]].
    destruct (match parent elem with Some p => p | None => Ok [] end) as [pt|]; [|done].
    simpl. destruct (urljoin BASE _) as [url|]; [|done]. simpl.
    destruct (extract_date_and_size _ _ _ elem) as [ds|]; [|done]. simpl.
    case_decide as Hkey; [|by intros [= <-]].
    intros [= <-]. split; simpl.
    + rewrite fmap_app. apply NoDup_app. split_and!; [done| |apply NoDup_singleton].
      intros k Hk Hk'. apply list_elem_of_fmap in Hk as (d & -> & Hd).
      apply list_elem_of_singleton in Hk'.
      specialize (Hseen d Hd). rewrite Hk' in Hseen. by apply Hkey.
    + intros d Hd. apply elem_of_app in Hd as [Hd|Hd].
      * apply elem_of_union_r. by apply Hseen.
      * apply list_elem_of_singleton in Hd as ->. apply elem_of_union_l.
        by apply elem_of_singleton.
Qed.

Lemma visit_all_inv sector_name elems : forall w w',
  walk_inv w -> visit_all' sector_name w elems = Ok w' -> walk_inv w'.
Proof.
  induction elems as [|elem elems IH]; intros w w' Hw; simpl.
  - by intros [= <-].
  - destruct (visit' sector_name w elem) as [w1|] eqn:Hv; [|done]. simpl.
    apply IH. by eapply visit_inv.
Qed.

Lemma scrape_sector_page_cases sector_name page :
  scrape_sector_page lower urljoin is_digit is_space is_word sector_name page = [] \/
  exists resp w,
    page = Ok resp /\
    visit_all' sector_name (mkwalk [] ∅ (u "UNKNOWN_PROJECT")) (find_all resp) = Ok w /\
    scrape_sector_page lower urljoin is_digit is_space is_word sector_name page = rows w.
Proof.
  unfold scrape_sector_page. destruct page as [resp|]; simpl; [|by left].
  case_decide; [by left|].
  destruct (visit_all' _ _ _) as [w|] eqn:Hw; simpl; [|by left].
  right. by exists resp, w.
Qed.

End Walk.

(** C6. Whatever the page, the records [scrape_sector_page] returns have
    pairwise distinct (category, project, url) triples; and a document link
    whose triple is already in [seen] changes nothing: the walk goes on
    from the same state, without a record and without an error. *)
Theorem scrape_sector_page_keys_distinct
    lower urljoin is_digit is_space is_word sector_name :
  (forall page,
     NoDup (key_of <$>
       scrape_sector_page lower urljoin is_digit is_space is_word sector_name page)) /\
  (forall w elem link_text parent_text url ds,
     name elem = a_tag ->
     get_text elem = Ok link_text ->
     is_pdf_link lower (href elem) link_text = true ->
     match parent elem with Some p => p | None => Ok [] end = Ok parent_text ->
     urljoin BASE (default [] (href elem)) = Ok url ->
     extract_date_and_size is_digit is_space is_word elem = Ok ds ->
     (sector_name, last_project_name w, url) ∈ seen w ->
     visit lower urljoin is_digit is_space is_word sector_name w elem = Ok w).
Proof.
  split.
  - intros page.
    destruct (scrape_sector_page_cases lower urljoin is_digit is_space is_word
                sector_name page) as [->|(resp & w & _ & Hw & ->)].
    + constructor.
    + eapply visit_all_inv in Hw; [apply Hw|apply walk_inv_start].
  - intros w elem link_text parent_text url ds Hn Ht Hpdf Hp Hu Hds Hseen.
    unfold visit. rewrite Hn, Ht. simpl. rewrite Hpdf, Hp. simpl.
    rewrite Hu. simpl. rewrite Hds. simpl.
    by rewrite decide_False by (intros Hno; by apply Hno).
Qed.

(** ** The matcher finds exactly the matches of a pattern *)

Lemma last_or_nil prev : last_or prev [] = prev.
Proof. done. Qed.

Lemma last_or_cons prev c m : last_or prev (c :: m) = last_or (Some c) m.
Proof.
  unfold last_or. destruct m as [|d m]; [done|].
  change (last (c :: d :: m)) with (last (d :: m)).
  destruct (last (d :: m)) eqn:H; [done|].
  by apply last_None in H.
Qed.

Lemma last_or_app prev m1 m2 :
  last_or prev (m1 ++ m2) = last_or (last_or prev m1) m2.
Proof.
  revert prev. induction m1 as [|c m1 IH]; intros prev; [done|].
  simpl. by rewrite !last_or_cons, IH.
Qed.

Section MatcherFacts.
Variable is_word : N -> bool.

Lemma matches_split r prev s prev' rest :
  matches is_word r prev s prev' rest ->
  exists m, s = m ++ rest /\ prev' = last_or prev m.
Proof.
  induction 1 as
    [p c s prev Hp
    |r1 r2 prev s prev1 s1 prev2 s2 _ IH1 _ IH2
    |r1 r2 prev s prev' rest _ IH
    |r1 r2 prev s prev' rest _ IH
    |r prev s prev' rest _ IH
    |r prev s
    |p prev s
    |p c prev s prev' rest Hp _ IH
    |prev s Hb].
  - by exists [c].
  - destruct IH1 as (m1 & -> & ->), IH2 as (m2 & -> & ->).
    exists (m1 ++ m2). by rewrite <- app_assoc, last_or_app.
  - done.
  - done.
  - done.
  - by exists [].
  - by exists [].
  - destruct IH as (m & -> & ->). exists (c :: m). by rewrite last_or_cons.
  - by exists [].
Qed.

Lemma star_sound {X} p (k : option N -> str -> option X) s : forall prev x,
  star p k prev s = Some x ->
  exists prev' rest, matches is_word (Star p) prev s prev' rest /\ k prev' rest = Some x.
Proof.
  induction s as [|c s IH]; intros prev x H; simpl in H.
  - exists prev, []. split; [apply matches_star_nil|done].
  - destruct (p c) eqn:Hp.
    + destruct (star p k (Some c) s) as [y|] eqn:Hs.
      * injection H as ->. destruct (IH _ _ Hs) as (prev' & rest & Hm & Hk).
        exists prev', rest. split; [by constructor|done].
      * exists prev, (c :: s). split; [apply matches_star_nil|done].
    + exists prev, (c :: s). split; [apply matches_star_nil|done].
Qed.

Lemma backtrack_sound {X} r : forall (k : option N -> str -> option X) prev s x,
  backtrack is_word r k prev s = Some x ->
  exists prev' rest, matches is_word r prev s prev' rest /\ k prev' rest = Some x.
Proof.
  induction r as [p|r1 IH1 r2 IH2|r1 IH1 r2 IH2|r IH|p|]; intros k prev s x H; simpl in H.
  - destruct s as [|c s]; [done|]. destruct (p c) eqn:Hp; [|done].
    exists (Some c), s. split; [by constructor|done].
  - destruct (IH1 _ _ _ _ H) as (prev1 & s1 & Hm1 & H1).
    destruct (IH2 _ _ _ _ H1) as (prev2 & s2 & Hm2 & H2).
    exists prev2, s2. split; [by econstructor|done].
  - destruct (backtrack is_word r1 k prev s) as [y|] eqn:H1.
    + injection H as ->. destruct (IH1 _ _ _ _ H1) as (prev' & rest & Hm & Hk).
      exists prev', rest. split; [by apply matches_alt_l|done].
    + destruct (IH2 _ _ _ _ H) as (prev' & rest & Hm & Hk).
      exists prev', rest. split; [by apply matches_alt_r|done].
  - destruct (backtrack is_word r k prev s) as [y|] eqn:H1.
    + injection H as ->. destruct (IH _ _ _ _ H1) as (prev' & rest & Hm & Hk).
      exists prev', rest. split; [by apply matches_opt_some|done].
    + exists prev, s. split; [apply matches_opt_none|done].
  - by apply star_sound.
  - destruct (at_boundary is_word prev s) eqn:Hb; [|done].
    exists prev, s. split; [by constructor|done].
Qed.

Lemma backtrack_complete {X} r prev s prev' rest :
  matches is_word r prev s prev' rest ->
  forall (k : option N -> str -> option X),
    is_Some (k prev' rest) -> is_Some (backtrack is_word r k prev s).
Proof.
  induction 1 as
    [p c s prev Hp
    |r1 r2 prev s prev1 s1 prev2 s2 _ IH1 _ IH2
    |r1 r2 prev s prev' rest _ IH
    |r1 r2 prev s prev' rest _ IH
    |r prev s prev' rest _ IH
    |r prev s
    |p prev s
    |p c prev s prev' rest Hp _ IH
    |prev s Hb]; intros k Hk; simpl.
  - by rewrite Hp.
  - apply IH1. by apply IH2.
  - destruct (IH k Hk) as [y ->]. by eexists.
  - destruct (backtrack is_word r1 k prev s); [by eexists|]. by apply IH.
  - destruct (IH k Hk) as [y ->]. by eexists.
  - by destruct (backtrack is_word r k prev s).
  - destruct s as [|c s]; simpl; [done|].
    destruct (p c); [|done]. by destruct (star p k (Some c) s).
  - rewrite Hp. destruct (IH k Hk) as [y Hy].
    change (star p k (Some c) s) with (backtrack is_word (Star p) k (Some c) s).
    rewrite Hy. by eexists.
  - by rewrite Hb.
Qed.

(** [match_here] returns the text of a match that starts here, and finds
    one whenever there is one. *)
Lemma match_here_Some r prev s m :
  match_here is_word r prev s = Some m ->
  exists prev' rest, s = m ++ rest /\ matches is_word r prev s prev' rest.
Proof.
  unfold match_here. intros H.
  destruct (backtrack is_word r _ prev s) as [rest|] eqn:Hb; simplify_eq/=.
  apply backtrack_sound in Hb as (prev' & rest' & Hm & [= ->]).
  destruct (matches_split _ _ _ _ _ Hm) as (m & -> & _).
  exists prev', rest. split; [|done].
  rewrite length_app, Nat.add_sub, take_app_length. done.
Qed.

Lemma match_here_None r prev s prev' rest :
  match_here is_word r prev s = None -> ~ matches is_word r prev s prev' rest.
Proof.
  unfold match_here. intros H Hm.
  destruct (backtrack_complete r prev s prev' rest Hm (λ _ rest, Some rest)) as [y Hy];
    [by eexists|].
  by rewrite Hy in H.
Qed.

(** [search_from] returns a match at the first position that has one. *)
Lemma search_from_Some r s : forall prev m,
  search_from is_word r prev s = Some m ->
  exists pre rest prev',
    s = pre ++ m ++ rest /\
    matches is_word r (last_or prev pre) (m ++ rest) prev' rest /\
    forall pre1 tail1 prev1 rest1,
      s = pre1 ++ tail1 -> matches is_word r (last_or prev pre1) tail1 prev1 rest1 ->
      length pre <= length pre1.
Proof.
  induction s as [|c s IH]; intros prev m H; simpl in H.
  - destruct (match_here is_word r prev []) as [m'|] eqn:Hm; [|done].
    injection H as ->. apply match_here_Some in Hm as (prev' & rest & Hs & Hm).
    exists [], rest, prev'. rewrite <- Hs. split_and!; [done|done|].
    intros. simpl. lia.
  - destruct (match_here is_word r prev (c :: s)) as [m'|] eqn:Hm.
    + injection H as ->. apply match_here_Some in Hm as (prev' & rest & Hs & Hm).
      exists [], rest, prev'. rewrite <- Hs. split_and!; [done|done|].
      intros. simpl. lia.
    + destruct (IH _ _ H) as (pre & rest & prev' & Hs & Hmm & Hfirst).
      exists (c :: pre), rest, prev'. split_and!.
      * by rewrite Hs.
      * by rewrite last_or_cons.
      * intros pre1 tail1 prev1 rest1 Hs1 Hm1.
        destruct pre1 as [|c1 pre1].
        -- simpl in Hs1. subst tail1. by apply (match_here_None _ _ _ _ _ Hm) in Hm1.
        -- injection Hs1 as -> Hs1. rewrite last_or_cons in Hm1.
           specialize (Hfirst pre1 tail1 prev1 rest1 Hs1 Hm1). simpl. lia.
Qed.

Lemma search_from_None r s : forall prev,
  search_from is_word r prev s = None ->
  forall pre tail prev' rest,
    s = pre ++ tail -> ~ matches is_word r (last_or prev pre) tail prev' rest.
Proof.
  induction s as [|c s IH]; intros prev H pre tail prev' rest Hs; simpl in H.
  - destruct (match_here is_word r prev []) eqn:Hm; [done|].
    symmetry in Hs. apply app_nil in Hs as [-> ->].
    by apply match_here_None.
  - destruct (match_here is_word r prev (c :: s)) eqn:Hm; [done|].
    destruct pre as [|c1 pre].
    + simpl in Hs. subst tail. by apply match_here_None.
    + injection Hs as -> Hs. rewrite last_or_cons. by eapply IH.
Qed.
End MatcherFacts.

(** ** What the size pattern matches *)

Section SizePattern.
Variable is_digit : N -> bool.
Variable is_space : N -> bool.
Variable is_word : N -> bool.

Lemma matches_star_iff p prev s prev' rest :
  matches is_word (Star p) prev s prev' rest <->
  exists ws, s = ws ++ rest /\ Forall (λ c, p c = true) ws /\ prev' = last_or prev ws.
Proof.
  split.
  - remember (Star p) as r eqn:Hr. intros H. revert Hr.
    induction H as [| | | | | | q prev s | q c prev s prev' rest Hq _ IH |];
      intros Hr; try discriminate Hr; injection Hr as ->.
    + by exists [].
    + destruct (IH eq_refl) as (ws & -> & Hws & ->).
      exists (c :: ws). split_and!; [done|by constructor|by rewrite last_or_cons].
  - intros (ws & -> & Hws & ->). revert prev.
    induction Hws as [|c ws Hc _ IH]; intros prev; simpl.
    + apply matches_star_nil.
    + rewrite last_or_cons. by apply matches_star_cons.
Qed.

Lemma matches_digits_iff prev s prev' rest :
  matches is_word (digits_re is_digit) prev s prev' rest <->
  exists ds, s = ds ++ rest /\ number is_digit ds /\ prev' = last_or prev ds.
Proof.
  unfold digits_re, digit_re. split.
  - intros H. inversion H as [|? ? ? ? prev1 s1 ? ? H1 H2| | | | | | |]; subst.
    inversion H1; subst.
    apply matches_star_iff in H2 as (ws & -> & Hws & ->).
    exists (c :: ws). split_and!; [done| |by rewrite last_or_cons].
    split; [done|by constructor].
  - intros (ds & -> & [Hne Hds] & ->).
    destruct ds as [|c ds]; [done|]. apply Forall_cons in Hds as [Hc Hds].
    rewrite last_or_cons. simpl. eapply matches_seq; [by constructor|].
    apply matches_star_iff. by exists ds.
Qed.

Lemma matches_chr_iff c prev s prev' rest :
  matches is_word (chr c) prev s prev' rest <-> s = c :: rest /\ prev' = Some c.
Proof.
  unfold chr. split.
  - intros H. inversion H; subst.
    match goal with E : (_ =? _)%N = true |- _ => apply N.eqb_eq in E as -> end. done.
  - intros [-> ->]. constructor. apply N.eqb_refl.
Qed.

Lemma matches_lit_iff l prev s prev' rest :
  l <> [] ->
  matches is_word (lit l) prev s prev' rest <-> s = l ++ rest /\ prev' = last l.
Proof.
  revert prev s. induction l as [|c l IH]; intros prev s Hne; [done|].
  destruct l as [|d l].
  - simpl. apply matches_chr_iff.
  - change (lit (c :: d :: l)) with (Seq (chr c) (lit (d :: l))).
    change (last (c :: d :: l)) with (last (d :: l)). split.
    + intros H. inversion H as [|? ? ? ? prev1 s1 ? ? H1 H2| | | | | | |]; subst.
      apply matches_chr_iff in H1 as [-> ->].
      apply IH in H2 as [-> ->]; done.
    + intros [-> ->]. eapply matches_seq; [by apply matches_chr_iff|].
      by apply IH.
Qed.

Lemma matches_alt_iff r1 r2 prev s prev' rest :
  matches is_word (Alt r1 r2) prev s prev' rest <->
  matches is_word r1 prev s prev' rest \/ matches is_word r2 prev s prev' rest.
Proof.
  split.
  - intros H. inversion H; subst; [by left|by right].
  - intros [H|H]; [by apply matches_alt_l|by apply matches_alt_r].
Qed.

Lemma matches_seq_iff r1 r2 prev s prev' rest :
  matches is_word (Seq r1 r2) prev s prev' rest <->
  exists prev1 s1, matches is_word r1 prev s prev1 s1 /\
                   matches is_word r2 prev1 s1 prev' rest.
Proof.
  split.
  - intros H. inversion H; subst. eauto.
  - intros (prev1 & s1 & H1 & H2). by eapply matches_seq.
Qed.

Lemma matches_opt_iff r prev s prev' rest :
  matches is_word (Opt r) prev s prev' rest <->
  matches is_word r prev s prev' rest \/ (prev' = prev /\ rest = s).
Proof.
  split.
  - intros H. inversion H; subst; [by left|by right].
  - intros [H|[-> ->]]; [by apply matches_opt_some|apply matches_opt_none].
Qed.

Lemma matches_boundary_iff prev s prev' rest :
  matches is_word WordBoundary prev s prev' rest <->
  at_boundary is_word prev s = true /\ prev' = prev /\ rest = s.
Proof.
  split.
  - intros H. by inversion H; subst.
  - intros (H & -> & ->). by constructor.
Qed.

Lemma unit_nonempty unit : unit ∈ units -> unit <> [].
Proof.
  unfold units. rewrite !elem_of_cons, elem_of_nil.
  intros [->|[->|[->|[->|[->|[->|[->|[->|[]]]]]]]]] E;
    vm_compute in E; discriminate E.
Qed.

Lemma matches_unit_iff prev s prev' rest :
  matches is_word unit_re prev s prev' rest <->
  exists unit, unit ∈ units /\ s = unit ++ rest /\ prev' = last unit.
Proof.
  unfold unit_re. rewrite !matches_alt_iff.
  rewrite !matches_lit_iff by (apply unit_nonempty; unfold units; set_solver).
  unfold units. split.
  - intros H.
    repeat (destruct H as [[-> ->]|H]; [eexists; split; [|done]; set_solver|]).
    destruct H as [-> ->]. eexists; split; [|done]. set_solver.
  - intros (unit & Hin & -> & ->).
    rewrite !elem_of_cons, elem_of_nil in Hin.
    destruct Hin as [->|[->|[->|[->|[->|[->|[->|[->|[]]]]]]]]]; tauto.
Qed.
End SizePattern.

Lemma last_or_None pre : last_or None pre = last pre.
Proof. unfold last_or. by destruct (last pre). Qed.

Lemma last_app_nonempty {A} (l1 l2 : list A) : l2 <> [] -> last (l1 ++ l2) = last l2.
Proof.
  intros H. rewrite last_app. destruct (last l2) eqn:E; [done|].
  by apply last_None in E.
Qed.

Section SizeSearch.
Variable is_digit : N -> bool.
Variable is_space : N -> bool.
Variable is_word : N -> bool.

Lemma matches_size_re_iff prev s prev' rest :
  matches is_word (size_re is_digit is_space) prev s prev' rest <->
  exists m, s = m ++ rest /\ size_token is_digit is_space m /\
    at_boundary is_word prev s = true /\
    at_boundary is_word (last m) rest = true /\ prev' = last m.
Proof.
  unfold size_re. split.
  - intros H.
    apply matches_seq_iff in H as (p1 & s1 & Hb & H).
    apply matches_boundary_iff in Hb as (Hb & -> & ->).
    apply matches_seq_iff in H as (p2 & s2 & Hint & H).
    apply matches_digits_iff in Hint as (int & -> & Hint & ->).
    apply matches_seq_iff in H as (p3 & s3 & Hfrac & H).
    apply matches_seq_iff in H as (p4 & s4 & Hws & H).
    apply matches_star_iff in Hws as (ws & -> & Hws & ->).
    apply matches_seq_iff in H as (p5 & s5 & Hunit & He).
    apply matches_unit_iff in Hunit as (unit & Hin & -> & ->).
    apply matches_boundary_iff in He as (He & -> & Hrest). subst s5.
    pose proof (unit_nonempty unit Hin) as Hne.
    assert (exists frac, s2 = frac ++ ws ++ unit ++ rest /\ fraction is_digit frac)
      as (frac & -> & Hf).
    { apply matches_opt_iff in Hfrac as [Hfrac|[-> ->]].
      - apply matches_seq_iff in Hfrac as (p6 & s6 & Hsep & Hds).
        inversion Hsep; subst.
        apply matches_digits_iff in Hds as (ds & -> & Hds & _).
        exists (c :: ds). split; [done|]. right. by exists c, ds.
      - exists []. split; [done|]. by left. }
    exists (int ++ frac ++ ws ++ unit).
    assert (Hlast : last (int ++ frac ++ ws ++ unit) = last unit).
    { by rewrite !app_assoc, last_app_nonempty. }
    rewrite Hlast. split_and!; [by rewrite <- !app_assoc| |done|done|done].
    by exists int, frac, ws, unit.
  - intros (m & -> & (int & frac & ws & unit & -> & Hint & Hfrac & Hws & Hin) & Hb & He & ->).
    pose proof (unit_nonempty unit Hin) as Hne.
    assert (Hlast : last (int ++ frac ++ ws ++ unit) = last unit).
    { by rewrite !app_assoc, last_app_nonempty. }
    rewrite Hlast in He |- *. rewrite <- !app_assoc in Hb |- *.
    apply matches_seq_iff. exists prev, (int ++ frac ++ ws ++ unit ++ rest).
    split; [by apply matches_boundary_iff|].
    apply matches_seq_iff. exists (last_or prev int), (frac ++ ws ++ unit ++ rest).
    split; [apply matches_digits_iff; by exists int|].
    apply matches_seq_iff.
    exists (last_or (last_or prev int) frac), (ws ++ unit ++ rest). split.
    { apply matches_opt_iff. destruct Hfrac as [->|(sep & ds & -> & Hsep & Hds)].
      - by right.
      - left. apply matches_seq_iff. exists (Some sep), (ds ++ ws ++ unit ++ rest).
        split; [by constructor|]. apply matches_digits_iff. exists ds.
        by rewrite last_or_cons. }
    apply matches_seq_iff.
    exists (last_or (last_or (last_or prev int) frac) ws), (unit ++ rest).
    split; [apply matches_star_iff; by exists ws|].
    apply matches_seq_iff. exists (last unit), rest.
    split; [apply matches_unit_iff; by exists unit|].
    by apply matches_boundary_iff.
Qed.

Lemma size_occurs_matches text pre m post :
  size_occurs is_digit is_space is_word text pre m post <->
  text = pre ++ m ++ post /\
  matches is_word (size_re is_digit is_space) (last pre) (m ++ post) (last m) post.
Proof.
  unfold size_occurs, occurs_with. rewrite matches_size_re_iff. split.
  - intros (-> & Htok & Hb & He). split; [done|]. by exists m.
  - intros (-> & m' & Heq & Htok & Hb & He & _).
    apply (inj (.++ post)) in Heq as <-. done.
Qed.
End SizeSearch.

(** C8, as the code has it. The size search returns a size text at the
    first position of the input where one stands between word boundaries,
    and none when there is no such position; a size text being a number, an
    optional part of [.] or [,] and a number, white space, and a unit
    spelled exactly kB, KB, MB, GB, B, kb, mb or gb. *)
Theorem size_search_first_listed_spelling is_digit is_space is_word text :
  (forall m, search is_word (size_re is_digit is_space) text = Some m ->
     exists pre post,
       size_occurs is_digit is_space is_word text pre m post /\
       forall pre1 m1 post1,
         size_occurs is_digit is_space is_word text pre1 m1 post1 ->
         length pre <= length pre1) /\
  (search is_word (size_re is_digit is_space) text = None ->
     forall pre m post, ~ size_occurs is_digit is_space is_word text pre m post) /\
  (forall pre m post,
     size_occurs is_digit is_space is_word text pre m post ->
     is_Some (search is_word (size_re is_digit is_space) text)).
Proof.
  assert (Hnone : search is_word (size_re is_digit is_space) text = None ->
    forall pre m post, ~ size_occurs is_digit is_space is_word text pre m post).
  { intros H pre m post Hocc. apply size_occurs_matches in Hocc as [Ht Hm].
    eapply (search_from_None is_word _ text None H pre (m ++ post)); [done|].
    rewrite last_or_None. exact Hm. }
  split_and!.
  - intros m H. unfold search in H.
    apply search_from_Some in H as (pre & rest & prev' & Ht & Hm & Hfirst).
    rewrite last_or_None in Hm.
    exists pre, rest. split.
    + apply size_occurs_matches. split; [done|].
      pose proof Hm as Hm'. apply matches_size_re_iff in Hm' as (m' & Heq & _ & _ & _ & ->).
      by apply (inj (.++ rest)) in Heq as <-.
    + intros pre1 m1 post1 Hocc. apply size_occurs_matches in Hocc as [Ht1 Hm1].
      eapply (Hfirst pre1 (m1 ++ post1)); [done|]. rewrite last_or_None. exact Hm1.
  - exact Hnone.
  - intros pre m post Hocc.
    destruct (search is_word (size_re is_digit is_space) text) eqn:E; [by eexists|].
    by destruct (Hnone eq_refl pre m post).
Qed.

(** C8, counterexample. The text [5 Mb] is a number, a space and the unit
    MB in another capitalisation, between word boundaries; the search
    finds nothing in it. *)
Lemma size_search_misses_mixed_case :
  ~ recognises_any_capitalisation ascii_digit ascii_space ascii_word.
Proof.
  intros H.
  destruct (H (u "5 Mb") [] (u "5 Mb") []) as [m Hm]; [|vm_compute in Hm; discriminate Hm].
  split_and!; [reflexivity| |reflexivity|reflexivity].
  exists (u "5"), [], (u " "), (u "Mb"). split_and!.
  - reflexivity.
  - split; [discriminate|]. by repeat constructor.
  - by left.
  - by repeat constructor.
  - exists (u "MB"). split; [set_solver|reflexivity].
Qed.

(** ** A read that raises during the page walk *)

Section Failures.
Variable lower : str -> str.
Variable urljoin : str -> str -> res str.
Variable is_digit : N -> bool.
Variable is_space : N -> bool.
Variable is_word : N -> bool.

Lemma read_siblings_raise sibs :
  SibNode Raise ∈ sibs -> read_siblings sibs = Raise.
Proof.
  induction sibs as [|sib sibs IH]; intros H; [by apply elem_of_nil in H|].
  apply elem_of_cons in H as [<-|H]; [done|].
  simpl. destruct (read_sibling sib); [|done]. simpl. by rewrite IH.
Qed.

(** The reads of the siblings are outside the [try] blocks. *)
Lemma extract_date_and_size_sibling_raise anchor :
  SibNode Raise ∈ take 12 (previous_siblings anchor) \/
  SibNode Raise ∈ take 6 (next_siblings anchor) ->
  extract_date_and_size is_digit is_space is_word anchor = Raise.
Proof.
  unfold extract_date_and_size. intros [H|H].
  - by rewrite (read_siblings_raise _ H).
  - destruct (read_siblings (take 12 _)); [|done]. simpl.
    by rewrite (read_siblings_raise _ H).
Qed.

(** The reads of the anchor's own text and of its parent's are inside. *)
Lemma extract_date_and_size_own_text_isolated anchor :
  read_siblings (take 12 (previous_siblings anchor)) <> Raise ->
  read_siblings (take 6 (next_siblings anchor)) <> Raise ->
  extract_date_and_size is_digit is_space is_word anchor <> Raise.
Proof.
  unfold extract_date_and_size. intros Hp Hn.
  destruct (read_siblings (take 12 _)); [|done]. simpl.
  destruct (read_siblings (take 6 _)); [|done]. done.
Qed.

Lemma visit_all_app sector_name elems1 elems2 : forall w,
  visit_all lower urljoin is_digit is_space is_word sector_name w (elems1 ++ elems2) =
  res_bind (visit_all lower urljoin is_digit is_space is_word sector_name w elems1)
    (λ w', visit_all lower urljoin is_digit is_space is_word sector_name w' elems2).
Proof.
  induction elems1 as [|elem elems1 IH]; intros w; simpl; [done|].
  destruct (visit _ _ _ _ _ _ w elem); simpl; [apply IH|done].
Qed.

(** One sibling that raises near one document link empties the page. *)
Lemma sibling_failure_aborts_walk sector_name resp before elem after link_text :
  find_all resp = before ++ elem :: after ->
  name elem = a_tag ->
  get_text elem = Ok link_text ->
  is_pdf_link lower (href elem) link_text = true ->
  SibNode Raise ∈ take 12 (previous_siblings elem) \/
  SibNode Raise ∈ take 6 (next_siblings elem) ->
  scrape_sector_page lower urljoin is_digit is_space is_word sector_name (Ok resp) = [].
Proof.
  intros Hall Hname Htext Hpdf Hsib. unfold scrape_sector_page. simpl.
  case_decide; [done|].
  rewrite Hall, visit_all_app.
  destruct (visit_all _ _ _ _ _ _ _ before) as [w|]; simpl; [|done].
  assert (visit lower urljoin is_digit is_space is_word sector_name w elem = Raise) as ->;
    [|done].
  unfold visit. rewrite Hname, Htext. simpl. rewrite Hpdf.
  destruct (match parent elem with Some p => p | None => Ok [] end); [|done]. simpl.
  destruct (urljoin BASE _); [|done]. simpl.
  by rewrite (extract_date_and_size_sibling_raise elem Hsib).
Qed.

(** So does a heading or a link whose own text cannot be read. *)
Lemma own_text_failure_aborts_walk sector_name resp before elem after :
  find_all resp = before ++ elem :: after ->
  name elem <> h4 -> get_text elem = Raise ->
  scrape_sector_page lower urljoin is_digit is_space is_word sector_name (Ok resp) = [].
Proof.
  intros Hall Hname Htext. unfold scrape_sector_page. simpl.
  case_decide; [done|].
  rewrite Hall, visit_all_app.
  destruct (visit_all _ _ _ _ _ _ _ before) as [w|]; simpl; [|done].
  assert (visit lower urljoin is_digit is_space is_word sector_name w elem = Raise) as ->;
    [|done].
  unfold visit. rewrite Htext. by destruct (name elem).
Qed.
End Failures.

(** C9, the code at a failing input. A page with two document links where
    the node before the second link raises when its text is read: the page
    yields no record at all, the first link's record included. With that
    node readable and empty the same page yields both records. *)
Theorem sibling_read_failure_discards_page :
  scrape_sector_page lower_ascii urljoin_path ascii_digit ascii_space ascii_word
    (u "Doprava") page_with_failing_sibling = [] /\
  scrape_sector_page lower_ascii urljoin_path ascii_digit ascii_space ascii_word
    (u "Doprava") page_all_readable =
    [ mkdocument (u "Doprava") (u "Bridge Project") hodnotenie
        (u "https://www.mfsr.sk/a.pdf") [] (u "2 MB");
      mkdocument (u "Doprava") (u "Bridge Project") stanovisko
        (u "https://www.mfsr.sk/b.pdf") [] [] ].
Proof. split; vm_compute; reflexivity. Qed.

(** ** The theorems about the scrapers at concrete inputs *)

Lemma scrape_sector_page_keys_distinct_witness :
  scrape_sector_page lower_ascii urljoin_path ascii_digit ascii_space ascii_word
    (u "Doprava") page_with_repeated_link =
    [ mkdocument (u "Doprava") (u "Bridge Project") hodnotenie
        (u "https://www.mfsr.sk/a.pdf") [] [] ] /\
  NoDup (key_of <$>
    scrape_sector_page lower_ascii urljoin_path ascii_digit ascii_space ascii_word
      (u "Doprava") page_with_repeated_link).
Proof.
  split; [vm_compute; reflexivity|].
  apply (proj1 (scrape_sector_page_keys_distinct lower_ascii urljoin_path
                  ascii_digit ascii_space ascii_word (u "Doprava"))).
Defined.

Lemma determine_document_type_first_keyword_witness :
  contains zmluva (lower_ascii (u "Dohoda a Zmluva" ++ space ++ [])) = true /\
  contains dohoda (lower_ascii (u "Dohoda a Zmluva" ++ space ++ [])) = true /\
  determine_document_type lower_ascii (u "Dohoda a Zmluva") [] = zmluva.
Proof.
  split; [vm_compute; reflexivity|]. split; [vm_compute; reflexivity|].
  refine (proj1 (proj2 (proj2
    (determine_document_type_first_keyword lower_ascii (u "Dohoda a Zmluva") [])))
    (take 8 keyword_list) zmluva zmluva (drop 9 keyword_list) _ _ _).
  - reflexivity.
  - vm_compute. reflexivity.
  - intros kl Hin. cbn [take keyword_list] in Hin.
    repeat (apply elem_of_cons in Hin as [->|Hin]; [vm_compute; reflexivity|]).
    by apply elem_of_nil in Hin.
Defined.

Lemma size_search_first_listed_spelling_witness :
  search ascii_word (size_re ascii_digit ascii_space) (u "Dokument (PDF, 1,5 MB)") =
    Some (u "1,5 MB") /\
  exists pre post,
    size_occurs ascii_digit ascii_space ascii_word
      (u "Dokument (PDF, 1,5 MB)") pre (u "1,5 MB") post.
Proof.
  split; [vm_compute; reflexivity|].
  destruct (proj1 (size_search_first_listed_spelling ascii_digit ascii_space ascii_word
                     (u "Dokument (PDF, 1,5 MB)")) (u "1,5 MB"))
    as (pre & post & Hocc & _); [vm_compute; reflexivity|].
  by exists pre, post.
Defined.
(** * Further properties of the code

    ** The identifier assigner and its [main] *)

Lemma mapped_not_unmapped r : mapped r <-> ~ unmapped r.
Proof.
  unfold mapped, unmapped. rewrite Exists_exists. split.
  - intros ([s c] & Hin & Hs) H. by apply (H s c Hin).
  - intros H. destruct (mapped_or_unmapped r) as [(s & c & Hin & Hs)|Hu]; [|done].
    by exists (s, c).
Qed.

Lemma filter_length_pointwise {A B} (P : A -> Prop) (Q : B -> Prop)
    `{!forall x, Decision (P x)} `{!forall y, Decision (Q y)} (l : list A) (k : list B) :
  Forall2 (λ x y, P x <-> Q y) l k ->
  length (filter P l) = length (filter Q k).
Proof.
  induction 1 as [|x y l k Hxy _ IH]; [done|].
  rewrite !filter_cons. destruct (decide (P x)) as [Hx|Hx].
  - rewrite decide_True by (by apply Hxy). simpl. by rewrite IH.
  - rewrite decide_False by (by rewrite <- Hxy). done.
Qed.

Section Blank.
Variable strptime : str -> option datetime.
Variable argsort : list datetime -> list nat.
Hypothesis argsort_sorts : sorts argsort.

Lemma blank_iff_unmapped g df p o :
  returned (create_unique_ids strptime argsort g df) !! p = Some o ->
  Document_ID o = [] <-> ~ mapped (doc o).
Proof.
  intros Ho. pose proof (returned_lookup strptime argsort g df p o Ho) as Hr.
  assert (Hid : id_at (create_unique_ids strptime argsort g df) p = Some (Document_ID o)).
  { unfold id_at. by rewrite Ho. }
  destruct (mapped_or_unmapped (doc o)) as [(s & c & Hin & Hs)|Hu].
  - destruct (mapped_row_id strptime argsort argsort_sorts g df s c p (doc o) Hin Hr Hs)
      as (i & _ & Hi).
    rewrite Hid in Hi. injection Hi as Hi. split.
    + intros E. rewrite E in Hi. symmetry in Hi. destruct (doc_id_of_nonempty c i Hi).
    + intros Hn. destruct Hn. apply mapped_not_unmapped. intros Hu. by apply (Hu s c Hin).
  - rewrite (unmapped_row_blank strptime argsort argsort_sorts g df p (doc o) Hr Hu) in Hid.
    injection Hid as <-. split; [|done]. intros _ Hm.
    by apply mapped_not_unmapped in Hm.
Qed.
End Blank.

(** X1. The count "Documents without IDs" that [main] prints after the
    call is the number of input rows whose sector is none of the five
    mapped ones: the rows of mapped sectors all have an identifier, the
    others none. *)
Theorem missing_ids_counts_unmapped_rows strptime argsort g df :
  sorts argsort ->
  missing_ids (returned (create_unique_ids strptime argsort g df)) =
  length (filter (λ r, ~ mapped r) df).
Proof.
  intros Hsorts. unfold missing_ids.
  apply filter_length_pointwise.
  apply Forall2_same_length_lookup. split.
  - rewrite <- (returned_docs strptime argsort g df) at 2. by rewrite length_fmap.
  - intros p o r Ho Hr.
    pose proof (returned_lookup strptime argsort g df p o Ho) as Hr'.
    assert (r = doc o) as -> by congruence.
    by eapply blank_iff_unmapped.
Qed.

(** ** The use of the generator *)

Lemma shuffle_from_gen {A} i : forall (x : list A) g,
  (shuffle_from i x g).2 = drop i g.
Proof.
  induction i as [|i IH]; intros x g; [done|].
  cbn [shuffle_from]. destruct g as [|r g']; cbn [randbelow].
  - rewrite IH. by rewrite !drop_nil.
  - by rewrite IH.
Qed.

Lemma shuffle_gen {A} (x : list A) g : (shuffle x g).2 = drop (length x - 1) g.
Proof. apply shuffle_from_gen. Qed.

Lemma account_gen argsort (vs : str -> view) es : forall a,
  (foldl (λ a e, sector_pass argsort (vs e.1) a e) a es).2 =
  drop (sum_list ((λ e, length (undated_labels (vs e.1)) - 1) <$> es)) a.2.
Proof.
  induction es as [|[s c] es IH]; intros [[l out] g]; [done|].
  cbn [foldl fmap list_fmap sum_list sum_list_with fst]. rewrite IH.
  unfold sector_pass. pose proof (shuffle_gen (undated_labels (vs s)) g) as Hg.
  destruct (shuffle (undated_labels (vs s)) g) as [sh g']. cbn [snd] in Hg |- *.
  rewrite Hg, drop_drop. f_equal; lia.
Qed.

(** X2. One call of [create_unique_ids] advances the global generator by
    a number of draws that depends on the input alone: for each mapped
    sector one draw less than it has undated rows, none for a sector with
    at most one. The dates, the sort and the values drawn have no part in
    it. *)
Theorem generator_advances_by_undated_rows strptime argsort g df :
  gen_after (create_unique_ids strptime argsort g df) =
  drop (draws (parse_date strptime) df) g.
Proof.
  destruct (create_unique_ids_account strptime argsort g df) as [_ Ha].
  cbv zeta in Ha.
  generalize dependent (create_unique_ids strptime argsort g df). intros o Ha.
  apply (f_equal snd) in Ha. cbn [snd] in Ha. rewrite Ha.
  unfold account, draws.
  etrans; [apply (account_gen argsort (λ s, input_view (parse_date strptime) s df))|].
  cbn [snd]. f_equal. f_equal. apply list_fmap_ext. intros i [s c] _. cbn [fst].
  by rewrite length_undated_input_view.
Qed.

(** ** The order of strings *)

Lemma str_lt_irrefl a : str_lt a a = false.
Proof.
  induction a as [|x a IH]; [done|]. simpl.
  rewrite N.ltb_irrefl, N.eqb_refl, IH. done.
Qed.

Lemma str_lt_trans a : forall b c,
  str_lt a b = true -> str_lt b c = true -> str_lt a c = true.
Proof.
  induction a as [|x a IH]; intros [|y b] [|z c]; simpl; try done.
  rewrite !orb_true_iff, !andb_true_iff, !N.ltb_lt, !N.eqb_eq.
  intros [Hxy|[-> Hab]] [Hyz|[-> Hbc]].
  - left. lia.
  - by left.
  - by left.
  - right. split; [done|]. by eapply IH.
Qed.

Lemma str_lt_total a : forall b, str_lt a b = true \/ a = b \/ str_lt b a = true.
Proof.
  induction a as [|x a IH]; intros [|y b]; simpl; [by right; left|by left|by right; right|].
  rewrite !orb_true_iff, !andb_true_iff, !N.ltb_lt, !N.eqb_eq.
  destruct (N.lt_trichotomy x y) as [H|[->|H]]; [by left; left| |by right; right; left].
  destruct (IH b) as [H|[->|H]]; [left; by right|right; by left|right; right; by right].
Qed.

Lemma str_lt_asym a b : str_lt a b = true -> str_lt b a = false.
Proof.
  intros H. destruct (str_lt b a) eqn:E; [|done].
  by rewrite <- (str_lt_irrefl a), <- (str_lt_trans a b a H E).
Qed.

Lemma str_lt_app p a b : str_lt (p ++ a) (p ++ b) = str_lt a b.
Proof.
  induction p as [|x p IH]; [done|]. simpl.
  by rewrite N.ltb_irrefl, N.eqb_refl, IH.
Qed.

(** [b] is not below [a], and [a] not below [c]: [b] is not below [c]. *)
Lemma str_not_lt_trans a b c :
  str_lt b a = false -> str_lt a c = false -> str_lt b c = false.
Proof.
  intros Hba Hac. destruct (str_lt b c) eqn:Hbc; [|done].
  destruct (str_lt_total a c) as [H|[->|H]].
  - by rewrite H in Hac.
  - by rewrite Hbc in Hba.
  - by rewrite (str_lt_trans b c a Hbc H) in Hba.
Qed.

Lemma fold_min_spec rest : forall acc,
  let m := foldl (λ m y, if str_lt y m then y else m) acc rest in
  m ∈ acc :: rest /\ forall x, x ∈ acc :: rest -> str_lt x m = false.
Proof.
  induction rest as [|y rest IH]; intros acc; cbn [foldl].
  - split; [left|]. intros x Hx. apply list_elem_of_singleton in Hx as ->.
    apply str_lt_irrefl.
  - cbv zeta in IH.
    destruct (str_lt y acc) eqn:Hy.
    + destruct (IH y) as [Hin Hmin]. split; [by right|].
      intros x Hx. apply elem_of_cons in Hx as [->|Hx]; [|by apply Hmin].
      apply (str_not_lt_trans y); [by apply str_lt_asym|]. apply Hmin. left.
    + destruct (IH acc) as [Hin Hmin]. split.
      * apply elem_of_cons in Hin as [->|Hin]; [left|right; by right].
      * intros x Hx. apply elem_of_cons in Hx as [->|Hx]; [apply Hmin; left|].
        apply elem_of_cons in Hx as [->|Hx]; [|apply Hmin; by right].
        apply (str_not_lt_trans acc); [done|]. apply Hmin. left.
Qed.

Lemma fold_max_spec rest : forall acc,
  let m := foldl (λ m y, if str_lt m y then y else m) acc rest in
  m ∈ acc :: rest /\ forall x, x ∈ acc :: rest -> str_lt m x = false.
Proof.
  induction rest as [|y rest IH]; intros acc; cbn [foldl].
  - split; [left|]. intros x Hx. apply list_elem_of_singleton in Hx as ->.
    apply str_lt_irrefl.
  - cbv zeta in IH.
    destruct (str_lt acc y) eqn:Hy.
    + destruct (IH y) as [Hin Hmax]. split; [by right|].
      intros x Hx. apply elem_of_cons in Hx as [->|Hx]; [|by apply Hmax].
      apply (str_not_lt_trans y); [apply Hmax; left|by apply str_lt_asym].
    + destruct (IH acc) as [Hin Hmax]. split.
      * apply elem_of_cons in Hin as [->|Hin]; [left|right; by right].
      * intros x Hx. apply elem_of_cons in Hx as [->|Hx]; [apply Hmax; left|].
        apply elem_of_cons in Hx as [->|Hx]; [|apply Hmax; by right].
        apply (str_not_lt_trans acc); [apply Hmax; left|done].
Qed.

(** The least and the greatest value are what [min] and [max] return. *)
Lemma series_min_least values m :
  m ∈ values -> (forall x, x ∈ values -> str_lt x m = false) ->
  series_min values = Some m.
Proof.
  destruct values as [|v rest]; [by intros H; apply elem_of_nil in H|].
  intros Hm Hleast. cbn [series_min]. f_equal.
  destruct (fold_min_spec rest v) as [Hin Hmin].
  set (r := foldl _ v rest) in *.
  destruct (str_lt_total r m) as [H|[H|H]]; [|done|].
  - by rewrite (Hleast r Hin) in H.
  - by rewrite (Hmin m Hm) in H.
Qed.

Lemma series_max_greatest values m :
  m ∈ values -> (forall x, x ∈ values -> str_lt m x = false) ->
  series_max values = Some m.
Proof.
  destruct values as [|v rest]; [by intros H; apply elem_of_nil in H|].
  intros Hm Hgreatest. cbn [series_max]. f_equal.
  destruct (fold_max_spec rest v) as [Hin Hmax].
  set (r := foldl _ v rest) in *.
  destruct (str_lt_total r m) as [H|[H|H]]; [|done|].
  - by rewrite (Hmax m Hm) in H.
  - by rewrite (Hgreatest r Hin) in H.
Qed.

(** ** Three-digit numbers in the order of strings *)

Lemma fmt_03d_next k : 1 <= k < 999 -> str_lt (fmt_03d k) (fmt_03d (S k)) = true.
Proof.
  intros Hk.
  assert (Hall : forallb (λ k, str_lt (fmt_03d k) (fmt_03d (S k))) (seq 1 998) = true)
    by (vm_compute; reflexivity).
  rewrite forallb_forall in Hall. apply Hall. apply in_seq. lia.
Qed.

Lemma fmt_03d_mono k n : 1 <= k -> k < n -> n <= 999 ->
  str_lt (fmt_03d k) (fmt_03d n) = true.
Proof.
  intros Hk Hkn. induction Hkn as [|n Hkn IH]; intros Hn.
  - apply fmt_03d_next. lia.
  - eapply str_lt_trans; [apply IH; lia|]. apply fmt_03d_next. lia.
Qed.

Lemma fmt_03d_four_digits k : 1000 <= k <= 1999 ->
  str_lt (fmt_03d k) (fmt_03d 1) = false /\ str_lt (fmt_03d 999) (fmt_03d k) = false.
Proof.
  intros Hk.
  assert (Hall : forallb (λ k, negb (str_lt (fmt_03d k) (fmt_03d 1)) &&
                               negb (str_lt (fmt_03d 999) (fmt_03d k)))
                   (seq 1000 1000) = true)
    by (vm_compute; reflexivity).
  rewrite forallb_forall in Hall. specialize (Hall k).
  rewrite andb_true_iff, !negb_true_iff in Hall. apply Hall. apply in_seq. lia.
Qed.

Lemma doc_id_of_lt c i j : str_lt (doc_id_of c i) (doc_id_of c j) = str_lt (fmt_03d i) (fmt_03d j).
Proof. unfold doc_id_of. by rewrite !str_lt_app. Qed.

(** ** The identifiers of one sector *)

Lemma omap_ext_Forall {A B} (f g : A -> option B) l :
  Forall (λ x, f x = g x) l -> omap f l = omap g l.
Proof.
  induction 1 as [|x l Hx _ IH]; [done|]. cbn [omap list_omap]. rewrite Hx.
  destruct (g x); [f_equal|]; exact IH.
Qed.

Lemma omap_numbered {B} (f : nat -> option B) (g : nat -> B) order : forall j,
  (forall k p, order !! k = Some p -> f p = Some (g (j + k))) ->
  omap f order = g <$> seq j (length order).
Proof.
  induction order as [|p order IH]; intros j H; [done|].
  cbn [omap list_omap length seq fmap list_fmap].
  rewrite (H 0 p eq_refl), Nat.add_0_r. f_equal.
  apply IH. intros k q Hk. rewrite (H (S k) q Hk).
  by replace (j + S k) with (S j + k) by lia.
Qed.

Lemma sector_rows_by_position parse s (ret : list orow) : forall a,
  filter (λ o, Sector (doc o) = Str s) ret =
  omap (λ p, ret !! (p - a))
    (sector_view s (imap (λ i r, (a + i, r, parse (Date r))) (doc <$> ret))).*1.
Proof.
  induction ret as [|o ret IH]; intros a; [done|].
  rewrite fmap_cons, imap_cons.
  rewrite (imap_ext _ (λ i r, (S a + i, r, parse (Date r))) (doc <$> ret))
    by (intros; simpl; do 2 f_equal; lia).
  pose proof (input_view_shifted parse s (doc <$> ret) (S a)) as Hv.
  cbv zeta in Hv. destruct Hv as (_ & Hge & _).
  assert (Hrest :
    omap (λ p, (o :: ret) !! (p - a))
      (sector_view s (imap (λ i r, (S a + i, r, parse (Date r))) (doc <$> ret))).*1 =
    filter (λ o, Sector (doc o) = Str s) ret).
  { rewrite (IH (S a)). apply omap_ext_Forall.
    eapply Forall_impl; [exact Hge|]. intros p Hp. cbv beta in Hp |- *.
    replace (p - a) with (S (p - S a)) by lia. done. }
  unfold sector_view in *. rewrite !filter_cons. cbn [fst snd].
  case_decide as Hs.
  - rewrite !fmap_cons. cbn [omap list_omap fst snd].
    replace (a + 0 - a) with 0 by lia. cbn [lookup list_lookup]. by rewrite Hrest.
  - by rewrite Hrest.
Qed.

Lemma length_input_view parse s df :
  length (input_view parse s df) = length (filter (λ r, Sector r = Str s) df).
Proof.
  unfold input_view, sector_view. rewrite length_fmap.
  assert (H : forall a,
    length (filter (λ x : nat * row * option datetime, Sector x.1.2 = Str s)
              (imap (λ i r, (a + i, r, parse (Date r))) df)) =
    length (filter (λ r, Sector r = Str s) df)); [|apply (H 0)].
  induction df as [|r df IH]; intros a; [done|].
  rewrite imap_cons, !filter_cons. cbn [fst snd].
  rewrite (imap_ext _ (λ i r, (S a + i, r, parse (Date r))) df)
    by (intros; simpl; do 2 f_equal; lia).
  case_decide; cbn [length]; by rewrite (IH (S a)).
Qed.

Section SectorIdentifiers.
Variable strptime : str -> option datetime.
Variable argsort : list datetime -> list nat.
Hypothesis argsort_sorts : sorts argsort.

(** The identifiers of the rows of a mapped sector are the numbers 1 to
    the size of the sector, each once. *)
Lemma sector_identifiers g df s c :
  (s, c) ∈ sector_mapping ->
  Document_ID <$> filter (λ o, Sector (doc o) = Str s)
                    (returned (create_unique_ids strptime argsort g df)) ≡ₚ
  doc_id_of c <$> seq 1 (length (filter (λ r, Sector r = Str s) df)).
Proof.
  intros Hsc.
  destruct (sector_order strptime argsort argsort_sorts g df s c Hsc)
    as (sh & Hsh & _ & Hnum).
  pose proof (returned_docs strptime argsort g df) as Hdocs.
  generalize dependent (create_unique_ids strptime argsort g df).
  intros o Hnum Hdocs. unfold id_at in Hnum.
  generalize dependent (returned o). intros ret Hnum Hdocs.
  pose proof (order_Permutation argsort argsort_sorts
                (input_view (parse_date strptime) s df) sh Hsh) as Hperm.
  rewrite (sector_rows_by_position (parse_date strptime) s ret 0), Hdocs.
  change (sector_view s (imap (λ i r, (0 + i, r, parse_date strptime (Date r))) df))
    with (input_view (parse_date strptime) s df).
  rewrite list_fmap_omap, <- Hperm.
  rewrite (omap_numbered _ (λ k, doc_id_of c (S k)) _ 0).
  - rewrite <- fmap_S_seq, <- list_fmap_compose.
    rewrite (Permutation_length Hperm), length_fmap, length_input_view. done.
  - intros k p Hk. rewrite Nat.sub_0_r. cbn [Nat.add]. exact (Hnum k p Hk).
Qed.

Lemma sector_identifiers_range g df s c x :
  (s, c) ∈ sector_mapping ->
  x ∈ Document_ID <$> filter (λ o, Sector (doc o) = Str s)
                        (returned (create_unique_ids strptime argsort g df)) <->
  exists k, 1 <= k <= length (filter (λ r, Sector r = Str s) df) /\ x = doc_id_of c k.
Proof.
  intros Hsc. rewrite (sector_identifiers g df s c Hsc), list_elem_of_fmap.
  split.
  - intros (k & -> & Hk). apply elem_of_seq in Hk. exists k. split; [lia|done].
  - intros (k & Hk & ->). exists k. split; [done|]. apply elem_of_seq. lia.
Qed.

Lemma id_range_line_of g df s c lo hi :
  (s, c) ∈ sector_mapping ->
  1 <= lo <= length (filter (λ r, Sector r = Str s) df) ->
  1 <= hi <= length (filter (λ r, Sector r = Str s) df) ->
  (forall k, 1 <= k <= length (filter (λ r, Sector r = Str s) df) ->
     str_lt (fmt_03d k) (fmt_03d lo) = false /\ str_lt (fmt_03d hi) (fmt_03d k) = false) ->
  id_range_line (returned (create_unique_ids strptime argsort g df)) s =
  Some (s ++ u ": " ++ doc_id_of c lo ++ u " to " ++ doc_id_of c hi ++ u " (" ++
        dec (length (filter (λ r, Sector r = Str s) df)) ++ u " documents)").
Proof.
  intros Hsc Hlo Hhi Hall. unfold id_range_line. cbv zeta.
  pose proof (sector_identifiers g df s c Hsc) as Hperm.
  pose proof (λ x, sector_identifiers_range g df s c x Hsc) as Hrange.
  generalize dependent (Document_ID <$> filter (λ o, Sector (doc o) = Str s)
                          (returned (create_unique_ids strptime argsort g df))).
  intros sector_data Hperm Hrange.
  rewrite (series_min_least sector_data (doc_id_of c lo)).
  - rewrite (series_max_greatest sector_data (doc_id_of c hi)).
    + cbn [mbind option_bind]. do 7 f_equal.
      by rewrite (Permutation_length Hperm), length_fmap, length_seq.
    + apply Hrange. by exists hi.
    + intros x Hx. apply Hrange in Hx as (k & Hk & ->).
      rewrite doc_id_of_lt. by apply Hall.
  - apply Hrange. by exists lo.
  - intros x Hx. apply Hrange in Hx as (k & Hk & ->).
    rewrite doc_id_of_lt. by apply Hall.
Qed.

End SectorIdentifiers.

Lemma fmt_03d_not_below k n : 1 <= k -> k <= n -> n <= 999 ->
  str_lt (fmt_03d n) (fmt_03d k) = false.
Proof.
  intros Hk Hkn Hn. destruct (decide (k = n)) as [->|Hne]; [apply str_lt_irrefl|].
  apply str_lt_asym, fmt_03d_mono; lia.
Qed.

(** X3. For a mapped sector of at most 999 documents, the line of "ID
    ranges by sector" that [main] prints shows the first and the last
    identifier of the sector, [code.001] and [code.n], and the number of
    its documents; [min] and [max] compare the identifiers as strings,
    which agrees with their numbers as long as these have three digits.
    No line is printed for a sector without documents. *)
Theorem id_range_line_three_digits strptime argsort g df s c :
  sorts argsort -> (s, c) ∈ sector_mapping ->
  (length (filter (λ r, Sector r = Str s) df) = 0 ->
   id_range_line (returned (create_unique_ids strptime argsort g df)) s = None) /\
  (1 <= length (filter (λ r, Sector r = Str s) df) <= 999 ->
   id_range_line (returned (create_unique_ids strptime argsort g df)) s =
   Some (s ++ u ": " ++ doc_id_of c 1 ++ u " to " ++
         doc_id_of c (length (filter (λ r, Sector r = Str s) df)) ++ u " (" ++
         dec (length (filter (λ r, Sector r = Str s) df)) ++ u " documents)")).
Proof.
  intros Hsorts Hsc. split.
  - intros Hn. unfold id_range_line. cbv zeta.
    pose proof (sector_identifiers strptime argsort Hsorts g df s c Hsc) as Hperm.
    rewrite Hn in Hperm. apply Permutation_nil_r in Hperm. by rewrite Hperm.
  - intros Hn. apply id_range_line_of; [done|done|lia|lia|].
    intros k Hk. split; apply fmt_03d_not_below; lia.
Qed.

(** X4. For a mapped sector of 1000 to 1999 documents the same line shows
    [code.999] as the upper end, although identifiers up to [code.n] were
    assigned: as strings, the four-digit numbers that begin with 1 stand
    between 001 and 999. *)
Theorem id_range_line_four_digits strptime argsort g df s c :
  sorts argsort -> (s, c) ∈ sector_mapping ->
  1000 <= length (filter (λ r, Sector r = Str s) df) <= 1999 ->
  id_range_line (returned (create_unique_ids strptime argsort g df)) s =
  Some (s ++ u ": " ++ doc_id_of c 1 ++ u " to " ++ doc_id_of c 999 ++ u " (" ++
        dec (length (filter (λ r, Sector r = Str s) df)) ++ u " documents)").
Proof.
  intros Hsorts Hsc Hn. apply id_range_line_of; [done|done|lia|lia|].
  intros k Hk. destruct (decide (k <= 999)) as [Hk9|Hk9].
  - split; apply fmt_03d_not_below; lia.
  - apply fmt_03d_four_digits. lia.
Qed.

Lemma input_view_same_sector parse s (df df' : list row) :
  same_sector_rows s df df' -> input_view parse s df = input_view parse s df'.
Proof.
  unfold input_view.
  assert (H : forall a, same_sector_rows s df df' ->
    sector_view s (imap (λ i r, (a + i, r, parse (Date r))) df) =
    sector_view s (imap (λ i r, (a + i, r, parse (Date r))) df')); [|apply (H 0)].
  intros a Hsame. revert a.
  induction Hsame as [|r r' df df' Hr _ IH]; intros a; [done|].
  rewrite !imap_cons.
  rewrite (imap_ext _ (λ i r, (S a + i, r, parse (Date r))) df)
    by (intros; simpl; do 2 f_equal; lia).
  rewrite (imap_ext _ (λ i r, (S a + i, r, parse (Date r))) df')
    by (intros; simpl; do 2 f_equal; lia).
  unfold sector_view in *.
  destruct Hr as [<-|[Hu Hu']].
  - destruct (decide (Sector r = Str s)).
    + rewrite !filter_cons_True by done. rewrite !fmap_cons. by rewrite IH.
    + rewrite !filter_cons_False by done. apply IH.
  - rewrite !filter_cons_False by done. apply IH.
Qed.

(** X21. The identifier of a dated row of a mapped sector depends on the
    rows of its own sector alone: with the rows of that sector the same, at
    the same positions, the row gets the same identifier whatever the other
    rows hold and whatever the state of the generator. *)
Theorem dated_ids_depend_on_own_sector strptime argsort g g' df df' s c p r d :
  sorts argsort -> (s, c) ∈ sector_mapping -> same_sector_rows s df df' ->
  df !! p = Some r -> Sector r = Str s -> parse_date strptime (Date r) = Some d ->
  id_at (create_unique_ids strptime argsort g df) p =
  id_at (create_unique_ids strptime argsort g' df') p.
Proof.
  intros Hsorts Hsc Hsame Hr Hs Hd.
  assert (Hr' : df' !! p = Some r).
  { destruct (Forall2_lookup_l _ _ _ _ _ Hsame Hr) as (r' & Hr' & [<-|[Hno _]]); done. }
  destruct (dated_row_id strptime argsort Hsorts g df s c p r d Hsc Hr Hs Hd)
    as (k & Hk & _ & Hid).
  destruct (dated_row_id strptime argsort Hsorts g' df' s c p r d Hsc Hr' Hs Hd)
    as (k' & Hk' & _ & Hid').
  rewrite !id_at_ids, Hid, Hid'. do 2 f_equal.
  rewrite <- (input_view_same_sector (parse_date strptime) s df df' Hsame) in Hk'.
  destruct (sector_order strptime argsort Hsorts g df s c Hsc) as (sh & _ & Hnd & _).
  apply NoDup_app in Hnd as (Hnd & _).
  f_equal. by eapply NoDup_lookup.
Qed.

(** ** The lines printed for the assignments *)

Lemma lines_from_lookup what c labels : forall i k p,
  labels !! k = Some p ->
  (u "    Assigned " ++ doc_id_of c (i + k) ++ what ++ dec p) ∈ lines_from what c i labels.
Proof.
  induction labels as [|q labels IH]; intros i k p Hk; [done|].
  cbn [lines_from]. destruct k as [|k]; simplify_eq/=.
  - rewrite Nat.add_0_r. left.
  - right. replace (i + S k) with (S i + k) by lia. by apply IH.
Qed.

Lemma sector_lines_lookup s c n dl sh k p :
  n <> 0 -> (dl ++ sh) !! k = Some p ->
  assigned_line (doc_id_of c (S k)) (bool_decide (k < length dl)) p ∈
    sector_lines s c n dl sh.
Proof.
  intros Hn Hk. unfold sector_lines, assigned_line.
  rewrite decide_False by done. right. right. apply elem_of_app.
  case_bool_decide as Hlt.
  - left. rewrite lookup_app_l in Hk by done.
    by apply (lines_from_lookup _ c dl 1 k p).
  - right. rewrite lookup_app_r in Hk by lia.
    replace (S k) with (S (length dl) + (k - length dl)) by lia.
    by apply lines_from_lookup.
Qed.

Section AccountLines.
Variable argsort : list datetime -> list nat.
Variable vs : str -> view.

Lemma account_out_grows es : forall a x,
  x ∈ a.1.2 -> x ∈ (foldl (λ a e, sector_pass argsort (vs e.1) a e) a es).1.2.
Proof.
  induction es as [|[s c] es IH]; intros [[l out] g] x Hx; [done|].
  cbn [foldl fst]. apply IH. unfold sector_pass.
  destruct (shuffle (undated_labels (vs s)) g) as [sh g']. cbn [fst snd] in *.
  apply elem_of_app. by left.
Qed.

Hypothesis argsort_sorts : sorts argsort.
Variable n : nat.
Hypothesis vs_NoDup : forall s, NoDup (vs s).*1.
Hypothesis vs_bound : forall s p, p ∈ (vs s).*1 -> p < n.
Hypothesis vs_disjoint : forall s s' p, p ∈ (vs s).*1 -> p ∈ (vs s').*1 -> s = s'.

(** The order along which a sector is numbered is the one its lines were
    printed for. *)
Lemma account_logged es : forall a,
  NoDup es.*1 -> length a.1.1 = n ->
  let a' := foldl (λ a e, sector_pass argsort (vs e.1) a e) a es in
  forall s c, (s, c) ∈ es ->
    exists sh, sh ≡ₚ undated_labels (vs s) /\
      numbered c (dated_labels argsort (vs s) ++ sh) a'.1.1 /\
      forall x, x ∈ sector_lines s c (length (vs s)) (dated_labels argsort (vs s)) sh ->
                x ∈ a'.1.2.
Proof.
  induction es as [|[s c] es IH]; intros a Hnd Hl; cbv zeta.
  - intros s c H. by apply elem_of_nil in H.
  - rewrite fmap_cons in Hnd. apply NoDup_cons in Hnd as [Hs Hnd].
    cbn [foldl fst].
    destruct (sector_pass_ids argsort argsort_sorts vs n vs_NoDup vs_bound a s c Hl)
      as (H1 & _ & _). cbv zeta in H1.
    intros s' c' He. apply elem_of_cons in He as [[= -> ->]|He].
    2:{ by apply (IH _ Hnd H1). }
    destruct (account_ids argsort argsort_sorts vs n vs_NoDup vs_bound vs_disjoint es
                (sector_pass argsort (vs s) a (s, c)) Hnd H1) as (_ & G2 & _).
    cbv zeta in G2.
    assert (Hhead : exists sh, sh ≡ₚ undated_labels (vs s) /\
      numbered c (dated_labels argsort (vs s) ++ sh)
        (sector_pass argsort (vs s) a (s, c)).1.1 /\
      forall x, x ∈ sector_lines s c (length (vs s)) (dated_labels argsort (vs s)) sh ->
                x ∈ (sector_pass argsort (vs s) a (s, c)).1.2).
    { destruct a as [[l out] g]. unfold sector_pass. cbn [fst snd] in Hl.
      pose proof (shuffle_Permutation (undated_labels (vs s)) g) as Hsh.
      destruct (shuffle (undated_labels (vs s)) g) as [sh g']. cbn [fst snd] in *.
      pose proof (order_Permutation argsort argsort_sorts (vs s) sh Hsh) as Hperm.
      exists sh. split_and!; [done| |].
      - intros k p Hk.
        apply (assign_from_lookup c _ 1 l k p); [by rewrite Hperm| |done].
        intros q Hq. rewrite Hperm in Hq. rewrite Hl. by eapply vs_bound.
      - intros x Hx. apply elem_of_app. by right. }
    destruct Hhead as (sh & Hsh & Hnum & Hlines). exists sh. split_and!; [done| |].
    + intros k p Hk. rewrite G2; [by apply Hnum|].
      intros [s' c'] He Hin. cbn [fst] in Hin.
      assert (p ∈ (vs s).*1) as Hps.
      { rewrite <- (order_Permutation argsort argsort_sorts (vs s) sh Hsh).
        by eapply list_elem_of_lookup_2. }
      pose proof (vs_disjoint _ _ _ Hps Hin) as ->.
      apply Hs. apply list_elem_of_fmap. by exists (s', c').
    + intros x Hx. apply account_out_grows. by apply Hlines.
Qed.

End AccountLines.

(** X22. Every row of a mapped sector is reported: the lines printed hold
    the line "    Assigned <id> to document with date at index <p>" for a
    row at position [p] whose date was parsed, "... without date ..." for
    one whose date was not, with the identifier that the returned frame has
    at [p]. *)
Theorem assignments_are_logged strptime argsort g df s c p r :
  sorts argsort -> (s, c) ∈ sector_mapping ->
  df !! p = Some r -> Sector r = Str s ->
  exists doc_id,
    id_at (create_unique_ids strptime argsort g df) p = Some doc_id /\
    assigned_line doc_id (bool_decide (is_Some (parse_date strptime (Date r)))) p ∈
      printed (create_unique_ids strptime argsort g df).
Proof.
  intros Hsorts Hsc Hr Hs.
  destruct (create_unique_ids_account strptime argsort g df) as [_ Ha].
  cbv zeta in Ha. rewrite id_at_ids.
  generalize dependent (create_unique_ids strptime argsort g df). intros o Ha.
  pose proof (f_equal (λ a, a.1.1) Ha) as Hids.
  pose proof (f_equal (λ a, a.1.2) Ha) as Hout. cbn [fst snd] in Hids, Hout.
  rewrite Hids, Hout. clear Ha Hids Hout o.
  set (vs := λ s, input_view (parse_date strptime) s df).
  destruct (account_logged argsort vs Hsorts (length df)
              (λ s, input_view_NoDup _ s df)
              (λ s p, input_view_bound _ s df p)
              (λ s s' p, input_view_disjoint _ s s' df p)
              sector_mapping (replicate (length df) [], [], g)
              sector_mapping_NoDup (length_replicate _ _) s c Hsc)
    as (sh & Hsh & Hnum & Hlines).
  fold (account argsort vs (length df) g) in Hnum, Hlines.
  assert (Hin : p ∈ dated_labels argsort (vs s) ++ sh).
  { rewrite (order_Permutation argsort Hsorts _ sh Hsh).
    apply input_view_label. eauto. }
  apply list_elem_of_lookup in Hin as [k Hk].
  exists (doc_id_of c (S k)). split; [by apply Hnum|].
  apply Hlines.
  assert (Hne : length (vs s) <> 0).
  { assert (p ∈ (vs s).*1) as Hp by (apply input_view_label; eauto).
    intros Hz. apply nil_length_inv in Hz. rewrite Hz in Hp. by apply elem_of_nil in Hp. }
  replace (bool_decide (is_Some (parse_date strptime (Date r))))
    with (bool_decide (k < length (dated_labels argsort (vs s))));
    [by apply sector_lines_lookup|].
  apply bool_decide_ext.
  split.
  - intros Hlt. rewrite lookup_app_l in Hk by done.
    apply list_elem_of_lookup_2 in Hk.
    rewrite (dated_labels_Permutation argsort Hsorts) in Hk.
    apply list_elem_of_fmap in Hk as ([p' d] & -> & Hf).
    apply list_elem_of_filter in Hf as [[d' Hd] Hf]. cbn [fst snd] in *. subst d.
    apply elem_of_input_view in Hf as (r' & Hr' & _ & Hd').
    assert (r' = r) as -> by congruence. rewrite <- Hd'. by eexists.
  - intros [d Hd]. destruct (decide (k < length (dated_labels argsort (vs s)))); [done|].
    rewrite lookup_app_r in Hk by lia. apply list_elem_of_lookup_2 in Hk.
    rewrite Hsh in Hk. apply list_elem_of_fmap in Hk as ([p' d'] & -> & Hf).
    apply list_elem_of_filter in Hf as [Hu Hf]. cbn [fst snd] in *.
    unfold undated in Hu. cbn [snd] in Hu. subst d'.
    apply elem_of_input_view in Hf as (r' & Hr' & _ & Hd').
    assert (r' = r) as -> by congruence. congruence.
Qed.

(** ** What the date pattern matches *)

Section DatePattern.
Variable is_digit : N -> bool.
Variable is_word : N -> bool.

Lemma matches_class_iff p prev s prev' rest :
  matches is_word (Class p) prev s prev' rest <->
  exists c, s = c :: rest /\ p c = true /\ prev' = Some c.
Proof.
  split.
  - intros H. inversion H; subst. by eexists.
  - intros (c & -> & Hc & ->). by constructor.
Qed.

Lemma matches_one_or_two_iff prev s prev' rest :
  matches is_word (Seq (digit_re is_digit) (Opt (digit_re is_digit))) prev s prev' rest <->
  exists ds, s = ds ++ rest /\ digits_between is_digit 1 2 ds /\ prev' = last ds.
Proof.
  unfold digit_re. rewrite matches_seq_iff. split.
  - intros (p1 & s1 & H1 & H2).
    apply matches_class_iff in H1 as (a & -> & Ha & ->).
    apply matches_opt_iff in H2 as [H2|[-> ->]].
    + apply matches_class_iff in H2 as (b & -> & Hb & ->).
      exists [a; b]. split_and!; [done| |done].
      split; [simpl; lia|by repeat constructor].
    + exists [a]. split_and!; [done| |done].
      split; [simpl; lia|by repeat constructor].
  - intros (ds & -> & [Hlen Hds] & ->).
    destruct ds as [|a [|b [|c ds]]]; simpl in Hlen; try lia.
    + apply Forall_cons in Hds as [Ha _].
      exists (Some a), rest. split; [apply matches_class_iff; by exists a|].
      apply matches_opt_iff. by right.
    + apply Forall_cons in Hds as [Ha Hds]. apply Forall_cons in Hds as [Hb _].
      exists (Some a), (b :: rest). split; [apply matches_class_iff; by exists a|].
      apply matches_opt_iff. left. apply matches_class_iff. by exists b.
Qed.

Lemma matches_four_iff prev s prev' rest :
  matches is_word
    (Seq (digit_re is_digit) (Seq (digit_re is_digit)
       (Seq (digit_re is_digit) (digit_re is_digit)))) prev s prev' rest <->
  exists ds, s = ds ++ rest /\ digits_between is_digit 4 4 ds /\ prev' = last ds.
Proof.
  unfold digit_re. split.
  - intros H.
    apply matches_seq_iff in H as (p1 & s1 & H1 & H).
    apply matches_seq_iff in H as (p2 & s2 & H2 & H).
    apply matches_seq_iff in H as (p3 & s3 & H3 & H4).
    apply matches_class_iff in H1 as (a & -> & Ha & ->).
    apply matches_class_iff in H2 as (b & -> & Hb & ->).
    apply matches_class_iff in H3 as (c & -> & Hc & ->).
    apply matches_class_iff in H4 as (d & -> & Hd & ->).
    exists [a; b; c; d]. split_and!; [done| |done].
    split; [simpl; lia|by repeat constructor].
  - intros (ds & -> & [Hlen Hds] & ->).
    destruct ds as [|a [|b [|c [|d [|e ds]]]]]; simpl in Hlen; try lia.
    apply Forall_cons in Hds as [Ha Hds]. apply Forall_cons in Hds as [Hb Hds].
    apply Forall_cons in Hds as [Hc Hds]. apply Forall_cons in Hds as [Hd _].
    apply matches_seq_iff. exists (Some a), (b :: c :: d :: rest).
    split; [apply matches_class_iff; by exists a|].
    apply matches_seq_iff. exists (Some b), (c :: d :: rest).
    split; [apply matches_class_iff; by exists b|].
    apply matches_seq_iff. exists (Some c), (d :: rest).
    split; apply matches_class_iff; by eexists.
Qed.

Lemma digits_between_nonempty lo hi ds :
  1 <= lo -> digits_between is_digit lo hi ds -> ds <> [].
Proof. intros Hlo [Hlen _] ->. simpl in Hlen. lia. Qed.

Lemma matches_date_re_iff prev s prev' rest :
  matches is_word (date_re is_digit) prev s prev' rest <->
  exists m, s = m ++ rest /\ date_token is_digit m /\
    at_boundary is_word prev s = true /\
    at_boundary is_word (last m) rest = true /\ prev' = last m.
Proof.
  unfold date_re. split.
  - intros H.
    apply matches_seq_iff in H as (p1 & s1 & Hb & H).
    apply matches_boundary_iff in Hb as (Hb & -> & ->).
    apply matches_seq_iff in H as (p2 & s2 & Hd & H).
    apply matches_one_or_two_iff in Hd as (d & -> & Hd & ->).
    apply matches_seq_iff in H as (p3 & s3 & Hdot1 & H).
    apply matches_chr_iff in Hdot1 as [-> ->].
    apply matches_seq_iff in H as (p4 & s4 & Hmo & H).
    apply matches_one_or_two_iff in Hmo as (mo & -> & Hmo & ->).
    apply matches_seq_iff in H as (p5 & s5 & Hdot2 & H).
    apply matches_chr_iff in Hdot2 as [-> ->].
    apply matches_seq_iff in H as (p6 & s6 & Hy & He).
    apply matches_four_iff in Hy as (y & -> & Hy & ->).
    apply matches_boundary_iff in He as (He & -> & ->).
    pose proof (digits_between_nonempty 4 4 y ltac:(lia) Hy) as Hne.
    exists (d ++ dot ++ mo ++ dot ++ y).
    assert (Hlast : last (d ++ dot ++ mo ++ dot ++ y) = last y).
    { by rewrite !app_assoc, last_app_nonempty. }
    rewrite Hlast.
    split_and!; [by rewrite <- !app_assoc| |done|done|done].
    by exists d, mo, y.
  - intros (m & -> & (d & mo & y & -> & Hd & Hmo & Hy) & Hb & He & ->).
    pose proof (digits_between_nonempty 4 4 y ltac:(lia) Hy) as Hne.
    assert (Hlast : last (d ++ dot ++ mo ++ dot ++ y) = last y).
    { by rewrite !app_assoc, last_app_nonempty. }
    rewrite Hlast in He |- *. rewrite <- !app_assoc in Hb |- *.
    apply matches_seq_iff. exists prev, (d ++ dot ++ mo ++ dot ++ y ++ rest).
    split; [by apply matches_boundary_iff|].
    apply matches_seq_iff. exists (last d), (dot ++ mo ++ dot ++ y ++ rest).
    split; [apply matches_one_or_two_iff; by exists d|].
    apply matches_seq_iff. exists (Some 46%N), (mo ++ dot ++ y ++ rest).
    split; [by apply matches_chr_iff|].
    apply matches_seq_iff. exists (last mo), (dot ++ y ++ rest).
    split; [apply matches_one_or_two_iff; by exists mo|].
    apply matches_seq_iff. exists (Some 46%N), (y ++ rest).
    split; [by apply matches_chr_iff|].
    apply matches_seq_iff. exists (last y), rest.
    split; [apply matches_four_iff; by exists y|].
    by apply matches_boundary_iff.
Qed.

Lemma date_occurs_matches text pre m post :
  date_occurs is_digit is_word text pre m post <->
  text = pre ++ m ++ post /\
  matches is_word (date_re is_digit) (last pre) (m ++ post) (last m) post.
Proof.
  unfold date_occurs, occurs_with. rewrite matches_date_re_iff. split.
  - intros (-> & Htok & Hb & He). split; [done|]. by exists m.
  - intros (-> & m' & Heq & Htok & Hb & He & _).
    apply (inj (.++ post)) in Heq as <-. done.
Qed.
End DatePattern.

(** X5. The date search of [extract_date_and_size] returns the date text
    at the first position of the input where one stands between word
    boundaries, and none when there is no such position; a date text being
    one or two digits, a dot, one or two digits, a dot and four digits.
    The digits are not checked against the calendar. *)
Theorem date_search_first_occurrence is_digit is_word text :
  (forall m, search is_word (date_re is_digit) text = Some m ->
     exists pre post,
       date_occurs is_digit is_word text pre m post /\
       forall pre1 m1 post1,
         date_occurs is_digit is_word text pre1 m1 post1 ->
         length pre <= length pre1) /\
  (search is_word (date_re is_digit) text = None ->
     forall pre m post, ~ date_occurs is_digit is_word text pre m post) /\
  (forall pre m post,
     date_occurs is_digit is_word text pre m post ->
     is_Some (search is_word (date_re is_digit) text)).
Proof.
  assert (Hnone : search is_word (date_re is_digit) text = None ->
    forall pre m post, ~ date_occurs is_digit is_word text pre m post).
  { intros H pre m post Hocc. apply date_occurs_matches in Hocc as [Ht Hm].
    eapply (search_from_None is_word _ text None H pre (m ++ post)); [done|].
    rewrite last_or_None. exact Hm. }
  split_and!.
  - intros m H. unfold search in H.
    apply search_from_Some in H as (pre & rest & prev' & Ht & Hm & Hfirst).
    rewrite last_or_None in Hm.
    exists pre, rest. split.
    + apply date_occurs_matches. split; [done|].
      pose proof Hm as Hm'. apply matches_date_re_iff in Hm' as (m' & Heq & _ & _ & _ & ->).
      by apply (inj (.++ rest)) in Heq as <-.
    + intros pre1 m1 post1 Hocc. apply date_occurs_matches in Hocc as [Ht1 Hm1].
      eapply (Hfirst pre1 (m1 ++ post1)); [done|]. rewrite last_or_None. exact Hm1.
  - exact Hnone.
  - intros pre m post Hocc.
    destruct (search is_word (date_re is_digit) text) eqn:E; [by eexists|].
    by destruct (Hnone eq_refl pre m post).
Qed.

(** ** The page walk, record by record *)

Section ExtractFailures.
Variable is_digit : N -> bool.
Variable is_space : N -> bool.
Variable is_word : N -> bool.

Lemma read_siblings_Raise_elem sibs :
  read_siblings sibs = Raise -> SibNode Raise ∈ sibs.
Proof.
  induction sibs as [|sib sibs IH]; simpl; [done|].
  destruct sib as [[t|]|t]; simpl.
  - destruct (read_siblings sibs); [done|]. intros _. right. by apply IH.
  - intros _. left.
  - destruct (read_siblings sibs); [done|]. intros _. right. by apply IH.
Qed.

(** X6. [extract_date_and_size] raises exactly when one of the first twelve
    nodes before the link or of the first six after it raises when its
    text is read. A failing read of the link's own text or of its parent's
    text never surfaces, and nodes beyond the twelfth and the sixth are
    not read. *)
Theorem extract_date_and_size_raises_iff anchor :
  extract_date_and_size is_digit is_space is_word anchor = Raise <->
  SibNode Raise ∈ take 12 (previous_siblings anchor) \/
  SibNode Raise ∈ take 6 (next_siblings anchor).
Proof.
  split.
  - unfold extract_date_and_size.
    destruct (read_siblings (take 12 _)) as [prev|] eqn:Hp; simpl.
    + destruct (read_siblings (take 6 _)) as [next|] eqn:Hn; simpl; [done|].
      intros _. right. by apply read_siblings_Raise_elem.
    + intros _. left. by apply read_siblings_Raise_elem.
  - apply extract_date_and_size_sibling_raise.
Qed.
End ExtractFailures.

Lemma project_at_snoc before elem :
  project_at (before ++ [elem]) =
  match heading_text elem with Some t => t | None => project_at before end.
Proof.
  unfold project_at. rewrite omap_app. simpl.
  destruct (heading_text elem) as [t|]; simpl.
  - by rewrite last_snoc.
  - by rewrite app_nil_r.
Qed.

Lemma snoc_split {A} (l before after : list A) x y :
  l ++ [x] = before ++ y :: after ->
  (after = [] /\ before = l /\ y = x) \/
  (exists after', after = after' ++ [x] /\ l = before ++ y :: after').
Proof.
  destruct after as [|z after _] using rev_ind.
  - intros H. apply app_inj_tail in H as [-> ->]. by left.
  - intros H. rewrite app_comm_cons, app_assoc in H.
    apply app_inj_tail in H as [-> ->]. right. by exists after.
Qed.

Section WalkRecords.
Variable lower : str -> str.
Variable urljoin : str -> str -> res str.
Variable is_digit : N -> bool.
Variable is_space : N -> bool.
Variable is_word : N -> bool.

Abbreviation visit' := (visit lower urljoin is_digit is_space is_word).
Abbreviation visit_all' := (visit_all lower urljoin is_digit is_space is_word).
Abbreviation scrape' := (scrape_sector_page lower urljoin is_digit is_space is_word).
Abbreviation stems_from' := (stems_from lower urljoin is_digit is_space is_word).
Abbreviation document_link' := (document_link lower urljoin is_digit is_space is_word).
Abbreviation walked' := (walked lower urljoin is_digit is_space is_word).

Lemma stems_from_app sector_name elems more d :
  stems_from' sector_name elems d -> stems_from' sector_name (elems ++ more) d.
Proof.
  intros (before & elem & after & lt & tg & pt & url & ds & -> & Hl & Hd).
  exists before, elem, (after ++ more), lt, tg, pt, url, ds.
  split; [by rewrite <- app_assoc|done].
Qed.

Lemma is_pdf_link_href target link_text :
  is_pdf_link lower target link_text = true ->
  exists h, target = Some h /\ h <> [].
Proof. destruct target as [[|c h]|]; simpl; [done| |done]. intros _. by eexists. Qed.

Lemma walked_start sector_name :
  walked' sector_name [] (mkwalk [] ∅ (u "UNKNOWN_PROJECT")).
Proof.
  split_and!; [done|constructor| |].
  - intros k. simpl. rewrite elem_of_nil. set_solver.
  - intros before elem after ? ? ? ? ? H. by destruct before.
Qed.

Lemma visit_walked sector_name visited w elem w' :
  walked' sector_name visited w -> visit' sector_name w elem = Ok w' ->
  walked' sector_name (visited ++ [elem]) w'.
Proof.
  intros (Hp & Hrows & Hseen & Hall) Hv.
  assert (Hrows' : Forall (stems_from' sector_name (visited ++ [elem])) (rows w)).
  { eapply Forall_impl; [exact Hrows|]. intros d. apply stems_from_app. }
  (* a link of the longer list that is not the new element was there before *)
  assert (Hold : forall keys : gset (str * str * str),
    seen w ⊆ keys ->
    (forall link_text target parent_text url ds,
       document_link' visited elem link_text target parent_text url ds ->
       (sector_name, project_at visited, url) ∈ keys) ->
    forall before e after link_text target parent_text url ds,
      visited ++ [elem] = before ++ e :: after ->
      document_link' before e link_text target parent_text url ds ->
      (sector_name, project_at before, url) ∈ keys).
  { intros keys Hsub Hnew before e after lt tg pt url ds Hsplit Hl.
    apply snoc_split in Hsplit as [(-> & -> & ->)|(after' & -> & ->)].
    - by eapply Hnew.
    - apply Hsub. by eapply Hall. }
  unfold visit in Hv. unfold heading_text in *.
  destruct (name elem) eqn:Hname.
  - injection Hv as <-. split_and!; [|done|done|].
    + rewrite project_at_snoc. unfold heading_text. by rewrite Hname.
    + apply Hold; [done|]. intros lt tg pt url ds (Hn & _). congruence.
  - destruct (get_text elem) as [t|] eqn:Ht; [|done]. simpl in Hv.
    injection Hv as <-. split_and!; [|done|done|].
    + rewrite project_at_snoc. unfold heading_text. by rewrite Hname, Ht.
    + apply Hold; [done|]. intros lt tg pt url ds (Hn & _). congruence.
  - assert (Hpa : project_at (visited ++ [elem]) = project_at visited).
    { rewrite project_at_snoc. unfold heading_text. by rewrite Hname. }
    destruct (get_text elem) as [t|] eqn:Ht; [|done]. simpl in Hv.
    destruct (is_pdf_link lower (href elem) t) eqn:Hpdf.
    2:{ injection Hv as <-. split_and!; [by rewrite Hpa|done|done|].
        apply Hold; [done|]. intros lt tg pt url ds (_ & Ht' & _ & _ & Hpdf' & _).
        congruence. }
    destruct (match parent elem with Some p => p | None => Ok [] end)
      as [pt|] eqn:Hpt; [|done].
    simpl in Hv. destruct (urljoin BASE _) as [url|] eqn:Hurl; [|done]. simpl in Hv.
    destruct (extract_date_and_size _ _ _ elem) as [ds|] eqn:Hds; [|done]. simpl in Hv.
    destruct (is_pdf_link_href _ _ Hpdf) as (tg & Htg & Hne).
    rewrite Htg in Hurl. simpl in Hurl.
    assert (Hsame : forall lt' tg' pt' url' ds',
      document_link' visited elem lt' tg' pt' url' ds' -> url' = url).
    { intros lt' tg' pt' url' ds' (_ & _ & Htg' & _ & _ & _ & Hurl' & _). congruence. }
    case_decide as Hkey.
    + injection Hv as <-. split_and!; cbn [seen rows last_project_name].
      * by rewrite Hpa.
      * apply Forall_app. split; [done|]. apply Forall_singleton.
        exists visited, elem, [], t, tg, pt, url, ds.
        split; [done|]. split; [|by rewrite Hp].
        unfold document_link. by rewrite Hpdf.
      * intros k. rewrite fmap_app, elem_of_app, elem_of_union, Hseen. simpl.
        rewrite list_elem_of_singleton, elem_of_singleton. unfold key_of at 2. simpl.
        tauto.
      * apply Hold; [apply union_subseteq_r|].
        intros lt' tg' pt' url' ds' Hl. rewrite (Hsame _ _ _ _ _ Hl).
        apply elem_of_union_l, elem_of_singleton. by rewrite Hp.
    + injection Hv as <-. split_and!; [by rewrite Hpa|done|done|].
      apply Hold; [done|].
      intros lt' tg' pt' url' ds' Hl. rewrite (Hsame _ _ _ _ _ Hl).
      rewrite <- Hp. exact Hkey.
Qed.

Lemma visit_all_walked sector_name elems : forall visited w w',
  walked' sector_name visited w -> visit_all' sector_name w elems = Ok w' ->
  walked' sector_name (visited ++ elems) w'.
Proof.
  induction elems as [|elem elems IH]; intros visited w w' Hw; simpl.
  - intros [= <-]. by rewrite app_nil_r.
  - destruct (visit' sector_name w elem) as [w1|] eqn:Hv; [|done]. simpl.
    intros Hall. rewrite (cons_middle elem), app_assoc.
    eapply IH; [|exact Hall]. by eapply visit_walked.
Qed.

(** A page that yields records answered 200 and was walked to its end. *)
Lemma scrape_sector_page_walked sector_name page :
  scrape' sector_name page <> [] ->
  exists resp w,
    page = Ok resp /\ status_code resp = 200 /\
    walked' sector_name (find_all resp) w /\
    scrape' sector_name page = rows w.
Proof.
  unfold scrape_sector_page. destruct page as [resp|]; simpl; [|done].
  case_decide as Hst; [done|].
  destruct (visit_all' _ _ _) as [w|] eqn:Hw; simpl; [|done].
  intros _. exists resp, w. split_and!; [done| |  |done].
  - by destruct (decide (status_code resp = 200)).
  - apply (visit_all_walked sector_name (find_all resp) []
             (mkwalk [] ∅ (u "UNKNOWN_PROJECT")) w); [|done].
    apply walked_start.
Qed.

Lemma scrape_sector_page_stems sector_name page d :
  d ∈ scrape' sector_name page ->
  exists resp,
    page = Ok resp /\ status_code resp = 200 /\
    stems_from' sector_name (find_all resp) d.
Proof.
  intros Hd.
  destruct (scrape_sector_page_walked sector_name page) as (resp & w & -> & Hst & Hw & Hrows).
  { intros E. rewrite E in Hd. by apply elem_of_nil in Hd. }
  exists resp. split_and!; [done|done|].
  rewrite Hrows in Hd. destruct Hw as (_ & Hall & _).
  by eapply Forall_forall in Hall.
Qed.

Lemma scrape_sector_page_sector sector_name page d :
  d ∈ scrape' sector_name page -> d_sector d = sector_name.
Proof.
  intros Hd. apply scrape_sector_page_stems in Hd as (resp & _ & _ & Hs).
  destruct Hs as (? & ? & ? & ? & ? & ? & ? & ? & _ & _ & ->). done.
Qed.

End WalkRecords.

(** X7. Every record [scrape_sector_page] returns was built from a
    document link of a page that answered 200: an [a] element with a
    non-empty [href] that [is_pdf_link] accepts. The record carries the
    sector name passed in, the text of the last [h5] before the link
    ([UNKNOWN_PROJECT] when there is none), the type the classifier gives
    to the link text and the parent text, the joined URL, and the date and
    size found around the link, empty when none is found. *)
Theorem scrape_sector_page_records_stem_from_links
    lower urljoin is_digit is_space is_word sector_name page i d :
  scrape_sector_page lower urljoin is_digit is_space is_word sector_name page !! i = Some d ->
  exists resp,
    page = Ok resp /\ status_code resp = 200 /\
    stems_from lower urljoin is_digit is_space is_word sector_name (find_all resp) d.
Proof. intros Hd. apply list_elem_of_lookup_2 in Hd. by apply scrape_sector_page_stems. Qed.

(** X8. A page yields all or nothing: when [scrape_sector_page] returns any
    record at all, every document link of the page is represented, that
    is, some returned record has the link's sector, project and URL. *)
Theorem scrape_sector_page_keeps_every_link
    lower urljoin is_digit is_space is_word sector_name resp
    before elem after link_text target parent_text url ds :
  scrape_sector_page lower urljoin is_digit is_space is_word sector_name (Ok resp) <> [] ->
  find_all resp = before ++ elem :: after ->
  document_link lower urljoin is_digit is_space is_word
    before elem link_text target parent_text url ds ->
  exists d,
    d ∈ scrape_sector_page lower urljoin is_digit is_space is_word sector_name (Ok resp) /\
    key_of d = (sector_name, project_at before, url).
Proof.
  intros Hne Hsplit Hl.
  destruct (scrape_sector_page_walked lower urljoin is_digit is_space is_word
              sector_name (Ok resp) Hne) as (resp' & w & [= <-] & _ & Hw & ->).
  destruct Hw as (_ & _ & Hseen & Hall).
  specialize (Hall _ _ _ _ _ _ _ _ Hsplit Hl).
  apply Hseen in Hall. apply list_elem_of_fmap in Hall as (d & Hk & Hd). eauto.
Qed.

Section Headings.
Variable lower : str -> str.
Variable urljoin : str -> str -> res str.
Variable is_digit : N -> bool.
Variable is_space : N -> bool.
Variable is_word : N -> bool.

Lemma visit_all_without_h4 sector_name elems : forall w,
  visit_all lower urljoin is_digit is_space is_word sector_name w
    (filter (λ elem, name elem <> h4) elems) =
  visit_all lower urljoin is_digit is_space is_word sector_name w elems.
Proof.
  induction elems as [|elem elems IH]; intros w; [done|].
  rewrite filter_cons. case_decide as Hn.
  - simpl. destruct (visit _ _ _ _ _ _ w elem); simpl; [apply IH|done].
  - rewrite IH. simpl. unfold visit. by rewrite Hn.
Qed.
End Headings.

(** X9. The [h4] headings of a page have no part in the result of
    [scrape_sector_page], not even one whose text cannot be read: the page
    without them yields the same records. *)
Theorem scrape_sector_page_ignores_h4
    lower urljoin is_digit is_space is_word sector_name status elems :
  scrape_sector_page lower urljoin is_digit is_space is_word sector_name
    (Ok (mkresponse status (filter (λ elem, name elem <> h4) elems))) =
  scrape_sector_page lower urljoin is_digit is_space is_word sector_name
    (Ok (mkresponse status elems)).
Proof.
  unfold scrape_sector_page. simpl. case_decide; [done|].
  by rewrite visit_all_without_h4.
Qed.

Section MainRows.
Variable lower : str -> str.
Variable urljoin : str -> str -> res str.
Variable is_digit : N -> bool.
Variable is_space : N -> bool.
Variable is_word : N -> bool.
Variable session_get : str -> res response.

Abbreviation extend' :=
  (extend_all_rows lower urljoin is_digit is_space is_word session_get).

Lemma extend_all_rows_sectors sectors : forall rows0 d,
  d ∈ extend' sectors rows0 -> d ∈ rows0 \/ d_sector d ∈ sectors.*1.
Proof.
  unfold extend_all_rows.
  induction sectors as [|[s url] sectors IH]; intros rows0 d; cbn [foldl fst snd]; [by left|].
  intros Hd. apply IH in Hd as [Hd|Hd].
  - apply elem_of_app in Hd as [Hd|Hd]; [by left|].
    right. rewrite fmap_cons, elem_of_cons. left.
    by apply scrape_sector_page_sector in Hd.
  - right. rewrite fmap_cons, elem_of_cons. by right.
Qed.

Lemma extend_all_rows_NoDup sectors : forall rows0,
  NoDup sectors.*1 -> NoDup (key_of <$> rows0) ->
  (forall d, d ∈ rows0 -> d_sector d ∉ sectors.*1) ->
  NoDup (key_of <$> extend' sectors rows0).
Proof.
  unfold extend_all_rows.
  induction sectors as [|[s url] sectors IH]; intros rows0 Hs Hnd Hother;
    cbn [foldl fst snd]; [done|].
  rewrite fmap_cons in Hs. apply NoDup_cons in Hs as [Hs Hss]. cbn [fst] in Hs.
  apply IH; [done| |].
  - rewrite fmap_app. apply NoDup_app. split_and!; [done| |].
    + intros k Hk Hk'.
      apply list_elem_of_fmap in Hk as (d & -> & Hd).
      apply list_elem_of_fmap in Hk' as (d' & Hkk & Hd').
      apply scrape_sector_page_sector in Hd'.
      apply (Hother d Hd). rewrite fmap_cons, elem_of_cons. left.
      unfold key_of in Hkk. injection Hkk as Hsec _ _. cbn [fst] in Hd' |- *. congruence.
    + destruct (scrape_sector_page_cases lower urljoin is_digit is_space is_word
                  s (session_get url)) as [->|(resp & w & _ & Hw & ->)].
      * constructor.
      * eapply visit_all_inv in Hw; [apply Hw|apply walk_inv_start].
  - intros d Hd. apply elem_of_app in Hd as [Hd|Hd].
    + intros Hin. apply (Hother d Hd). rewrite fmap_cons, elem_of_cons. by right.
    + apply scrape_sector_page_sector in Hd. by rewrite Hd.
Qed.

Lemma SECTOR_URLS_NoDup : NoDup SECTOR_URLS.*1.
Proof. apply (bool_decide_unpack _). vm_compute. done. Qed.

Lemma SECTOR_URLS_mapped s :
  s ∈ SECTOR_URLS.*1 -> exists c, (s, c) ∈ sector_mapping.
Proof.
  unfold SECTOR_URLS. rewrite !fmap_cons, !elem_of_cons. simpl.
  unfold sector_mapping.
  intros [->|[->|[->|[->|[->|H]]]]]; [| | | | |by apply elem_of_nil in H].
  - exists 4. set_solver.
  - exists 3. set_solver.
  - exists 1. set_solver.
  - exists 2. set_solver.
  - exists 5. set_solver.
Qed.

End MainRows.

(** X10. Whatever the site answers, the rows [main] collects over the five
    sector pages have pairwise distinct (sector, project, URL) triples:
    the deduplication inside one page extends to the whole table, because
    every row carries the name of the page it comes from. *)
Theorem all_rows_keys_distinct lower urljoin is_digit is_space is_word session_get :
  NoDup (key_of <$> all_rows lower urljoin is_digit is_space is_word session_get).
Proof.
  unfold all_rows. apply extend_all_rows_NoDup.
  - apply SECTOR_URLS_NoDup.
  - constructor.
  - intros d Hd. by apply elem_of_nil in Hd.
Qed.

(** X11. Every row [main] collects carries one of the five sector names
    that [create_unique_ids] maps to a code, so no scraped row is left
    without an identifier for want of a code. *)
Theorem all_rows_sectors_have_codes
    lower urljoin is_digit is_space is_word session_get i d :
  all_rows lower urljoin is_digit is_space is_word session_get !! i = Some d ->
  exists c, (d_sector d, c) ∈ sector_mapping.
Proof.
  intros Hd. apply list_elem_of_lookup_2 in Hd.
  apply extend_all_rows_sectors in Hd as [Hd|Hd]; [by apply elem_of_nil in Hd|].
  by apply SECTOR_URLS_mapped.
Qed.

(** X12. The classifiers of the two scrapers give the same type to every
    link, except where the complete scraper answers with its additional
    keyword: there the fixed scraper falls back on the link text. *)
Theorem determine_document_type_versions lower link_text parent_text :
  Fixed.determine_document_type lower link_text parent_text =
    determine_document_type lower link_text parent_text \/
  (determine_document_type lower link_text parent_text = investicny_zamer /\
   Fixed.determine_document_type lower link_text parent_text = truncated link_text /\
   contains investicny_zamer (lower (link_text ++ space ++ parent_text)) = true).
Proof.
  unfold determine_document_type, Fixed.determine_document_type. cbv zeta.
  generalize (lower (link_text ++ space ++ parent_text)). intros t.
  repeat (match goal with
          | |- context [if ?b then _ else _] => destruct b eqn:?; [by left|]
          end).
  destruct (contains investicny_zamer t) eqn:E; [by right|by left].
Qed.

(** ** Pages without records, and the order of the records *)

Section EmptyPages.
Variable lower : str -> str.
Variable urljoin : str -> str -> res str.
Variable is_digit : N -> bool.
Variable is_space : N -> bool.
Variable is_word : N -> bool.

Abbreviation fails' := (fails lower urljoin is_digit is_space is_word).

Lemma visit_Raise_iff sector_name w elem :
  visit lower urljoin is_digit is_space is_word sector_name w elem = Raise <-> fails' elem.
Proof.
  unfold visit, fails, is_document_link.
  destruct (name elem); [done| |].
  - destruct (get_text elem); cbn [res_bind]; done.
  - destruct (get_text elem) as [t|]; cbn [res_bind]; [|by split; [left|]].
    destruct (is_pdf_link lower (href elem) t) eqn:Hpdf.
    2:{ split; [done|]. intros [H|[(_ & t' & [= <-] & Hpdf') _]]; congruence. }
    destruct (match parent elem with Some p => p | None => Ok [] end) as [pt|];
      cbn [res_bind].
    2:{ split; [|done]. intros _. right. split; [|by left]. split; [done|by exists t]. }
    destruct (urljoin BASE _) as [url|]; cbn [res_bind].
    2:{ split; [|done]. intros _. right. split; [|by right; left].
        split; [done|by exists t]. }
    destruct (extract_date_and_size _ _ _ elem) as [ds|]; cbn [res_bind].
    2:{ split; [|done]. intros _. right. split; [|by right; right].
        split; [done|by exists t]. }
    split.
    + by case_decide.
    + intros [H|[_ [H|[H|H]]]]; done.
Qed.

Lemma visit_all_Raise_iff sector_name elems : forall w,
  visit_all lower urljoin is_digit is_space is_word sector_name w elems = Raise <->
  Exists fails' elems.
Proof.
  induction elems as [|elem elems IH]; intros w; cbn [visit_all].
  - split; [done|]. intros H. by apply Exists_nil in H.
  - rewrite Exists_cons, <- (visit_Raise_iff sector_name w elem).
    destruct (visit _ _ _ _ _ _ w elem) as [w1|]; cbn [res_bind].
    + rewrite IH. split; [by right|]. by intros [H|H].
    + split; [by left|done].
Qed.

(** A readable document link satisfies [document_link]. *)
Lemma document_link_of before elem :
  is_document_link lower elem -> ~ fails' elem ->
  exists link_text target parent_text url ds,
    document_link lower urljoin is_digit is_space is_word
      before elem link_text target parent_text url ds.
Proof.
  intros Hlink Hok. pose proof Hlink as (Hname & t & Ht & Hpdf).
  unfold fails in Hok. rewrite Hname in Hok.
  destruct (match parent elem with Some p => p | None => Ok [] end) as [pt|] eqn:Hp;
    [|destruct Hok; right; split; [done|by left]].
  destruct (urljoin BASE (default [] (href elem))) as [url|] eqn:Hu;
    [|destruct Hok; right; split; [done|by right; left]].
  destruct (extract_date_and_size is_digit is_space is_word elem) as [ds|] eqn:Hd;
    [|destruct Hok; right; split; [done|by right; right]].
  destruct (href elem) as [[|c h]|] eqn:Hh; [done| |done].
  exists t, (c :: h), pt, url, ds. unfold document_link. rewrite Hh, Hp.
  split_and!; done.
Qed.

End EmptyPages.

(** X23. A page that answered 200 yields no record in exactly two cases: one
    of the reads of the walk raises (the text of an [h5] or of an [a]; for
    a document link also the text of its parent, the joining of its URL, or
    the search around it), or the page has no document link. In the first
    case the records of all the other links are lost with it. *)
Theorem scrape_sector_page_empty_iff
    lower urljoin is_digit is_space is_word sector_name resp :
  status_code resp = 200 ->
  scrape_sector_page lower urljoin is_digit is_space is_word sector_name (Ok resp) = [] <->
  Exists (fails lower urljoin is_digit is_space is_word) (find_all resp) \/
  Forall (λ elem, ~ is_document_link lower elem) (find_all resp).
Proof.
  intros Hst.
  pose proof (visit_all_Raise_iff lower urljoin is_digit is_space is_word sector_name
                (find_all resp) (mkwalk [] ∅ (u "UNKNOWN_PROJECT"))) as Hraise.
  pose proof (visit_all_walked lower urljoin is_digit is_space is_word sector_name
                (find_all resp) [] (mkwalk [] ∅ (u "UNKNOWN_PROJECT"))) as Hwalk.
  unfold scrape_sector_page. cbn [res_bind]. rewrite decide_False by (by intros H; apply H).
  destruct (visit_all _ _ _ _ _ _ _ (find_all resp)) as [w|]; cbn [res_bind].
  - specialize (Hwalk w (walked_start lower urljoin is_digit is_space is_word sector_name)
                  eq_refl).
    cbn [app] in Hwalk. destruct Hwalk as (_ & Hstems & Hseen & Hall).
    assert (Hnofail : ~ Exists (fails lower urljoin is_digit is_space is_word) (find_all resp)).
    { intros H. by apply Hraise in H. }
    split.
    + intros Hrows. right. apply Forall_forall. intros elem Hin Hlink.
      apply list_elem_of_split in Hin as (before & after & Hsplit).
      destruct (document_link_of lower urljoin is_digit is_space is_word before elem Hlink)
        as (lt & tg & pt & url & ds & Hl).
      { intros Hf. apply Hnofail. apply Exists_exists. exists elem. split; [|done].
        rewrite Hsplit. apply elem_of_app. right. left. }
      specialize (Hall _ _ _ _ _ _ _ _ Hsplit Hl). apply Hseen in Hall.
      rewrite Hrows in Hall. by apply elem_of_nil in Hall.
    + intros [H|Hnone]; [done|].
      destruct (rows w) as [|d ds] eqn:Hrows; [done|].
      apply Forall_cons in Hstems as [Hd _].
      destruct Hd as (before & elem & after & lt & tg & pt & url & ds' & Hsplit & Hl & _).
      rewrite Forall_forall in Hnone. destruct (Hnone elem).
      * rewrite Hsplit. apply elem_of_app. right. left.
      * destruct Hl as (Hname & Ht & _ & _ & Hpdf & _). split; [done|by exists lt].
  - split; [|done]. intros _. left. by apply Hraise.
Qed.

Lemma StronglySorted_snoc (ps : list nat) n :
  StronglySorted lt ps -> Forall (λ p, p < n) ps -> StronglySorted lt (ps ++ [n]).
Proof.
  induction 1 as [|p ps Hs IH Hp]; intros Hn; simpl.
  - repeat constructor.
  - apply Forall_cons in Hn as [Hpn Hn]. constructor; [by apply IH|].
    apply Forall_app. split; [done|]. by apply Forall_singleton.
Qed.

Section PageOrder.
Variable lower : str -> str.
Variable urljoin : str -> str -> res str.
Variable is_digit : N -> bool.
Variable is_space : N -> bool.
Variable is_word : N -> bool.

Abbreviation built_at' := (built_at lower urljoin is_digit is_space is_word).
Abbreviation in_page_order' := (in_page_order lower urljoin is_digit is_space is_word).

Lemma built_at_app sector_name elems more p d :
  p < length elems ->
  built_at' sector_name elems p d -> built_at' sector_name (elems ++ more) p d.
Proof.
  intros Hp (elem & lt & tg & pt & url & ds & He & Hl & Hd).
  exists elem, lt, tg, pt, url, ds.
  rewrite lookup_app_l by done. rewrite take_app_le by lia. done.
Qed.

Lemma built_at_app_all sector_name elems more rows ps :
  Forall (λ p, p < length elems) ps ->
  Forall2 (λ d p, built_at' sector_name elems p d) rows ps ->
  Forall2 (λ d p, built_at' sector_name (elems ++ more) p d) rows ps.
Proof.
  intros Hlt Hb. induction Hb as [|d p rows ps Hd _ IH]; [constructor|].
  apply Forall_cons in Hlt as [Hp Hlt]. constructor; [|by apply IH].
  by apply built_at_app.
Qed.

Lemma in_page_order_app sector_name elems more rows :
  in_page_order' sector_name elems rows ->
  in_page_order' sector_name (elems ++ more) rows.
Proof.
  intros (ps & Hb & Hs & Hlt). exists ps. split_and!; [|done|].
  - by apply built_at_app_all.
  - eapply Forall_impl; [exact Hlt|]. intros p Hp. rewrite length_app. simpl in Hp. lia.
Qed.

Lemma visit_in_page_order sector_name visited w elem w' :
  last_project_name w = project_at visited ->
  in_page_order' sector_name visited (rows w) ->
  visit lower urljoin is_digit is_space is_word sector_name w elem = Ok w' ->
  in_page_order' sector_name (visited ++ [elem]) (rows w').
Proof.
  intros Hp Hord Hv.
  pose proof (in_page_order_app sector_name visited [elem] (rows w) Hord) as Hsame.
  unfold visit in Hv. destruct (name elem) eqn:Hname.
  - by injection Hv as <-.
  - destruct (get_text elem) as [t|]; [|done]. cbn [res_bind] in Hv. by injection Hv as <-.
  - destruct (get_text elem) as [t|] eqn:Ht; [|done]. cbn [res_bind] in Hv.
    destruct (is_pdf_link lower (href elem) t) eqn:Hpdf; [|by injection Hv as <-].
    destruct (match parent elem with Some p => p | None => Ok [] end)
      as [pt|] eqn:Hpt; [|done].
    cbn [res_bind] in Hv. destruct (urljoin BASE _) as [url|] eqn:Hurl; [|done].
    cbn [res_bind] in Hv.
    destruct (extract_date_and_size _ _ _ elem) as [ds|] eqn:Hds; [|done].
    cbn [res_bind] in Hv.
    case_decide as Hkey; [|by injection Hv as <-].
    injection Hv as <-. cbn [rows]. clear Hsame.
    destruct Hord as (ps & Hb & Hs & Hlt).
    exists (ps ++ [length visited]). split_and!.
    + apply Forall2_app; [by apply built_at_app_all|]. constructor; [|constructor].
      destruct (href elem) as [[|c h]|] eqn:Hh; [done| |done].
      exists elem, t, (c :: h), pt, url, ds.
      rewrite list_lookup_middle by done.
      rewrite take_app_length. rewrite Hp. split; [done|]. split; [|done].
      unfold document_link. rewrite Hh. split_and!; done.
    + by apply StronglySorted_snoc.
    + apply Forall_app. split.
      * eapply Forall_impl; [exact Hlt|]. intros p Hlp. rewrite length_app. simpl in Hlp. lia.
      * apply Forall_singleton. rewrite length_app. simpl. lia.
Qed.

Lemma visit_all_in_page_order sector_name elems : forall visited w w',
  walked lower urljoin is_digit is_space is_word sector_name visited w ->
  in_page_order' sector_name visited (rows w) ->
  visit_all lower urljoin is_digit is_space is_word sector_name w elems = Ok w' ->
  in_page_order' sector_name (visited ++ elems) (rows w').
Proof.
  induction elems as [|elem elems IH]; intros visited w w' Hw Hord; cbn [visit_all].
  - intros [= <-]. by rewrite app_nil_r.
  - destruct (visit _ _ _ _ _ _ w elem) as [w1|] eqn:Hv; cbn [res_bind]; [|done].
    intros Hall. rewrite (cons_middle elem), app_assoc.
    eapply IH; [|  |exact Hall].
    + by eapply visit_walked.
    + eapply visit_in_page_order; [|done|done]. apply Hw.
Qed.

End PageOrder.

(** X24. The records of a page stand in the order of their links: of two
    records that [scrape_sector_page] returns, the earlier one was built
    for a document link that comes earlier among the elements of the
    page. *)
Theorem scrape_sector_page_in_page_order
    lower urljoin is_digit is_space is_word sector_name page i j d d' :
  i < j ->
  scrape_sector_page lower urljoin is_digit is_space is_word sector_name page !! i = Some d ->
  scrape_sector_page lower urljoin is_digit is_space is_word sector_name page !! j = Some d' ->
  exists resp p q,
    page = Ok resp /\ p < q /\
    built_at lower urljoin is_digit is_space is_word sector_name (find_all resp) p d /\
    built_at lower urljoin is_digit is_space is_word sector_name (find_all resp) q d'.
Proof.
  intros Hij Hd Hd'.
  destruct (scrape_sector_page_cases lower urljoin is_digit is_space is_word
              sector_name page) as [E|(resp & w & -> & Hw & E)]; rewrite E in Hd, Hd'.
  - done.
  - pose proof (visit_all_in_page_order lower urljoin is_digit is_space is_word sector_name
                  (find_all resp) [] _ w
                  (walked_start lower urljoin is_digit is_space is_word sector_name)) as Hord.
    cbn [app rows] in Hord. destruct Hord as (ps & Hb & Hs & _); [|done|].
    { exists []. split_and!; constructor. }
    destruct (Forall2_lookup_l _ _ _ _ _ Hb Hd) as (p & Hp & Hbp).
    destruct (Forall2_lookup_l _ _ _ _ _ Hb Hd') as (q & Hq & Hbq).
    exists resp, p, q. split_and!; [done| |done|done].
    by eapply (StronglySorted_lookup lt ps i j).
Qed.

(** ** File names of the downloader *)

Lemma ends_with_true suffix s : ends_with suffix s = true <-> suffix `suffix_of` s.
Proof. unfold ends_with. apply bool_decide_eq_true. Qed.

(** Two endings of one text: the shorter ends the longer. *)
Lemma suffix_of_same {A} (l1 l2 l : list A) :
  l1 `suffix_of` l -> l2 `suffix_of` l -> l1 `suffix_of` l2 \/ l2 `suffix_of` l1.
Proof.
  intros [k1 ->] [k2 H]. revert k2 H.
  induction k1 as [|x k1 IH]; intros k2 H.
  - right. by exists k2.
  - destruct k2 as [|y k2].
    + left. by exists (x :: k1).
    + injection H as -> H. exact (IH k2 H).
Qed.

(** No listed extension ends another one. *)
Lemma extensions_apart e1 e2 :
  e1 ∈ extensions -> e2 ∈ extensions -> e1 `suffix_of` e2 -> e1 = e2.
Proof.
  intros H1 H2 Hs.
  assert (Hall : forallb (λ a, forallb (λ b,
            implb (ends_with a b) (bool_decide (a = b))) extensions) extensions = true)
    by (vm_compute; reflexivity).
  rewrite forallb_forall in Hall.
  apply list_elem_of_In in H1, H2.
  specialize (Hall e1 H1). rewrite forallb_forall in Hall. specialize (Hall e2 H2).
  apply ends_with_true in Hs. rewrite Hs in Hall. simpl in Hall.
  by apply bool_decide_eq_true in Hall.
Qed.

Lemma extension_unique e1 e2 path :
  e1 ∈ extensions -> e2 ∈ extensions ->
  ends_with e1 path = true -> ends_with e2 path = true -> e1 = e2.
Proof.
  intros H1 H2 Hs1 Hs2. apply ends_with_true in Hs1, Hs2.
  destruct (suffix_of_same e1 e2 path Hs1 Hs2) as [H|H].
  - by apply extensions_apart.
  - symmetry. by apply extensions_apart.
Qed.

Lemma find_extension path :
  match find (λ ext, ends_with ext path) extensions with
  | Some ext => ext ∈ extensions /\ ends_with ext path = true
  | None => forall ext, ext ∈ extensions -> ends_with ext path = false
  end.
Proof.
  destruct (find _ extensions) as [ext|] eqn:E.
  - apply find_some in E as [Hin Hs]. by apply list_elem_of_In in Hin.
  - intros ext Hin. apply list_elem_of_In in Hin.
    by apply (find_none _ _ E) in Hin.
Qed.

Lemma pdf_listed : u ".pdf" ∈ extensions.
Proof. unfold extensions. left. Qed.

Lemma pdf_not_archive : u ".pdf" ∉ archive_extensions.
Proof. apply (bool_decide_eq_false_1 _). vm_compute. reflexivity. Qed.

Lemma archive_listed e : e ∈ archive_extensions -> e ∈ extensions.
Proof.
  unfold archive_extensions, extensions. intros H.
  repeat (apply elem_of_cons in H as [->|H]; [set_solver|]).
  by apply elem_of_nil in H.
Qed.

Section DownloadFacts.
Variable lower : str -> str.
Variable urlparse_path : str -> res str.

Lemma get_file_extension_listed url ext :
  get_file_extension lower urlparse_path url = Ok ext -> ext ∈ extensions.
Proof.
  unfold get_file_extension. destruct (urlparse_path url) as [p|]; [|done]. cbn [res_bind].
  pose proof (find_extension (lower p)) as H.
  destruct (find _ extensions) as [e|]; intros [= <-]; cbn [default from_option id].
  - by destruct H.
  - apply pdf_listed.
Qed.

End DownloadFacts.

(** X13. [get_file_extension] returns the listed extension the lower-cased
    path of the URL ends with, whatever its place in the list (no listed
    extension ends another, so at most one fits), and [.pdf] when the path
    ends with none of them. *)
Theorem get_file_extension_iff lower urlparse_path url ext :
  get_file_extension lower urlparse_path url = Ok ext <->
  exists parsed_path,
    urlparse_path url = Ok parsed_path /\
    ((ext ∈ extensions /\ ends_with ext (lower parsed_path) = true) \/
     (ext = u ".pdf" /\
      forall e, e ∈ extensions -> ends_with e (lower parsed_path) = false)).
Proof.
  unfold get_file_extension. split.
  - destruct (urlparse_path url) as [p|]; [|done]. cbn [res_bind].
    pose proof (find_extension (lower p)) as H.
    destruct (find _ extensions) as [e|]; intros [= <-]; exists p;
      cbn [default from_option id].
    + split; [done|]. by left.
    + split; [done|]. by right.
  - intros (p & -> & H). cbn [res_bind]. f_equal.
    pose proof (find_extension (lower p)) as Hf.
    destruct (find _ extensions) as [e|]; cbn [default from_option id].
    + destruct Hf as [He Hs]. destruct H as [[Hin Hext]|[-> Hno]].
      * by apply (extension_unique e ext (lower p)).
      * by rewrite (Hno e He) in Hs.
    + destruct H as [[Hin Hext]|[-> _]]; [|done].
      by rewrite (Hf ext Hin) in Hext.
Qed.

(** X14. [is_archive_file] says yes exactly for the URLs to which
    [get_file_extension] gives one of the five archive extensions, and
    raises exactly when it does: the two functions, which scan lists of
    different length, agree on what an archive is. *)
Theorem is_archive_file_by_extension lower urlparse_path url :
  is_archive_file lower urlparse_path url =
  (ext <- get_file_extension lower urlparse_path url ;;
   Ok (bool_decide (ext ∈ archive_extensions))).
Proof.
  unfold is_archive_file, get_file_extension.
  destruct (urlparse_path url) as [p|]; [|done]. cbn [res_bind]. f_equal.
  pose proof (find_extension (lower p)) as Hf.
  destruct (existsb _ archive_extensions) eqn:E.
  - apply existsb_exists in E as (a & Hin & Ha). apply list_elem_of_In in Hin.
    symmetry. apply bool_decide_eq_true.
    destruct (find _ extensions) as [e|]; cbn [default from_option id].
    + destruct Hf as [He Hs].
      by rewrite (extension_unique e a (lower p) He (archive_listed a Hin) Hs Ha).
    + by rewrite (Hf a (archive_listed a Hin)) in Ha.
  - symmetry. apply bool_decide_eq_false. intros Hin.
    destruct (find _ extensions) as [e|]; cbn [default from_option id] in Hin.
    + destruct Hf as [He Hs].
      assert (existsb (λ ext, ends_with ext (lower p)) archive_extensions = true) as E'.
      { apply existsb_exists. exists e. split; [by apply list_elem_of_In|done]. }
      by rewrite E' in E.
    + by apply pdf_not_archive in Hin.
Qed.

(** ** [clean_filename] *)

Lemma replace_other char s : char ∉ s -> replace char underscore s = s.
Proof.
  intros H. unfold replace. induction s as [|c s IH]; [done|].
  apply not_elem_of_cons in H as [Hc Hs]. rewrite fmap_cons, IH by done.
  destruct (N.eqb_spec c char) as [->|_]; [done|done].
Qed.

Lemma replace_Forall (P : N -> Prop) char s :
  P underscore -> Forall P s -> Forall P (replace char underscore s).
Proof.
  intros Hu Hs. unfold replace. apply Forall_fmap.
  eapply Forall_impl; [exact Hs|]. intros c Hc. simpl.
  by destruct (c =? char)%N.
Qed.

Lemma replace_removes char s :
  char <> underscore -> Forall (λ c, c <> char) (replace char underscore s).
Proof.
  intros Hne. unfold replace. apply Forall_fmap, Forall_forall. intros c _. simpl.
  destruct (N.eqb_spec c char) as [->|Hc]; [by apply not_eq_sym|done].
Qed.

Lemma replace_all_clean chars : forall cleaned s,
  underscore ∉ cleaned ++ chars ->
  Forall (λ c, c ∉ cleaned) s ->
  Forall (λ c, c ∉ cleaned ++ chars)
    (foldl (λ filename char, replace char underscore filename) s chars).
Proof.
  induction chars as [|char chars IH]; intros cleaned s Hu Hs; cbn [foldl].
  - by rewrite app_nil_r.
  - rewrite (cons_middle char), app_assoc in Hu |- *. apply IH; [done|].
    assert (Hchar : char <> underscore).
    { intros ->. apply Hu. apply elem_of_app. left. apply elem_of_app. right. left. }
    pose proof (replace_removes char s Hchar) as H1.
    assert (H2 : Forall (λ c, c ∉ cleaned) (replace char underscore s)).
    { apply replace_Forall; [|done]. intros Hin. apply Hu.
      apply elem_of_app. left. apply elem_of_app. by left. }
    apply Forall_forall. intros c Hc.
    rewrite Forall_forall in H1, H2. specialize (H1 c Hc). specialize (H2 c Hc).
    rewrite elem_of_app, list_elem_of_singleton. tauto.
Qed.

Lemma replace_all_unchanged chars : forall s,
  Forall (λ c, c ∉ chars) s ->
  foldl (λ filename char, replace char underscore filename) s chars = s.
Proof.
  induction chars as [|char chars IH]; intros s Hs; cbn [foldl]; [done|].
  rewrite replace_other.
  - apply IH. eapply Forall_impl; [exact Hs|]. intros c Hc Hin. apply Hc. by right.
  - intros Hin. rewrite Forall_forall in Hs. apply (Hs char Hin). left.
Qed.

Lemma lstrip_suffix chars s : lstrip chars s `suffix_of` s.
Proof.
  induction s as [|c s IH]; simpl; [done|].
  case_bool_decide; [by apply suffix_cons_r|done].
Qed.

Lemma lstrip_head chars s c : head (lstrip chars s) = Some c -> c ∉ chars.
Proof.
  induction s as [|d s IH]; simpl; [done|].
  case_bool_decide as Hd; [done|]. simpl. by intros [= <-].
Qed.

Lemma lstrip_unchanged chars s :
  (forall c, head s = Some c -> c ∉ chars) -> lstrip chars s = s.
Proof.
  destruct s as [|c s]; simpl; [done|]. intros H.
  by rewrite bool_decide_eq_false_2 by (by apply H).
Qed.

Lemma rstrip_prefix chars s : rstrip chars s `prefix_of` s.
Proof.
  unfold rstrip. destruct (lstrip_suffix chars (reverse s)) as [k Hk].
  exists (reverse k). apply (f_equal reverse) in Hk.
  by rewrite reverse_involutive, reverse_app in Hk.
Qed.

Lemma rstrip_last chars s c : last (rstrip chars s) = Some c -> c ∉ chars.
Proof. unfold rstrip. rewrite last_reverse. apply lstrip_head. Qed.

Lemma rstrip_unchanged chars s :
  (forall c, last s = Some c -> c ∉ chars) -> rstrip chars s = s.
Proof.
  intros H. unfold rstrip. rewrite lstrip_unchanged; [apply reverse_involutive|].
  intros c. rewrite head_reverse. apply H.
Qed.

Lemma prefix_head {A} (l1 l2 : list A) x :
  l1 `prefix_of` l2 -> head l1 = Some x -> head l2 = Some x.
Proof. intros [k ->]. by destruct l1. Qed.

Lemma prefix_Forall {A} (P : A -> Prop) (l1 l2 : list A) :
  l1 `prefix_of` l2 -> Forall P l2 -> Forall P l1.
Proof. intros [k ->] H. by apply Forall_app in H as [H _]. Qed.

Lemma suffix_Forall {A} (P : A -> Prop) (l1 l2 : list A) :
  l1 `suffix_of` l2 -> Forall P l2 -> Forall P l1.
Proof. intros [k ->] H. by apply Forall_app in H as [_ H]. Qed.

Lemma strip_Forall (P : N -> Prop) chars s : Forall P s -> Forall P (strip chars s).
Proof.
  intros H. unfold strip.
  eapply prefix_Forall; [apply rstrip_prefix|].
  eapply suffix_Forall; [apply lstrip_suffix|done].
Qed.

Lemma strip_head chars s c : head (strip chars s) = Some c -> c ∉ chars.
Proof.
  unfold strip. intros H.
  apply (prefix_head _ _ _ (rstrip_prefix chars (lstrip chars s))) in H.
  by apply lstrip_head in H.
Qed.

Lemma underscore_valid : underscore ∉ [] ++ invalid_chars.
Proof. apply (bool_decide_eq_false_1 _). vm_compute. reflexivity. Qed.

(** X15. Whatever name it is given, [clean_filename] returns at most 200
    characters, none of them one of the nine characters it replaces, and
    never a name that begins with a dot or a space. A name it did not have
    to cut does not end with a dot or a space either. *)
Theorem clean_filename_safe filename :
  Forall (λ c, c ∉ invalid_chars) (clean_filename filename) /\
  length (clean_filename filename) <= 200 /\
  (forall c, head (clean_filename filename) = Some c -> c ∉ u ". ") /\
  (length (clean_filename filename) < 200 ->
   forall c, last (clean_filename filename) = Some c -> c ∉ u ". ").
Proof.
  unfold clean_filename. cbv zeta.
  pose proof (replace_all_clean invalid_chars [] filename underscore_valid) as Hc.
  cbn [app] in Hc. specialize (Hc ltac:(apply Forall_forall; intros ? _; apply not_elem_of_nil)).
  generalize dependent (foldl (λ filename char, replace char underscore filename)
                          filename invalid_chars).
  intros replaced Hc.
  pose proof (strip_Forall _ (u ". ") replaced Hc) as Hs.
  pose proof (strip_head (u ". ") replaced) as Hh.
  pose proof (rstrip_last (u ". ") (lstrip (u ". ") replaced)) as Hl.
  fold (strip (u ". ") replaced) in Hl.
  generalize dependent (strip (u ". ") replaced). intros stripped Hs Hh Hl.
  case_decide as Hlen.
  - split_and!.
    + eapply prefix_Forall; [apply prefix_take|done].
    + rewrite length_take. lia.
    + intros c H. apply Hh. eapply prefix_head; [apply prefix_take|exact H].
    + rewrite length_take. lia.
  - split_and!; [done|lia|done|done].
Qed.

Lemma clean_filename_unchanged s :
  Forall (λ c, c ∉ invalid_chars) s ->
  (forall c, head s = Some c -> c ∉ u ". ") ->
  (forall c, last s = Some c -> c ∉ u ". ") ->
  length s <= 200 ->
  clean_filename s = s.
Proof.
  intros Hs Hh Hl Hlen. unfold clean_filename. cbv zeta.
  rewrite replace_all_unchanged by done.
  unfold strip. rewrite lstrip_unchanged by done. rewrite rstrip_unchanged by done.
  by rewrite decide_False by lia.
Qed.

(** ** Identifiers as file names *)

Lemma string_of_uint_digits d : Forall digit_char (u (NilEmpty.string_of_uint d)).
Proof.
  unfold u, digit_char.
  induction d; cbn [NilEmpty.string_of_uint list_ascii_of_string map];
    [constructor|..]; (constructor; [vm_compute; split; discriminate|done]).
Qed.

Lemma dec_digits n : Forall digit_char (dec n).
Proof. apply string_of_uint_digits. Qed.

Lemma dec_nonempty n : dec n <> [].
Proof.
  unfold dec. intros H.
  assert (Hn : Nat.to_uint n <> Nil).
  { rewrite <- (DecimalNat.Unsigned.of_to n) at 1.
    rewrite DecimalNat.Unsigned.to_of. apply DecimalFacts.unorm_nonnil. }
  destruct (Nat.to_uint n); [done|..]; vm_compute in H; discriminate H.
Qed.

Lemma fmt_03d_digits n : Forall digit_char (fmt_03d n).
Proof.
  unfold fmt_03d. apply Forall_app. split; [|apply dec_digits].
  apply Forall_replicate. unfold digit_char, zero. lia.
Qed.

Lemma digit_char_valid c : digit_char c -> (c ∉ invalid_chars) /\ (c ∉ u ". ").
Proof.
  unfold digit_char, invalid_chars. intros H.
  change (u ". ") with [46; 32]%N.
  rewrite !not_elem_of_cons. split_and!; try lia; apply not_elem_of_nil.
Qed.

Lemma doc_id_of_chars c n :
  Forall (λ ch, digit_char ch \/ ch = 46%N) (doc_id_of c n) /\
  exists ch, head (doc_id_of c n) = Some ch /\ digit_char ch.
Proof.
  unfold doc_id_of. split.
  - change dot with [46%N]. rewrite !Forall_app. split_and!.
    + eapply Forall_impl; [apply dec_digits|]. by left.
    + apply Forall_singleton. by right.
    + eapply Forall_impl; [apply fmt_03d_digits|]. by left.
  - pose proof (dec_digits c) as Hd. pose proof (dec_nonempty c) as Hne.
    destruct (dec c) as [|ch s]; [done|].
    apply Forall_cons in Hd as [Hch _]. by exists ch.
Qed.

(** What the downloader needs of an extension. *)
Lemma extension_shape ext :
  ext ∈ extensions ->
  exists body,
    ext = 46%N :: body /\ (46%N ∉ body) /\ length ext <= 5 /\
    Forall (λ c, c ∉ invalid_chars) ext /\
    (forall c, last ext = Some c -> c ∉ u ". ").
Proof.
  unfold extensions. intros H.
  repeat (apply elem_of_cons in H as [->|H];
    [eexists; split; [reflexivity|];
     split; [apply (bool_decide_eq_false_1 _); vm_compute; reflexivity|];
     split; [vm_compute; lia|];
     split; [apply (bool_decide_unpack _); vm_compute; exact I|];
     intros c [= <-]; apply (bool_decide_eq_false_1 _); vm_compute; reflexivity|]).
  by apply elem_of_nil in H.
Qed.

Lemma doc_id_of_plain c n : plain (doc_id_of c n).
Proof.
  destruct (doc_id_of_chars c n) as [Hchars (ch & Hhead & Hch)]. split_and!.
  - intros E. by rewrite E in Hhead.
  - eapply Forall_impl; [exact Hchars|]. intros x [Hx| ->].
    + by apply digit_char_valid.
    + apply (bool_decide_eq_false_1 _). vm_compute. reflexivity.
  - intros x Hx. rewrite Hhead in Hx. injection Hx as <-. by apply digit_char_valid.
Qed.

Lemma plain_name_unchanged doc_id ext :
  ext ∈ extensions -> plain doc_id -> length doc_id <= 195 ->
  clean_filename (doc_id ++ ext) = doc_id ++ ext.
Proof.
  intros Hext (Hne & Hchars & Hhead) Hlen.
  destruct (extension_shape ext Hext) as (body & -> & _ & Hl & Hvalid & Hlast).
  apply clean_filename_unchanged.
  - apply Forall_app. by split.
  - intros x Hx. destruct doc_id as [|y s]; [done|]. apply Hhead. exact Hx.
  - intros x. rewrite last_app_nonempty by done. apply Hlast.
  - rewrite length_app. lia.
Qed.

(** X16. The name the downloader saves a document under is the text that
    [f"{doc_id}"] gives followed by the extension found in the URL,
    whenever that text is plain and has at most 195 characters: nothing is
    replaced, stripped or cut. *)
Theorem filename_of_plain_text lower urlparse_path doc_id url ext :
  get_file_extension lower urlparse_path url = Ok ext ->
  plain doc_id -> length doc_id <= 195 ->
  filename lower urlparse_path doc_id url = Ok (doc_id ++ ext).
Proof.
  intros Hext Hplain Hlen. unfold filename. rewrite Hext. cbn [res_bind]. f_equal.
  apply plain_name_unchanged; [|done|done].
  by eapply get_file_extension_listed.
Qed.

(** X17. Two rows are saved under the same name exactly when [f"{doc_id}"]
    gives the same text for both and their URLs have the same extension
    (plain texts of at most 195 characters): the extension cannot make up
    for a difference of the texts, as no listed extension ends another. *)
Theorem filenames_agree_iff lower urlparse_path doc_id url ext doc_id' url' ext' :
  get_file_extension lower urlparse_path url = Ok ext ->
  get_file_extension lower urlparse_path url' = Ok ext' ->
  plain doc_id -> plain doc_id' -> length doc_id <= 195 -> length doc_id' <= 195 ->
  filename lower urlparse_path doc_id url = filename lower urlparse_path doc_id' url' <->
  doc_id = doc_id' /\ ext = ext'.
Proof.
  intros He He' Hp Hp' Hlen Hlen'.
  rewrite (filename_of_plain_text lower urlparse_path doc_id url ext) by done.
  rewrite (filename_of_plain_text lower urlparse_path doc_id' url' ext') by done.
  split; [|by intros [-> ->]].
  intros [= Heq].
  apply get_file_extension_listed in He, He'.
  assert (ext = ext') as <-.
  { destruct (suffix_of_same ext ext' (doc_id ++ ext)) as [H|H].
    - by apply suffix_app_r.
    - rewrite Heq. by apply suffix_app_r.
    - by apply extensions_apart.
    - symmetry. by apply extensions_apart. }
  split; [|done]. by apply app_inv_tail in Heq.
Qed.

Lemma length_replace char s : length (replace char underscore s) = length s.
Proof. unfold replace. apply length_fmap. Qed.

Lemma length_replace_all chars : forall s,
  length (foldl (λ filename char, replace char underscore filename) s chars) = length s.
Proof.
  induction chars as [|char chars IH]; intros s; cbn [foldl]; [done|].
  by rewrite IH, length_replace.
Qed.

Lemma length_strip chars s : length (strip chars s) <= length s.
Proof.
  unfold strip.
  destruct (rstrip_prefix chars (lstrip chars s)) as [k Hk].
  destruct (lstrip_suffix chars s) as [k' Hk'].
  apply (f_equal length) in Hk, Hk'. rewrite length_app in Hk, Hk'. lia.
Qed.

(** A name of at most 200 characters is not cut. *)
Lemma clean_filename_short s :
  length s <= 200 ->
  clean_filename s =
  strip (u ". ") (foldl (λ filename char, replace char underscore filename) s invalid_chars).
Proof.
  intros Hlen. unfold clean_filename. cbv zeta.
  pose proof (length_strip (u ". ")
    (foldl (λ filename char, replace char underscore filename) s invalid_chars)) as H.
  rewrite length_replace_all in H. by rewrite decide_False by lia.
Qed.

(** X25. Cleaning a cleaned name changes nothing, except for a name that the
    cut at 200 characters left ending in a dot or a space: [clean_filename]
    applied twice gives the same as applied once exactly when its first
    result does not end with a dot or a space. *)
Theorem clean_filename_idempotent_iff filename :
  clean_filename (clean_filename filename) = clean_filename filename <->
  forall c, last (clean_filename filename) = Some c -> c ∉ u ". ".
Proof.
  destruct (clean_filename_safe filename) as (Hvalid & Hlen & Hhead & _).
  split.
  - intros Hsame c Hc. rewrite <- Hsame in Hc.
    rewrite clean_filename_short in Hc by done.
    by apply rstrip_last in Hc.
  - intros Hlast. by apply clean_filename_unchanged.
Qed.

(** ** The downloads of one run *)

Lemma failure_message_not_empty_file why : failure_message why <> file_is_empty.
Proof.
  destruct why as [| |code|e]; intros H; apply (f_equal head) in H;
    vm_compute in H; discriminate H.
Qed.

Section DownloadRuns.
Variable lower : str -> str.
Variable urlparse_path : str -> res str.
Variable dir_size : nat.

Abbreviation download_row' := (download_row lower urlparse_path dir_size).
Abbreviation download_rows' := (download_rows lower urlparse_path dir_size).
Abbreviation download_main' := (download_main lower urlparse_path dir_size).
Abbreviation target' := (target lower urlparse_path).
Abbreviation served' := (served lower urlparse_path).

Lemma path_exists_insert fs f f' n :
  path_exists fs f = true -> path_exists (<[f' := n]> fs) f = true.
Proof.
  unfold path_exists. rewrite !orb_true_iff, !bool_decide_eq_true.
  intros [->|[m Hm]]; [by left|]. right.
  destruct (decide (f' = f)) as [->|Hne].
  - rewrite lookup_insert_eq. by eexists.
  - rewrite lookup_insert_ne by done. by eexists.
Qed.

Lemma path_exists_insert_eq fs f n : path_exists (<[f := n]> fs) f = true.
Proof.
  unfold path_exists. rewrite orb_true_iff, !bool_decide_eq_true. right.
  rewrite lookup_insert_eq. by eexists.
Qed.

(** One turn of the loop: one more entry, for this row and the name it
    asks for; files are added, none is changed or removed; and a row that
    is not an archive and whose file is there is skipped. *)
Lemma download_row_spec answer results fs i row results' fs' :
  download_row' answer (results, fs) (i, row) = Ok (results', fs') ->
  exists archive name r,
    target' row = Ok (archive, name) /\
    results' = results ++ [r] /\ of_row r = row /\ Filename r = name /\
    (forall f, path_exists fs f = true ->
       path_exists fs' f = true /\ fs' !! f = fs !! f) /\
    (forall f, path_exists fs f = false -> path_exists fs' f = true ->
       f = name /\ archive = false /\ Status r <> Skipped) /\
    (archive = true -> r = mkresult row name Failed archive_message 0 /\ fs' = fs) /\
    (archive = false -> path_exists fs name = true -> Status r = Skipped /\ fs' = fs) /\
    (archive = false -> Status r <> Failed \/ Message r = file_is_empty ->
       path_exists fs' name = true).
Proof.
  unfold download_row, target.
  destruct (is_archive_file lower urlparse_path (url_of row)) as [[|]|]; cbn [res_bind];
    [| |done].
  - destruct (get_file_extension lower urlparse_path (url_of row)) as [ext|];
      cbn [res_bind]; [|done].
    intros [= <- <-]. eexists true, _, _. split; [done|]. split; [done|].
    cbn [of_row Filename Status Message].
    split_and!; try done. intros f Hf Hf'. congruence.
  - destruct (filename lower urlparse_path (Document_ID row) (url_of row)) as [name|];
      cbn [res_bind]; [|done].
    assert (Hold : forall n f, path_exists fs name = false -> path_exists fs f = true ->
        path_exists (<[name := n]> fs) f = true /\ <[name := n]> fs !! f = fs !! f).
    { intros n f Hex Hf. split; [by apply path_exists_insert|].
      apply lookup_insert_ne. intros ->. congruence. }
    assert (Hnew : forall n f, path_exists fs f = false ->
        path_exists (<[name := n]> fs) f = true -> f = name).
    { intros n f Hf Hf'. destruct (decide (f = name)) as [->|Hne]; [done|].
      unfold path_exists in Hf, Hf'. rewrite lookup_insert_ne in Hf' by done.
      congruence. }
    destruct (path_exists fs name) eqn:Hex.
    + intros [= <- <-]. eexists false, _, _. split; [done|]. split; [done|].
      cbn [of_row Filename Status Message]. split_and!; try done.
      intros f Hf Hf'. congruence.
    + destruct (answer i) as [why|size|written why]; cbn [download_document].
      * intros [= <- <-]. eexists false, _, _. split; [done|]. split; [done|].
        cbn [of_row Filename Status Message]. split_and!; try done.
        -- intros f Hf Hf'. congruence.
        -- intros _ Hf. congruence.
        -- intros _ [H|H]; [done|]. by apply failure_message_not_empty_file in H.
      * case_decide as Hsize.
        -- intros [= <- <-]. eexists false, _, _. split; [done|]. split; [done|].
           cbn [of_row Filename Status Message]. split_and!; try done.
           ++ intros f Hf. by apply Hold.
           ++ intros f Hf Hf'. split_and!; [by eapply Hnew|done|done].
           ++ intros _ Hf. congruence.
           ++ intros _ _. apply path_exists_insert_eq.
        -- intros [= <- <-]. eexists false, _, _. split; [done|]. split; [done|].
           cbn [of_row Filename Status Message]. split_and!; try done.
           ++ intros f Hf. by apply Hold.
           ++ intros f Hf Hf'. split_and!; [by eapply Hnew|done|done].
           ++ intros _ Hf. congruence.
           ++ intros _ _. apply path_exists_insert_eq.
      * intros [= <- <-]. eexists false, _, _. split; [done|]. split; [done|].
        cbn [of_row Filename Status Message]. split_and!; try done.
        -- intros f Hf. by apply Hold.
        -- intros f Hf Hf'. split_and!; [by eapply Hnew|done|done].
        -- intros _ Hf. congruence.
        -- intros _ _. apply path_exists_insert_eq.
Qed.

Lemma download_rows_spec answer rows : forall results fs results' fs',
  download_rows' answer (results, fs) rows = Ok (results', fs') ->
  exists new,
    results' = results ++ new /\ of_row <$> new = rows.*2 /\
    (forall f, path_exists fs f = true ->
       path_exists fs' f = true /\ fs' !! f = fs !! f) /\
    (forall f, path_exists fs f = false -> path_exists fs' f = true ->
       exists r, r ∈ new /\ Filename r = f /\ Status r <> Skipped /\
                 target' (of_row r) = Ok (false, f)) /\
    Forall (served' fs fs') new.
Proof.
  induction rows as [|[i row] rows IH]; intros results fs results' fs'; cbn [download_rows].
  - intros [= <- <-]. exists []. rewrite app_nil_r.
    split_and!; [done|done|done| |constructor].
    intros f Hf Hf'. congruence.
  - destruct (download_row' answer (results, fs) (i, row)) as [[results1 fs1]|] eqn:Hrow;
      cbn [res_bind]; [|done].
    intros Hrest.
    apply download_row_spec in Hrow
      as (archive & name & r & Ht & -> & Hr & Hname & Hold & Hnew & Ha & Hskip & Hleft).
    apply IH in Hrest as (new & -> & Hrows & Hold' & Hnew' & Hserved).
    exists (r :: new). split_and!.
    + by rewrite <- app_assoc.
    + rewrite !fmap_cons. cbn [snd]. by rewrite Hr, Hrows.
    + intros f Hf. destruct (Hold f Hf) as [Hf1 Heq1].
      destruct (Hold' f Hf1) as [Hf2 Heq2]. split; [done|congruence].
    + intros f Hf Hf'. destruct (path_exists fs1 f) eqn:Hf1.
      * destruct (Hnew f Hf Hf1) as (-> & -> & Hst).
        exists r. split_and!; [left|done|done|]. by rewrite Hr.
      * destruct (Hnew' f Hf1 Hf') as (r' & Hin & ? & ? & ?).
        exists r'. split_and!; [by right|done|done|done].
    + constructor.
      * exists archive. rewrite Hr, Hname. split_and!.
        -- done.
        -- intros ->. destruct (Ha eq_refl) as [-> _]. done.
        -- intros -> Hex. by destruct (Hskip eq_refl Hex).
        -- intros -> Hst. apply Hold'. by apply Hleft.
      * eapply Forall_impl; [exact Hserved|].
        intros r' (archive' & Ht' & Ha' & Hskip' & Hleft').
        exists archive'. split_and!; [done|done| |done].
        intros -> Hex. apply Hskip'; [done|]. by apply Hold.
Qed.

(** The loop raises only where [urlparse] does: with every row's target
    known it runs to its end, whatever the directory and the answers. *)
Lemma download_rows_runs answer rows : forall acc,
  Forall (λ ir, exists t, target' ir.2 = Ok t) rows ->
  exists out, download_rows' answer acc rows = Ok out.
Proof.
  induction rows as [|[i row] rows IH]; intros [results fs] Hall; cbn [download_rows].
  - by eexists.
  - apply Forall_cons in Hall as [[[archive name] Ht] Hall]. cbn [snd] in Ht.
    assert (exists acc1, download_row' answer (results, fs) (i, row) = Ok acc1) as [acc1 ->].
    { unfold download_row. unfold target in Ht.
      destruct (is_archive_file lower urlparse_path (url_of row)) as [[|]|];
        cbn [res_bind] in Ht |- *; [| |done].
      - destruct (get_file_extension lower urlparse_path (url_of row));
          cbn [res_bind] in Ht |- *; [by eexists|done].
      - destruct (filename lower urlparse_path (Document_ID row) (url_of row));
          cbn [res_bind] in Ht |- *; [|done].
        destruct (path_exists fs a); [by eexists|].
        destruct (download_document (answer i) a fs) as [[success message] fs1].
        by eexists. }
    cbn [res_bind]. by apply IH.
Qed.

(** A request that got as far as writing leaves the file of its row. *)
Lemma download_row_wrote answer results fs i row results' fs' name :
  download_row' answer (results, fs) (i, row) = Ok (results', fs') ->
  target' row = Ok (false, name) -> wrote (answer i) ->
  path_exists fs' name = true.
Proof.
  unfold download_row, target.
  destruct (is_archive_file lower urlparse_path (url_of row)) as [[|]|]; cbn [res_bind];
    [| |done].
  - destruct (get_file_extension lower urlparse_path (url_of row)); cbn [res_bind]; done.
  - destruct (filename lower urlparse_path (Document_ID row) (url_of row)) as [name'|];
      cbn [res_bind]; [|done].
    intros Hrow [= <-] Hw.
    destruct (path_exists fs name') eqn:Hex.
    + by injection Hrow as _ <-.
    + destruct (answer i) as [why|size|written why]; cbn [download_document] in Hrow;
        [done| |].
      * case_decide; injection Hrow as _ <-; apply path_exists_insert_eq.
      * injection Hrow as _ <-. apply path_exists_insert_eq.
Qed.

Lemma download_rows_wrote answer rows : forall results fs results' fs' k i row name,
  download_rows' answer (results, fs) rows = Ok (results', fs') ->
  rows !! k = Some (i, row) -> target' row = Ok (false, name) -> wrote (answer i) ->
  path_exists fs' name = true.
Proof.
  induction rows as [|[i0 row0] rows IH]; intros results fs results' fs' k i row name;
    cbn [download_rows]; [done|].
  destruct (download_row' answer (results, fs) (i0, row0)) as [[results1 fs1]|] eqn:Hrow;
    cbn [res_bind]; [|done].
  intros Hrest Hk Ht Hw. destruct k as [|k].
  - injection Hk as -> ->.
    apply download_rows_spec in Hrest as (_ & _ & _ & Hold & _).
    apply Hold. by eapply download_row_wrote.
  - by eapply (IH results1 fs1).
Qed.

Lemma download_main_spec answer fs df out fs' :
  download_main' answer fs df = Ok (out, fs') ->
  (out = None /\ df_filtered df = [] /\ fs' = fs) \/
  (exists results,
     out = Some results /\ df_filtered df <> [] /\
     download_rows' answer ([], fs) (imap pair (df_filtered df)) = Ok (results, fs')).
Proof.
  unfold download_main. case_decide as Hlen.
  - intros [= <- <-]. left. split_and!; [done| |done]. by apply nil_length_inv.
  - destruct (download_rows' answer ([], fs) _) as [[results fs1]|]; cbn [res_bind]; [|done].
    intros [= <- <-]. right. exists results. split_and!; [done| |done].
    intros E. by rewrite E in Hlen.
Qed.

Lemma snd_imap_pair {A} (l : list A) : (imap pair l).*2 = l.
Proof.
  rewrite fmap_imap. rewrite (imap_ext _ (λ _ x, x) l) by done.
  rewrite (imap_const id). apply list_fmap_id.
Qed.

End DownloadRuns.

(** X18. When [main] of the downloader reaches its loop, [download_results]
    gets exactly one entry for each selected row, in the order of the
    rows, and at least one: the rate of success that the summary divides
    by the number of entries is defined. With no row selected [main]
    returns before the loop and leaves the directory as it was. *)
Theorem download_main_one_entry_per_row
    lower urlparse_path dir_size answer fs df out fs' :
  download_main lower urlparse_path dir_size answer fs df = Ok (out, fs') ->
  match out with
  | Some download_results =>
      of_row <$> download_results = df_filtered df /\ 0 < length download_results
  | None => df_filtered df = [] /\ fs' = fs
  end.
Proof.
  intros H. apply download_main_spec in H as [(-> & Hnil & ->)|(results & -> & Hne & Hrows)].
  - done.
  - apply download_rows_spec in Hrows as (new & Hres & Hof & _).
    cbn [app] in Hres. subst new. rewrite snd_imap_pair in Hof. split; [done|].
    apply (f_equal length) in Hof. rewrite length_fmap in Hof. rewrite Hof.
    destruct (df_filtered df); [done|simpl; lia].
Qed.

(** X19. One run of the downloader changes no file that is in the directory
    when it starts, and every file it adds is named after a selected row
    that is not an archive: the name is [clean_filename] of the row's
    identifier and extension, and the row's entry is not [Skipped]. *)
Theorem download_main_adds_only_targets
    lower urlparse_path dir_size answer fs df out fs' :
  download_main lower urlparse_path dir_size answer fs df = Ok (out, fs') ->
  (forall f, is_Some (fs !! f) -> fs' !! f = fs !! f) /\
  (forall f, fs !! f = None -> is_Some (fs' !! f) ->
     exists download_results r,
       out = Some download_results /\ r ∈ download_results /\
       Filename r = f /\ Status r <> Skipped /\
       target lower urlparse_path (of_row r) = Ok (false, f)).
Proof.
  intros H. apply download_main_spec in H as [(-> & Hnil & ->)|(results & -> & Hne & Hrows)].
  - split; [done|]. intros f Hf [n Hn]. congruence.
  - apply download_rows_spec in Hrows as (new & Hres & _ & Hold & Hnew & _).
    cbn [app] in Hres. subst new. split.
    + intros f Hf. apply Hold. unfold path_exists.
      rewrite orb_true_iff, !bool_decide_eq_true. by right.
    + intros f Hf Hf'.
      assert (Hf0 : f <> []).
      { intros ->. destruct (Hold []) as [_ Heq]; [done|].
        rewrite Heq, Hf in Hf'. by destruct Hf'. }
      destruct (Hnew f) as (r & Hr); [| |by exists results, r].
      * unfold path_exists. rewrite orb_false_iff, !bool_decide_eq_false.
        split; [done|]. rewrite Hf. by intros [? ?].
      * unfold path_exists. rewrite orb_true_iff, !bool_decide_eq_true. by right.
Qed.

Lemma archive_message_not_empty_file : archive_message <> file_is_empty.
Proof. intros H. vm_compute in H. discriminate H. Qed.

(** X20. A second run of the downloader over the same table runs to its end
    and requests nothing that the first run saved or skipped, nor
    anything whose download left a file behind: an empty one, or the part
    written before the transfer broke off. The entries of those rows are
    [Skipped], under the same file names, so such a document is not tried
    again. *)
Theorem download_main_second_run_skips
    lower urlparse_path dir_size answer1 answer2 fs df results1 fs1 :
  download_main lower urlparse_path dir_size answer1 fs df = Ok (Some results1, fs1) ->
  exists results2 fs2,
    download_main lower urlparse_path dir_size answer2 fs1 df = Ok (Some results2, fs2) /\
    forall i r1,
      results1 !! i = Some r1 ->
      Status r1 <> Failed \/ Message r1 = file_is_empty \/
      (is_archive_file lower urlparse_path (url_of (of_row r1)) = Ok false /\
       wrote (answer1 i)) ->
      exists r2,
        results2 !! i = Some r2 /\ of_row r2 = of_row r1 /\
        Filename r2 = Filename r1 /\ Status r2 = Skipped.
Proof.
  intros H. apply download_main_spec in H as [(? & _)|(results & [= <-] & Hne & Hrows)];
    [done|].
  pose proof Hrows as Hrows1.
  apply download_rows_spec in Hrows as (new & Hres & Hof & _ & _ & Hserved).
  cbn [app] in Hres. subst new. rewrite snd_imap_pair in Hof.
  (* the second run meets no row it cannot parse *)
  destruct (download_rows_runs lower urlparse_path dir_size answer2
              (imap pair (df_filtered df)) ([], fs1)) as [[results2 fs2] Hrows2].
  { apply Forall_forall. intros [i row] Hin. cbn [snd].
    assert (Hrow : row ∈ (imap pair (df_filtered df)).*2).
    { apply list_elem_of_fmap. by exists (i, row). }
    rewrite snd_imap_pair, <- Hof in Hrow.
    apply list_elem_of_fmap in Hrow as (r & -> & Hr).
    rewrite Forall_forall in Hserved. destruct (Hserved r Hr) as (archive & Ht & _).
    by eexists. }
  exists results2, fs2. split.
  { unfold download_main. rewrite decide_False.
    - by rewrite Hrows2.
    - intros E. apply nil_length_inv in E. done. }
  apply download_rows_spec in Hrows2 as (new2 & Hres2 & Hof2 & _ & _ & Hserved2).
  cbn [app] in Hres2. subst new2. rewrite snd_imap_pair in Hof2.
  intros i r1 Hr1 Hkept.
  assert (Hrow : (of_row <$> results2) !! i = Some (of_row r1)).
  { rewrite Hof2, <- Hof. by rewrite list_lookup_fmap, Hr1. }
  rewrite list_lookup_fmap in Hrow.
  destruct (results2 !! i) as [r2|] eqn:Hr2; [|done]. injection Hrow as Hrow.
  exists r2. split; [done|]. split; [done|].
  rewrite Forall_forall in Hserved, Hserved2.
  destruct (Hserved r1) as (archive & Ht & Ha & _ & Hleft);
    [by eapply list_elem_of_lookup_2|].
  destruct (Hserved2 r2) as (archive2 & Ht2 & _ & Hskip2 & _);
    [by eapply list_elem_of_lookup_2|].
  rewrite Hrow, Ht in Ht2. injection Ht2 as <- Hname.
  assert (Hthere : archive = false /\ path_exists fs1 (Filename r1) = true).
  { destruct Hkept as [Hk|[Hk|[Hk Hw]]].
    - destruct archive; [by destruct (Ha eq_refl)|]. split; [done|]. apply Hleft; [done|by left].
    - destruct archive.
      + destruct (Ha eq_refl) as [_ Hmsg]. rewrite Hmsg in Hk.
        by apply archive_message_not_empty_file in Hk.
      + split; [done|]. apply Hleft; [done|by right].
    - assert (archive = false) as ->.
      { unfold target in Ht. rewrite Hk in Ht. cbn [res_bind] in Ht.
        destruct (filename lower urlparse_path _ _); cbn [res_bind] in Ht; [|done].
        by injection Ht as <- _. }
      split; [done|].
      eapply (download_rows_wrote lower urlparse_path dir_size answer1 _ _ _ _ _ i i (of_row r1));
        [exact Hrows1| |exact Ht|exact Hw].
      rewrite list_lookup_imap.
      assert (Hl : df_filtered df !! i = Some (of_row r1)).
      { rewrite <- Hof. by rewrite list_lookup_fmap, Hr1. }
      by rewrite Hl. }
  destruct Hthere as [-> Hthere].
  split; [done|]. apply Hskip2; [done|]. by rewrite <- Hname.
Qed.
(** ** The further theorems at concrete inputs *)

Lemma missing_ids_counts_unmapped_rows_witness :
  sorts argsort_stable /\
  missing_ids (returned (create_unique_ids strptime_dmY argsort_stable [0]
    [a_row "Doprava" "01.01.2020"; a_row "Kultura" ""; a_row "Doprava" ""])) =
  length (filter (λ r, ~ mapped r)
    [a_row "Doprava" "01.01.2020"; a_row "Kultura" ""; a_row "Doprava" ""]).
Proof.
  split; [apply argsort_stable_sorts|].
  exact (missing_ids_counts_unmapped_rows strptime_dmY argsort_stable [0]
    [a_row "Doprava" "01.01.2020"; a_row "Kultura" ""; a_row "Doprava" ""]
    argsort_stable_sorts).
Defined.

Lemma id_range_line_three_digits_witness :
  sorts argsort_stable /\ (u "Doprava", 1) ∈ sector_mapping /\
  id_range_line (returned (create_unique_ids strptime_dmY argsort_stable [] two_dates))
    (u "Doprava") =
  Some (u "Doprava" ++ u ": " ++ doc_id_of 1 1 ++ u " to " ++
        doc_id_of 1 (length (filter (λ r, Sector r = Str (u "Doprava")) two_dates)) ++
        u " (" ++ dec (length (filter (λ r, Sector r = Str (u "Doprava")) two_dates)) ++
        u " documents)").
Proof.
  split; [apply argsort_stable_sorts|]. split; [left|].
  refine (proj2 (id_range_line_three_digits strptime_dmY argsort_stable [] two_dates
                   (u "Doprava") 1 argsort_stable_sorts _) _);
    [left|vm_compute; lia].
Defined.

Lemma id_range_line_four_digits_witness :
  sorts argsort_stable /\ (u "Doprava", 1) ∈ sector_mapping /\
  id_range_line
    (returned (create_unique_ids strptime_dmY argsort_stable []
                 (replicate 1000 (a_row "Doprava" ""))))
    (u "Doprava") =
  Some (u "Doprava" ++ u ": " ++ doc_id_of 1 1 ++ u " to " ++ doc_id_of 1 999 ++ u " (" ++
        dec (length (filter (λ r, Sector r = Str (u "Doprava"))
                       (replicate 1000 (a_row "Doprava" "")))) ++
        u " documents)").
Proof.
  split; [apply argsort_stable_sorts|]. split; [left|].
  refine (id_range_line_four_digits strptime_dmY argsort_stable []
            (replicate 1000 (a_row "Doprava" "")) (u "Doprava") 1
            argsort_stable_sorts _ _);
    [left|vm_compute; lia].
Defined.

Lemma date_search_first_occurrence_witness :
  search ascii_word (date_re ascii_digit) (u "Zverejnene 5.12.2023 (PDF, 1 MB), aktualizacia 01.02.2024") =
    Some (u "5.12.2023") /\
  exists pre post,
    date_occurs ascii_digit ascii_word
      (u "Zverejnene 5.12.2023 (PDF, 1 MB), aktualizacia 01.02.2024") pre (u "5.12.2023") post.
Proof.
  split; [vm_compute; reflexivity|].
  destruct (proj1 (date_search_first_occurrence ascii_digit ascii_word
                     (u "Zverejnene 5.12.2023 (PDF, 1 MB), aktualizacia 01.02.2024")) (u "5.12.2023"))
    as (pre & post & Hocc & _); [vm_compute; reflexivity|].
  by exists pre, post.
Defined.

Lemma scrape_sector_page_records_stem_from_links_witness :
  exists resp,
    page_all_readable = Ok resp /\ status_code resp = 200 /\
    stems_from lower_ascii urljoin_path ascii_digit ascii_space ascii_word
      (u "Doprava") (find_all resp)
      (mkdocument (u "Doprava") (u "Bridge Project") stanovisko
         (u "https://www.mfsr.sk/b.pdf") [] []).
Proof.
  apply (scrape_sector_page_records_stem_from_links lower_ascii urljoin_path
           ascii_digit ascii_space ascii_word (u "Doprava") page_all_readable 1).
  vm_compute. reflexivity.
Defined.

Lemma scrape_sector_page_keeps_every_link_witness :
  exists d,
    d ∈ scrape_sector_page lower_ascii urljoin_path ascii_digit ascii_space ascii_word
          (u "Doprava")
          (Ok (mkresponse 200
                 [ a_heading "Bridge Project";
                   a_link "hodnotenie 2023" "/a.pdf" "hodnotenie 2023" [] [];
                   a_link "stiahnut" "/a.pdf" "stiahnut" [] [] ])) /\
    key_of d =
      (u "Doprava",
       project_at [ a_heading "Bridge Project";
                    a_link "hodnotenie 2023" "/a.pdf" "hodnotenie 2023" [] [] ],
       BASE ++ u "/a.pdf").
Proof.
  refine (scrape_sector_page_keeps_every_link lower_ascii urljoin_path
    ascii_digit ascii_space ascii_word (u "Doprava")
    (mkresponse 200
       [ a_heading "Bridge Project";
         a_link "hodnotenie 2023" "/a.pdf" "hodnotenie 2023" [] [];
         a_link "stiahnut" "/a.pdf" "stiahnut" [] [] ])
    [ a_heading "Bridge Project";
      a_link "hodnotenie 2023" "/a.pdf" "hodnotenie 2023" [] [] ]
    (a_link "stiahnut" "/a.pdf" "stiahnut" [] []) []
    (u "stiahnut") (u "/a.pdf") (u "stiahnut") (BASE ++ u "/a.pdf") (None, None) _ _ _).
  - vm_compute. discriminate.
  - reflexivity.
  - unfold document_link.
    split; [reflexivity|]. split; [reflexivity|]. split; [reflexivity|].
    split; [vm_compute; discriminate|]. split; [vm_compute; reflexivity|].
    split; [reflexivity|]. split; [reflexivity|]. vm_compute. reflexivity.
Defined.

Lemma all_rows_sectors_have_codes_witness :
  exists c, (u "Doprava", c) ∈ sector_mapping.
Proof.
  apply (all_rows_sectors_have_codes lower_ascii urljoin_path ascii_digit ascii_space
           ascii_word only_doprava_answers 0
           (mkdocument (u "Doprava") (u "Bridge Project") hodnotenie
              (u "https://www.mfsr.sk/a.pdf") [] (u "2 MB"))).
  vm_compute. reflexivity.
Defined.

Lemma filename_of_plain_text_witness :
  filename lower_ascii urlparse_after_host (u "1.01")
    (u "https://www.mfsr.sk/files/Hodnotenie.DOCX") = Ok (u "1.01" ++ u ".docx").
Proof.
  apply filename_of_plain_text; [vm_compute; reflexivity| |vm_compute; lia].
  split; [done|]. split.
  - apply (bool_decide_unpack _). vm_compute. exact I.
  - intros c [= <-]. apply (bool_decide_eq_false_1 _). vm_compute. reflexivity.
Defined.

Lemma filenames_agree_iff_witness :
  filename lower_ascii urlparse_after_host (u "1.1") (u "https://www.mfsr.sk/a.pdf") =
  filename lower_ascii urlparse_after_host (u "1.1") (u "https://www.mfsr.sk/b/c.PDF") <->
  u "1.1" = u "1.1" /\ u ".pdf" = u ".pdf".
Proof.
  apply (filenames_agree_iff lower_ascii urlparse_after_host);
    [ vm_compute; reflexivity | vm_compute; reflexivity
    | split; [done|]; split;
        [ apply (bool_decide_unpack _); vm_compute; exact I
        | intros c [= <-]; apply (bool_decide_eq_false_1 _); vm_compute; reflexivity ]
    | split; [done|]; split;
        [ apply (bool_decide_unpack _); vm_compute; exact I
        | intros c [= <-]; apply (bool_decide_eq_false_1 _); vm_compute; reflexivity ]
    | vm_compute; lia | vm_compute; lia ].
Defined.

Lemma download_main_one_entry_per_row_witness :
  download_main lower_ascii urlparse_after_host 4096 empty_then_silent no_files
    two_documents = Ok (Some first_run, after_first_run) /\
  of_row <$> first_run = df_filtered two_documents /\
  0 < length first_run.
Proof.
  split; [vm_compute; reflexivity|].
  refine (download_main_one_entry_per_row lower_ascii urlparse_after_host 4096
            empty_then_silent no_files two_documents (Some first_run) after_first_run _).
  vm_compute. reflexivity.
Defined.

Lemma download_main_adds_only_targets_witness :
  download_main lower_ascii urlparse_after_host 4096 empty_then_silent no_files
    two_documents = Ok (Some first_run, after_first_run) /\
  (forall f, is_Some (no_files !! f) -> after_first_run !! f = no_files !! f) /\
  (forall f, no_files !! f = None -> is_Some (after_first_run !! f) ->
     exists download_results r,
       Some first_run = Some download_results /\ r ∈ download_results /\
       Filename r = f /\ Status r <> Skipped /\
       target lower_ascii urlparse_after_host (of_row r) = Ok (false, f)).
Proof.
  split; [vm_compute; reflexivity|].
  apply (download_main_adds_only_targets lower_ascii urlparse_after_host 4096
           empty_then_silent no_files two_documents (Some first_run) after_first_run).
  vm_compute. reflexivity.
Defined.

Lemma download_main_second_run_skips_witness :
  download_main lower_ascii urlparse_after_host 4096 cut_then_silent no_files
    two_documents = Ok (Some first_run_cut, after_first_run_cut) /\
  wrote (cut_then_silent 0) /\
  exists results2 fs2,
    download_main lower_ascii urlparse_after_host 4096 (λ _, Delivered 10)
      after_first_run_cut two_documents = Ok (Some results2, fs2) /\
    exists r2,
      results2 !! 0 = Some r2 /\
      of_row r2 = mkorow (a_row "Doprava" "01.01.2020") (doc_id_of 1 1) /\
      Filename r2 = u "1.001.pdf" /\ Status r2 = Skipped.
Proof.
  split; [vm_compute; reflexivity|]. split; [exact I|].
  destruct (download_main_second_run_skips lower_ascii urlparse_after_host 4096
              cut_then_silent (λ _, Delivered 10) no_files two_documents
              first_run_cut after_first_run_cut ltac:(vm_compute; reflexivity))
    as (results2 & fs2 & Hrun & Hskips).
  exists results2, fs2. split; [exact Hrun|].
  apply (Hskips 0
           (mkresult (mkorow (a_row "Doprava" "01.01.2020") (doc_id_of 1 1))
              (u "1.001.pdf") Failed (u "Connection error") 0));
    [reflexivity|right; right; split; [vm_compute; reflexivity|exact I]].
Defined.

Lemma dated_ids_depend_on_own_sector_witness :
  sorts argsort_stable /\ (u "Doprava", 1) ∈ sector_mapping /\
  id_at (create_unique_ids strptime_dmY argsort_stable [0]
           [a_row "Doprava" "01.01.2020"; a_row "Budovy" ""; a_row "Budovy" ""]) 0 =
  id_at (create_unique_ids strptime_dmY argsort_stable [1]
           [a_row "Doprava" "01.01.2020"; a_row "Obrana" "02.02.2020"; a_row "Z" ""]) 0.
Proof.
  split; [apply argsort_stable_sorts|]. split; [left|].
  refine (dated_ids_depend_on_own_sector strptime_dmY argsort_stable [0] [1]
    [a_row "Doprava" "01.01.2020"; a_row "Budovy" ""; a_row "Budovy" ""]
    [a_row "Doprava" "01.01.2020"; a_row "Obrana" "02.02.2020"; a_row "Z" ""]
    (u "Doprava") 1 0 (a_row "Doprava" "01.01.2020") (mkdate 2020 1 1)
    argsort_stable_sorts _ _ _ _ _);
    [ left
    | constructor; [left; reflexivity|];
      constructor; [right; split; intros H; vm_compute in H; discriminate H|];
      constructor; [right; split; intros H; vm_compute in H; discriminate H|];
      constructor
    | reflexivity | reflexivity | vm_compute; reflexivity ].
Defined.

Lemma scrape_sector_page_empty_iff_witness :
  scrape_sector_page lower_ascii urljoin_path ascii_digit ascii_space ascii_word
    (u "Doprava")
    (Ok (mkresponse 200
           [ a_heading "Bridge Project";
             a_link "stanovisko" "/b.pdf" "stanovisko" [SibNode Raise] [] ])) = [] <->
  Exists (fails lower_ascii urljoin_path ascii_digit ascii_space ascii_word)
    (find_all (mkresponse 200
                 [ a_heading "Bridge Project";
                   a_link "stanovisko" "/b.pdf" "stanovisko" [SibNode Raise] [] ])) \/
  Forall (λ elem, ~ is_document_link lower_ascii elem)
    (find_all (mkresponse 200
                 [ a_heading "Bridge Project";
                   a_link "stanovisko" "/b.pdf" "stanovisko" [SibNode Raise] [] ])).
Proof.
  apply (scrape_sector_page_empty_iff lower_ascii urljoin_path ascii_digit ascii_space
           ascii_word (u "Doprava")).
  reflexivity.
Defined.

Lemma scrape_sector_page_in_page_order_witness :
  exists resp p q,
    page_all_readable = Ok resp /\ p < q /\
    built_at lower_ascii urljoin_path ascii_digit ascii_space ascii_word (u "Doprava")
      (find_all resp) p
      (mkdocument (u "Doprava") (u "Bridge Project") hodnotenie
         (u "https://www.mfsr.sk/a.pdf") [] (u "2 MB")) /\
    built_at lower_ascii urljoin_path ascii_digit ascii_space ascii_word (u "Doprava")
      (find_all resp) q
      (mkdocument (u "Doprava") (u "Bridge Project") stanovisko
         (u "https://www.mfsr.sk/b.pdf") [] []).
Proof.
  apply (scrape_sector_page_in_page_order lower_ascii urljoin_path ascii_digit ascii_space
           ascii_word (u "Doprava") page_all_readable 0 1);
    [lia|vm_compute; reflexivity|vm_compute; reflexivity].
Defined.

Lemma assignments_are_logged_witness :
  sorts argsort_stable /\ (u "Doprava", 1) ∈ sector_mapping /\
  exists doc_id,
    id_at (create_unique_ids strptime_dmY argsort_stable [0]
             [a_row "Doprava" ""; a_row "Kultura" ""; a_row "Doprava" "01.01.2020"]) 0
      = Some doc_id /\
    assigned_line doc_id
      (bool_decide (is_Some (parse_date strptime_dmY (Date (a_row "Doprava" ""))))) 0 ∈
      printed (create_unique_ids strptime_dmY argsort_stable [0]
                 [a_row "Doprava" ""; a_row "Kultura" ""; a_row "Doprava" "01.01.2020"]).
Proof.
  split; [apply argsort_stable_sorts|]. split; [left|].
  refine (assignments_are_logged strptime_dmY argsort_stable [0]
    [a_row "Doprava" ""; a_row "Kultura" ""; a_row "Doprava" "01.01.2020"]
    (u "Doprava") 1 0 (a_row "Doprava" "") argsort_stable_sorts _ _ _);
    [left|reflexivity|reflexivity].
Defined.
